(** * libziparchive/unzip.cpp: the unzip / zipinfo command-line tool

    A shallow embedding of the extraction pipeline of [unzip.cpp] and the
    properties its design document states about it.  Pure helpers become
    functions; the code that touches the process state (overwrite mode,
    errno, file system, standard streams) becomes a state-passing monad
    whose computations may also terminate the process ([exit]).

    External collaborators are modelled at their interface:
    - [fnmatch(3)] is a section variable (any matcher);
    - the POSIX calls [stat], [mkdir], [open], [close] act on a small file
      system model with path resolution;
    - the archive parser is a list of entries followed by a final status. *)

From Stdlib Require Import ZArith Lia String Ascii List Bool.
From stdpp Require Import base gmap sets list strings.
Import ListNotations.

Local Open Scope string_scope.
Local Open Scope Z_scope.

#[local] Set Warnings "-clear-no-such-hyp".

(** ** Machine integers *)

Module Int.

(** Two's complement reading of the low [bits] bits of [x]. *)
Definition wrap_signed (bits : Z) (x : Z) : Z :=
  let m := x mod 2 ^ bits in
  if m <? 2 ^ (bits - 1) then m else m - 2 ^ bits.

(** Unsigned reading of the low [bits] bits of [x]. *)
Definition wrap_unsigned (bits : Z) (x : Z) : Z := x mod 2 ^ bits.

Definition to_int (x : Z) : Z := wrap_signed 32 x.
Definition to_int64 (x : Z) : Z := wrap_signed 64 x.
Definition to_uint64 (x : Z) : Z := wrap_unsigned 64 x.
(** [size_t] on the LP64 targets the tool is built for. *)
Definition to_size_t (x : Z) : Z := wrap_unsigned 64 x.

Definition in_int (x : Z) : Prop := - 2 ^ 31 <= x < 2 ^ 31.
Definition in_int64 (x : Z) : Prop := - 2 ^ 63 <= x < 2 ^ 63.

End Int.

(** ** CompressionRatio (unzip.cpp:89-92)

    [int64_t] arithmetic, C++ division (truncating toward zero), and the
    final [static_cast<int>].  The subtraction and the product are read
    modulo 2^64 and the cast modulo 2^32, as the two's complement targets
    do. *)

Definition CompressionRatio (uncompressed compressed : Z) : Z :=
  if uncompressed =? 0 then 0
  else Int.to_int
         (Int.to_int64
            (Z.quot (Int.to_int64 (100 * Int.to_int64 (uncompressed - compressed)))
                    uncompressed)).

(** The ratio as the specification writes it: exact integers, division
    truncating toward zero, zero for an empty input. *)
Definition exact_ratio (u c : Z) : Z :=
  if u =? 0 then 0 else Z.quot (100 * (u - c)) u.

(** ** Strings

    [std::string] values are byte strings that may hold NUL bytes; what a
    C interface sees of one is [c_str]: the bytes before the first NUL. *)

Definition NUL : ascii := ascii_of_nat 0.
Definition slash : ascii := "/"%char.

Fixpoint c_str (s : string) : string :=
  match s with
  | EmptyString => EmptyString
  | String c s' => if Ascii.eqb c NUL then EmptyString else String c (c_str s')
  end.

(** [line[0]] of a C string: the terminating NUL when the string is empty. *)
Definition first_char (s : string) : ascii :=
  match s with
  | EmptyString => NUL
  | String c _ => c
  end.

(** [std::string::find(needle)] from position 0; [None] is [npos]. *)
Fixpoint find (s needle : string) : option nat :=
  if String.prefix needle s then Some 0%nat
  else match s with
       | EmptyString => None
       | String _ s' => option_map S (find s' needle)
       end.

Module Base.

(** Modelled from the spec: [android::base::StartsWith]
    (android-base/strings.h, not under src/), the test behind "names that
    begin with a path separator": [prefix] is a prefix of [s]. *)
Definition StartsWith (s prefix : string) : bool := String.prefix prefix s.

(** Modelled from the spec: [android::base::EndsWith]
    (android-base/strings.h, not under src/), the test behind "the entry
    name ends with a path separator": [s] is at least as long as [suffix]
    and its last bytes are those of [suffix]. *)
Definition EndsWith (s suffix : string) : bool :=
  let n := String.length suffix in
  (n <=? String.length s)%nat
  && String.eqb (String.substring (String.length s - n) n s) suffix.

End Base.

(** [dirname(3)] of the C library, on the reversed byte list of the path:
    trailing slashes go, then the last component, then the slashes before
    it; what is left is the result, [.] when there was no slash and [/]
    when nothing but the root is left. *)
Module Libc.

(** Step [endp] to the left while it is past the first byte and the byte
    under it satisfies [p]: the first byte of the path is never dropped. *)
Fixpoint retreat (p : ascii -> bool) (r : list ascii) : list ascii :=
  match r with
  | c :: (_ :: _) as r' => if p c then retreat p r' else r
  | _ => r
  end.

Definition is_slash (c : ascii) : bool := Ascii.eqb c slash.
Definition not_slash (c : ascii) : bool := negb (Ascii.eqb c slash).

Definition dirname_rev (r : list ascii) : list ascii :=
  (* strip trailing slashes, then the last component *)
  match retreat not_slash (retreat is_slash r) with
  | [] => ["."%char]
  | [c] => if is_slash c then [slash] else ["."%char]
  | _ :: r' =>
      (* endp rests on a slash: step over it and over the slashes before it *)
      retreat is_slash r'
  end.

Definition dirname (path : string) : string :=
  string_of_list_ascii
    (List.rev (dirname_rev (List.rev (list_ascii_of_string path)))).

End Libc.

(** Modelled from the spec: [android::base::Dirname] (android-base/file.h,
    not under src/), "the parent of the entry name": [dirname(3)] applied
    to a copy of the path, which it reads as a C string. *)
Definition Dirname (path : string) : string := Libc.dirname (c_str path).

(** ** The POSIX file system, as far as the tool uses it

    A finite map from canonical absolute paths (component lists, the root
    being the empty list) to inodes, a working directory and a umask.
    There are no symbolic links and no permission checks in the model. *)

Module Posix.

Definition ENOENT : Z := 2.
Definition EBADF : Z := 9.
Definition EEXIST : Z := 17.
Definition ENOTDIR : Z := 20.
Definition EISDIR : Z := 21.
Definition EPIPE : Z := 32.

Definition S_IFMT : Z := 61440.   (* 0170000 *)
Definition S_IFDIR : Z := 16384.  (* 0040000 *)
Definition S_IFREG : Z := 32768.  (* 0100000 *)
Definition S_IRUSR : Z := 256.
Definition S_IWUSR : Z := 128.
Definition S_IXUSR : Z := 64.
Definition S_IRGRP : Z := 32.
Definition S_IWGRP : Z := 16.
Definition S_IXGRP : Z := 8.
Definition S_IROTH : Z := 4.
Definition S_IWOTH : Z := 2.
Definition S_IXOTH : Z := 1.

Definition S_ISDIR (m : Z) : bool := Z.land m S_IFMT =? S_IFDIR.
Definition S_ISREG (m : Z) : bool := Z.land m S_IFMT =? S_IFREG.

Definition O_WRONLY : Z := 1.
Definition O_CREAT : Z := 64.      (* 0100 *)
Definition O_EXCL : Z := 128.      (* 0200 *)
Definition O_TRUNC : Z := 512.     (* 01000 *)
Definition O_CLOEXEC : Z := 524288. (* 02000000 *)

Definition has_flag (flags flag : Z) : bool := negb (Z.land flags flag =? 0).

Inductive inode : Type :=
  | Directory (perm : Z)
  | Regular (perm : Z) (data : string).

Record FileSystem : Type := mkFS {
  nodes : gmap (list string) inode;
  cwd : list string;
  umask : Z;
}.

Definition with_nodes (fs : FileSystem) (n : gmap (list string) inode) : FileSystem :=
  {| nodes := n; cwd := cwd fs; umask := umask fs |}.

(** The pieces of a path between slashes, empty ones included. *)
Fixpoint split_slash (s : string) : list string :=
  match s with
  | EmptyString => [EmptyString]
  | String c s' =>
      if Ascii.eqb c slash then EmptyString :: split_slash s'
      else match split_slash s' with
           | h :: t => String c h :: t
           | [] => [String c EmptyString]
           end
  end.

Definition components (path : string) : list string :=
  List.filter (fun c => negb (String.eqb c "")) (split_slash path).

(** One step of path resolution: every component is looked up in a
    directory that must exist. *)
Definition step (cur : list string) (c : string) : list string :=
  if String.eqb c "." then cur
  else if String.eqb c ".." then removelast cur
  else cur ++ [c].

Fixpoint walk (fs : FileSystem) (cur : list string) (comps : list string)
  : Z + list string :=
  match comps with
  | [] => inr cur
  | c :: rest =>
      match nodes fs !! cur with
      | None => inl ENOENT
      | Some (Regular _ _) => inl ENOTDIR
      | Some (Directory _) => walk fs (step cur c) rest
      end
  end.

(** The canonical path a path name denotes, whether or not anything
    exists there yet; an errno when a directory on the way is missing. *)
Definition resolve (fs : FileSystem) (path : string) : Z + list string :=
  if String.eqb path "" then inl ENOENT
  else walk fs (if Base.StartsWith path "/" then [] else cwd fs) (components path).

(** [stat]: the [st_mode] of what the path denotes. *)
Definition stat_model (fs : FileSystem) (path : string) : Z + Z :=
  match resolve fs path with
  | inl e => inl e
  | inr p =>
      match nodes fs !! p with
      | None => inl ENOENT
      | Some (Directory perm) => inr (Z.lor S_IFDIR (Z.land perm 4095))
      | Some (Regular perm _) =>
          if Base.EndsWith path "/" then inl ENOTDIR
          else inr (Z.lor S_IFREG (Z.land perm 4095))
      end
  end.

(** The permission bits a new inode gets: those of [mode] that the umask
    lets through, among the bits [kept] by the call. *)
Definition masked (fs : FileSystem) (mode kept : Z) : Z :=
  Z.land (Z.land mode (Z.lnot (umask fs))) kept.

(** [mkdir]: fails with EEXIST when the path denotes anything at all. *)
Definition mkdir_model (fs : FileSystem) (path : string) (mode : Z)
  : Z + FileSystem :=
  match resolve fs path with
  | inl e => inl e
  | inr p =>
      match nodes fs !! p with
      | Some _ => inl EEXIST
      | None =>
          inr (with_nodes fs
                 (<[p := Directory (masked fs mode 1023 (* 01777 *))]> (nodes fs)))
      end
  end.

(** [open] for writing: the new file system and the file opened. *)
Definition open_model (fs : FileSystem) (path : string) (flags mode : Z)
  : Z + (FileSystem * list string) :=
  match resolve fs path with
  | inl e => inl e
  | inr p =>
      match nodes fs !! p with
      | Some (Directory _) =>
          if has_flag flags O_CREAT && has_flag flags O_EXCL then inl EEXIST
          else inl EISDIR
      | Some (Regular perm data) =>
          if Base.EndsWith path "/" then inl ENOTDIR
          else if has_flag flags O_CREAT && has_flag flags O_EXCL then inl EEXIST
          else if has_flag flags O_TRUNC
               then inr (with_nodes fs (<[p := Regular perm ""]> (nodes fs)), p)
               else inr (fs, p)
      | None =>
          if negb (has_flag flags O_CREAT) then inl ENOENT
          else if Base.EndsWith path "/" then inl EISDIR
          else inr (with_nodes fs
                      (<[p := Regular (masked fs mode 4095 (* 07777 *)) ""]> (nodes fs)),
                    p)
      end
  end.

(** What [stat] followed by [S_ISDIR] finds out. *)
Definition is_directory (fs : FileSystem) (path : string) : bool :=
  match stat_model fs path with
  | inr st_mode => S_ISDIR st_mode
  | inl _ => false
  end.

(** The regular file at a canonical path, if there is one. *)
Definition regular_at (fs : FileSystem) (p : list string) : option inode :=
  match nodes fs !! p with
  | Some (Regular perm data) => Some (Regular perm data)
  | _ => None
  end.

End Posix.

(** ** Computations that may end the process

    [M S A]: a computation over a state [S] that returns an [A], calls
    [exit], or never returns ([Diverge]: the fuel of a recursion ran out). *)

Inductive Outcome (A : Type) : Type :=
  | Ret (a : A)
  | Exit (status : Z)
  | Diverge.

Arguments Ret {A} a.
Arguments Exit {A} status.
Arguments Diverge {A}.

Definition M (S A : Type) : Type := S -> Outcome A * S.

Definition ret {S A : Type} (a : A) : M S A := fun st => (Ret a, st).

Definition bind {S A B : Type} (m : M S A) (k : A -> M S B) : M S B :=
  fun st =>
    match m st with
    | (Ret a, st') => k a st'
    | (Exit n, st') => (Exit n, st')
    | (Diverge, st') => (Diverge, st')
    end.

Definition get {S : Type} : M S S := fun st => (Ret st, st).
Definition modify {S : Type} (f : S -> S) : M S unit := fun st => (Ret tt, f st).
Definition exit {S A : Type} (status : Z) : M S A := fun st => (Exit status, st).
Definition diverge {S A : Type} : M S A := fun st => (Diverge, st).

Declare Scope prog_scope.
Delimit Scope prog_scope with prog.
Notation "x <- m ;; k" := (bind m (fun x => k))
  (at level 100, m at next level, right associativity) : prog_scope.
Notation "m ;; k" := (bind m (fun _ => k))
  (at level 100, right associativity) : prog_scope.
Local Open Scope prog_scope.

(** ** Process state *)

Inductive OverwriteMode : Type := kAlways | kNever | kPrompt.

(** One argument of a printf-style call. *)
Inductive Arg : Type :=
  | AStr (s : string)
  | AInt (z : Z)
  | AChar (c : ascii)
  | AErrorCodeString (err : Z)                   (* ErrorCodeString(err) *)
  | ASnprintf (format : string) (ints : list Z). (* a buffer filled by snprintf *)

(** What reaches standard output: formatted text, a flush, raw bytes. *)
Inductive Output : Type :=
  | Printf (format : string) (args : list Arg)
  | Fflush
  | Bytes (data : string).

(** A diagnostic of [error(3)] on standard error. *)
Record Diagnostic : Type := mkDiagnostic {
  diag_errnum : Z;
  diag_format : string;
  diag_args : list Arg;
}.

Inductive Syscall : Type :=
  | CallStat (path : string)
  | CallMkdir (path : string) (mode : Z)
  | CallOpen (path : string) (flags mode : Z)
  | CallClose (fd : Z)
  | CallGetline
  | CallWrite (fd : Z)
  | CallExtractEntryToFile (fd : Z)
  | CallExtractToMemory.

Record Env : Type := mkEnv {
  overwrite_mode : OverwriteMode;
  errno : Z;
  fs : Posix.FileSystem;
  fds : list (Z * list string);   (* descriptors open for writing *)
  stdin : list string;            (* the lines still to be read *)
  stdout : list Output;
  stdout_open : bool;             (* whether writes to fd 1 succeed *)
  stderr : list Diagnostic;
  syscalls : list Syscall;
}.

Definition set_overwrite_mode (m : OverwriteMode) (e : Env) : Env :=
  mkEnv m (errno e) (fs e) (fds e) (stdin e) (stdout e) (stdout_open e)
        (stderr e) (syscalls e).
Definition set_errno (n : Z) (e : Env) : Env :=
  mkEnv (overwrite_mode e) n (fs e) (fds e) (stdin e) (stdout e) (stdout_open e)
        (stderr e) (syscalls e).
Definition set_fs (f : Posix.FileSystem) (e : Env) : Env :=
  mkEnv (overwrite_mode e) (errno e) f (fds e) (stdin e) (stdout e) (stdout_open e)
        (stderr e) (syscalls e).
Definition set_fds (d : list (Z * list string)) (e : Env) : Env :=
  mkEnv (overwrite_mode e) (errno e) (fs e) d (stdin e) (stdout e) (stdout_open e)
        (stderr e) (syscalls e).
Definition set_stdin (l : list string) (e : Env) : Env :=
  mkEnv (overwrite_mode e) (errno e) (fs e) (fds e) l (stdout e) (stdout_open e)
        (stderr e) (syscalls e).
Definition put_stdout (o : Output) (e : Env) : Env :=
  mkEnv (overwrite_mode e) (errno e) (fs e) (fds e) (stdin e) (stdout e ++ [o])
        (stdout_open e) (stderr e) (syscalls e).
Definition put_stderr (d : Diagnostic) (e : Env) : Env :=
  mkEnv (overwrite_mode e) (errno e) (fs e) (fds e) (stdin e) (stdout e)
        (stdout_open e) (stderr e ++ [d]) (syscalls e).
Definition log_syscall (c : Syscall) (e : Env) : Env :=
  mkEnv (overwrite_mode e) (errno e) (fs e) (fds e) (stdin e) (stdout e)
        (stdout_open e) (stderr e) (syscalls e ++ [c]).

(** *** The C library, over [Env] *)

Definition printf (format : string) (args : list Arg) : M Env unit :=
  modify (put_stdout (Printf format args)).

Definition fflush_stdout : M Env unit := modify (put_stdout Fflush).

(** [error(status, errnum, format, ...)]: the diagnostic goes to standard
    error, and a non-zero [status] ends the process with that status. *)
Definition error (status errnum : Z) (format : string) (args : list Arg)
  : M Env unit :=
  modify (put_stderr (mkDiagnostic errnum format args)) ;;
  if status =? 0 then ret tt else exit status.

(** [stat(path, &sb)]: [Some sb.st_mode], or [None] for -1. *)
Definition stat (path : string) : M Env (option Z) :=
  modify (log_syscall (CallStat path)) ;;
  st <- get ;;
  match Posix.stat_model (fs st) path with
  | inr mode => ret (Some mode)
  | inl e => modify (set_errno e) ;; ret None
  end.

Definition mkdir (path : string) (mode : Z) : M Env Z :=
  modify (log_syscall (CallMkdir path mode)) ;;
  st <- get ;;
  match Posix.mkdir_model (fs st) path mode with
  | inr fs' => modify (set_fs fs') ;; ret 0
  | inl e => modify (set_errno e) ;; ret (-1)
  end.

(** The lowest descriptor from [candidate] on that is not in [used]. *)
Fixpoint lowest_free (used : list Z) (candidate : Z) (fuel : nat) : Z :=
  match fuel with
  | O => candidate
  | S fuel' =>
      if existsb (Z.eqb candidate) used
      then lowest_free used (candidate + 1) fuel'
      else candidate
  end.

Definition open (path : string) (flags mode : Z) : M Env Z :=
  modify (log_syscall (CallOpen path flags mode)) ;;
  st <- get ;;
  match Posix.open_model (fs st) path flags mode with
  | inr (fs', file) =>
      let fd := lowest_free (List.map fst (fds st)) 3 (List.length (fds st)) in
      modify (set_fs fs') ;;
      modify (set_fds ((fd, file) :: fds st)) ;;
      ret fd
  | inl e => modify (set_errno e) ;; ret (-1)
  end.

Definition close (fd : Z) : M Env unit :=
  modify (log_syscall (CallClose fd)) ;;
  st <- get ;;
  modify (set_fds (List.filter (fun d => negb (fst d =? fd)) (fds st))).

(** The capacity [getline] reports for a freshly allocated line buffer:
    room for the line and its terminating NUL. *)
Definition getline_capacity (line : string) : Z :=
  Z.of_nat (String.length line) + 1.

(** [getline(&line, &n, stdin)] with [line == nullptr]: the next line and
    the buffer capacity [n], or [None] for -1 (end of file, read error). *)
Definition getline : M Env (option (string * Z)) :=
  modify (log_syscall CallGetline) ;;
  st <- get ;;
  match stdin st with
  | [] => ret None
  | line :: rest => modify (set_stdin rest) ;; ret (Some (line, getline_capacity line))
  end.

(** Modelled from the spec: [android::base::WriteFully(1, data, len)]
    (android-base/file.h, not under src/), which "writes the buffer in
    full to standard output" unless "a non-recoverable write error
    occurs". *)
Definition WriteFully_stdout (data : string) : M Env bool :=
  modify (log_syscall (CallWrite 1)) ;;
  st <- get ;;
  if stdout_open st then modify (put_stdout (Bytes data)) ;; ret true
  else modify (set_errno Posix.EPIPE) ;; ret false.

(** ** The archive parser, at its interface

    Modelled from the spec: the parser of ziparchive/zip_archive.h, which
    is not under src/.  It offers: "start iteration; fetch next entry
    (name + metadata); extract entry to a writable file descriptor;
    extract entry to an in-memory buffer", and per entry the metadata
    listed in the data model. *)

Record tm : Type := mkTm {
  tm_year : Z; tm_mon : Z; tm_mday : Z; tm_hour : Z; tm_min : Z;
}.

Record ZipEntry : Type := mkZipEntry {
  method : Z;
  modification_time : tm;        (* what GetModificationTime() returns *)
  has_data_descriptor : bool;
  crc32 : Z;
  compressed_length : Z;         (* uint32_t *)
  uncompressed_length : Z;       (* uint32_t *)
  version_made_by : Z;
  unix_mode : Z;
  is_text : bool;
}.

Definition kCompressStored : Z := 0.
Definition kIterationEnd : Z := -1.

(** Modelled from the spec: an opened archive (a [ZipArchiveHandle]), as
    the tool observes it: the entries [Next] yields in order, each with
    status 0; the status of [StartIteration]; the negative status of the
    [Next] call that ends the iteration (-1 for "no more entries", any
    other for a fault); for every entry the status and the bytes its
    extraction produces; and what [GetArchiveInfo] reports. *)
Record ZipArchive : Type := mkZipArchive {
  entries : list (ZipEntry * string);
  iteration_start : Z;
  iteration_end : Z;
  iteration_end_negative : (iteration_end <? 0) = true;
  extract : ZipEntry -> Z * string;
  archive_size : Z;
  entry_count : Z;
}.

(** The file system once the file at [file] holds [data].  The permission
    bits stay as they are: that a write by a process without the
    privilege clears the set-user-ID and set-group-ID bits is not
    rendered. *)
Definition write_file (f : Posix.FileSystem) (file : list string) (data : string)
  : Posix.FileSystem :=
  match Posix.nodes f !! file with
  | Some (Posix.Regular perm _) =>
      Posix.with_nodes f (<[file := Posix.Regular perm data]> (Posix.nodes f))
  | _ => f
  end.

Definition lookup_fd (fd : Z) (table : list (Z * list string)) : option (list string) :=
  match List.find (fun d => fst d =? fd) table with
  | Some d => Some (snd d)
  | None => None
  end.

Definition kIoError : Z := -11.

(** Modelled from the spec: [ExtractEntryToFile(zah, &entry, fd)],
    "extract entry to a writable file descriptor": the file behind [fd]
    receives the bytes the parser produces for the entry, and the status
    of the extraction is returned. *)
Definition ExtractEntryToFile (zah : ZipArchive) (entry : ZipEntry) (fd : Z) : M Env Z :=
  modify (log_syscall (CallExtractEntryToFile fd)) ;;
  st <- get ;;
  match lookup_fd fd (fds st) with
  | None => modify (set_errno Posix.EBADF) ;; ret kIoError
  | Some file =>
      let (status, data) := extract zah entry in
      modify (set_fs (write_file (fs st) file data)) ;;
      ret status
  end.

(** Modelled from the spec: [ExtractToMemory(zah, &entry, buffer, size)],
    "extract entry to an in-memory buffer": the status and the buffer. *)
Definition ExtractToMemory (zah : ZipArchive) (entry : ZipEntry) : M Env (Z * string) :=
  modify (log_syscall CallExtractToMemory) ;;
  ret (extract zah entry).

(** ** The globals set by option parsing *)

Record Flags : Type := mkFlags {
  is_unzip : bool;
  flag_1 : bool;
  flag_d : option string;
  flag_l : bool;
  flag_p : bool;
  flag_q : bool;
  flag_v : bool;
  flag_x : bool;
  archive_name : option string;
  includes : gset string;
  excludes : gset string;
}.

Definition set_flag_x (b : bool) (c : Flags) : Flags :=
  mkFlags (is_unzip c) (flag_1 c) (flag_d c) (flag_l c) (flag_p c) (flag_q c)
          (flag_v c) b (archive_name c) (includes c) (excludes c).
Definition set_archive_name (a : string) (c : Flags) : Flags :=
  mkFlags (is_unzip c) (flag_1 c) (flag_d c) (flag_l c) (flag_p c) (flag_q c)
          (flag_v c) (flag_x c) (Some a) (includes c) (excludes c).
Definition set_includes (s : gset string) (c : Flags) : Flags :=
  mkFlags (is_unzip c) (flag_1 c) (flag_d c) (flag_l c) (flag_p c) (flag_q c)
          (flag_v c) (flag_x c) (archive_name c) s (excludes c).
Definition set_excludes (s : gset string) (c : Flags) : Flags :=
  mkFlags (is_unzip c) (flag_1 c) (flag_d c) (flag_l c) (flag_p c) (flag_q c)
          (flag_v c) (flag_x c) (archive_name c) (includes c) s.

Definition EXIT_SUCCESS : Z := 0.
Definition EXIT_FAILURE : Z := 1.

(** ShowHelp (unzip.cpp:335-366) always ends the process; the usage text
    it prints on the way is not part of the model. *)
Definition ShowHelp (full : bool) : M Flags unit :=
  if negb full then exit EXIT_FAILURE else exit EXIT_SUCCESS.

(** HandleCommonOption (unzip.cpp:368-391); [opt] is the option character
    (1 for a positional argument) and [optarg] its argument. *)
Definition HandleCommonOption (opt : Z) (optarg : string) : M Flags unit :=
  if opt =? 104 (* 'h' *) then ShowHelp true
  else if opt =? 120 (* 'x' *) then modify (set_flag_x true)
  else if opt =? 1 then
    c <- get ;;
    match archive_name c with
    | None => modify (set_archive_name optarg)
    | Some _ =>
        if flag_x c then modify (set_excludes ({[ optarg ]} ∪ excludes c))
        else modify (set_includes ({[ optarg ]} ∪ includes c))
    end
  else ShowHelp false.

(** The positional arguments of a command line, handed over in order. *)
Fixpoint HandlePositionals (args : list string) : M Flags unit :=
  match args with
  | [] => ret tt
  | a :: rest => HandleCommonOption 1 a ;; HandlePositionals rest
  end.

(** ** The program *)

Definition LF : string := String (ascii_of_nat 10) EmptyString.
Definition PRId64 : string := "ld".

Definition time_format : string := "%04d-%02d-%02d %02d:%02d".

(** The arguments of the [snprintf] call that renders a modification time. *)
Definition time_args (t : tm) : list Z :=
  [tm_year t + 1900; tm_mon t + 1; tm_mday t; tm_hour t; tm_min t].

Section Program.

(** [fnmatch(pattern, string, flags)]: 0 on a match. *)
Variable fnmatch : string -> string -> Z -> Z.

(** The flags, archive name and pattern sets once [main] has parsed them. *)
Variable cfg : Flags.

(** ShouldInclude (unzip.cpp:59-75).  The loops over a [std::set] visit
    its elements in ascending order; [elements] lists them in an order of
    its own, and each loop only asks whether some element matches. *)
Definition ShouldInclude (name : string) : bool :=
  if negb (bool_decide (excludes cfg = ∅))
     && existsb (fun exclude => fnmatch (c_str exclude) (c_str name) 0 =? 0)
                (elements (excludes cfg))
  then false
  else if bool_decide (includes cfg = ∅) then true
  else existsb (fun include => fnmatch (c_str include) (c_str name) 0 =? 0)
               (elements (includes cfg)).

(** MakeDirectoryHierarchy (unzip.cpp:77-87).  The recursion of the
    source is bounded here by [fuel]; [Diverge] stands for a recursion
    that would not return. *)
Fixpoint MakeDirectoryHierarchy_rec (fuel : nat) (path : string) : M Env bool :=
  match fuel with
  | O => diverge
  | S fuel' =>
      sb <- stat (c_str path) ;;
      if match sb with Some st_mode => Posix.S_ISDIR st_mode | None => false end
      then ret true
      else
        parent_ok <- MakeDirectoryHierarchy_rec fuel' (Dirname path) ;;
        if negb parent_ok then ret false
        else
          r <- mkdir (c_str path) 511 (* 0777 *) ;;
          ret (negb (r =? -1))
  end.

(** Every [Dirname] step shortens a path until it is [.] or [/], so this
    much fuel is never used up unless the recursion has reached one of
    those two and it is not a directory. *)
Definition MakeDirectoryHierarchy (path : string) : M Env bool :=
  MakeDirectoryHierarchy_rec (S (S (String.length path))) path.

Definition archive_name_str : string := default "" (archive_name cfg).

(** MaybeShowHeader (unzip.cpp:94-116). *)
Definition MaybeShowHeader (zah : ZipArchive) : M Env unit :=
  if is_unzip cfg then
    (if negb (flag_q cfg) then printf ("Archive:  %s" +:+ LF) [AStr archive_name_str]
     else ret tt) ;;
    if flag_v cfg then
      printf (" Length   Method    Size  Cmpr    Date    Time   CRC-32   Name" +:+ LF +:+
              "--------  ------  ------- ---- ---------- ----- --------  ----" +:+ LF) []
    else if flag_l cfg then
      printf ("  Length      Date    Time    Name" +:+ LF +:+
              "---------  ---------- -----   ----" +:+ LF) []
    else ret tt
  else
    if negb (flag_1 cfg) && bool_decide (includes cfg = ∅)
       && bool_decide (excludes cfg = ∅)
    then
      printf ("Archive:  %s" +:+ LF) [AStr archive_name_str] ;;
      printf ("Zip file size: %" +:+ PRId64 +:+ " bytes, number of entries: %zu" +:+ LF)
             [AInt (archive_size zah); AInt (entry_count zah)]
    else ret tt.

(** PromptOverwrite (unzip.cpp:142-170).  Every turn of the loop reads a
    line, so [fuel] beyond the number of lines left is never used up. *)
Fixpoint PromptOverwrite_loop (fuel : nat) : M Env bool :=
  match fuel with
  | O => diverge
  | S fuel' =>
      r <- getline ;;
      match r with
      | None =>
          error 1 0 "(EOF/read error; assuming [N]one...)" [] ;;
          modify (set_overwrite_mode kNever) ;;
          ret false
      | Some (line, n) =>
          if n =? 0 then PromptOverwrite_loop fuel'
          else
            let cmd := first_char line in
            if Ascii.eqb cmd "y" then ret true
            else if Ascii.eqb cmd "n" then ret false
            else if Ascii.eqb cmd "A" then
              modify (set_overwrite_mode kAlways) ;; ret true
            else if Ascii.eqb cmd "N" then
              modify (set_overwrite_mode kNever) ;; ret false
            else PromptOverwrite_loop fuel'
      end
  end.

Definition PromptOverwrite (dst : string) : M Env bool :=
  printf "replace %s? [y]es, [n]o, [A]ll, [N]one: " [AStr (c_str dst)] ;;
  fflush_stdout ;;
  st <- get ;;
  PromptOverwrite_loop (S (List.length (stdin st))).

(** ExtractToPipe (unzip.cpp:172-184). *)
Definition ExtractToPipe (zah : ZipArchive) (entry : ZipEntry) (name : string)
  : M Env unit :=
  r <- ExtractToMemory zah entry ;;
  let (err, buffer) := r in
  (if err <? 0
   then error 1 0 "failed to extract %s: %s" [AStr (c_str name); AErrorCodeString err]
   else ret tt) ;;
  ok <- WriteFully_stdout buffer ;;
  if negb ok then
    st <- get ;;
    error 1 (errno st) "failed to write %s to stdout" [AStr (c_str name)]
  else ret tt.

(** The two flag words ExtractOne passes to [open]. *)
Definition create_exclusive : Z :=
  Z.lor (Z.lor (Z.lor Posix.O_CREAT Posix.O_WRONLY) Posix.O_CLOEXEC) Posix.O_EXCL.
Definition create_truncate : Z :=
  Z.lor (Z.lor (Z.lor Posix.O_WRONLY Posix.O_CREAT) Posix.O_CLOEXEC) Posix.O_TRUNC.

(** The path shown to the user: the -d directory, a slash, the name. *)
Definition display_path (name : string) : string :=
  match flag_d cfg with
  | Some d => (if Base.EndsWith (c_str d) "/" then c_str d else c_str d +:+ "/") +:+ name
  | None => name
  end.

(** The test of unzip.cpp:188-189. *)
Definition bad_filename (name : string) : bool :=
  Base.StartsWith name "/" || Base.StartsWith name "../"
  || match find name "/../" with Some _ => true | None => false end.

(** unzip.cpp:229-233: extraction into the open descriptor. *)
Definition ExtractOne_write (zah : ZipArchive) (entry : ZipEntry) (dst : string)
  (fd : Z) : M Env unit :=
  (if negb (flag_q cfg) then printf ("  inflating: %s" +:+ LF) [AStr (c_str dst)]
   else ret tt) ;;
  err <- ExtractEntryToFile zah entry fd ;;
  (if err <? 0
   then error 1 0 "failed to extract %s: %s" [AStr (c_str dst); AErrorCodeString err]
   else ret tt) ;;
  close fd.

(** unzip.cpp:225-233: the second [open] (or none), then extraction. *)
Definition ExtractOne_open (zah : ZipArchive) (entry : ZipEntry) (name dst : string)
  (reopen : bool) (fd : Z) : M Env unit :=
  fd <- (if reopen then open (c_str name) create_truncate (unix_mode entry)
         else ret fd) ;;
  (if fd =? -1 then
     st <- get ;;
     error 1 (errno st) "couldn't create file %s" [AStr (c_str dst)]
   else ret tt) ;;
  ExtractOne_write zah entry dst fd.

(** unzip.cpp:207-217: an entry that is a directory itself. *)
Definition ExtractOne_directory (entry : ZipEntry) (name dst : string) : M Env unit :=
  r <- mkdir (c_str name) (unix_mode entry) ;;
  if r =? -1 then
    st <- get ;;
    exists_as_directory <-
      (if errno st =? Posix.EEXIST then
         sb <- stat (c_str name) ;;
         ret match sb with Some st_mode => Posix.S_ISDIR st_mode | None => false end
       else ret false) ;;
    if exists_as_directory then ret tt
    else
      st <- get ;;
      error 1 (errno st) "couldn't extract directory %s" [AStr (c_str dst)]
  else ret tt.

(** unzip.cpp:219-233: an entry that is a file. *)
Definition ExtractOne_file (zah : ZipArchive) (entry : ZipEntry) (name dst : string)
  : M Env unit :=
  fd <- open (c_str name) create_exclusive (unix_mode entry) ;;
  st <- get ;;
  if (fd =? -1) && (errno st =? Posix.EEXIST) then
    match overwrite_mode st with
    | kNever => ret tt
    | kPrompt =>
        yes <- PromptOverwrite dst ;;
        if negb yes then ret tt
        else ExtractOne_open zah entry name dst true fd
    | kAlways => ExtractOne_open zah entry name dst true fd
    end
  else ExtractOne_open zah entry name dst false fd.

(** unzip.cpp:193-233: what ExtractOne does with a name that passed the
    filename test. *)
Definition ExtractOne_checked (zah : ZipArchive) (entry : ZipEntry) (name : string)
  : M Env unit :=
  let dst := display_path name in
  ok <- MakeDirectoryHierarchy (Dirname name) ;;
  (if negb ok then
     st <- get ;;
     error 1 (errno st) "couldn't create directory hierarchy for %s" [AStr (c_str dst)]
   else ret tt) ;;
  if Base.EndsWith name "/" then ExtractOne_directory entry name dst
  else ExtractOne_file zah entry name dst.

(** ExtractOne (unzip.cpp:186-234). *)
Definition ExtractOne (zah : ZipArchive) (entry : ZipEntry) (name : string)
  : M Env unit :=
  (if bad_filename name then error 1 0 "bad filename %s" [AStr (c_str name)]
   else ret tt) ;;
  ExtractOne_checked zah entry name.

(** ListOne (unzip.cpp:236-249). *)
Definition ListOne (entry : ZipEntry) (name : string) : M Env unit :=
  let t := modification_time entry in
  if flag_v cfg then
    printf ("%8d  %s  %7d %3d%% %s %08x  %s" +:+ LF)
      [AInt (uncompressed_length entry);
       AStr (if method entry =? kCompressStored then "Stored" else "Defl:N");
       AInt (compressed_length entry);
       AInt (CompressionRatio (uncompressed_length entry) (compressed_length entry));
       ASnprintf time_format (time_args t); AInt (crc32 entry); AStr (c_str name)]
  else
    printf ("%9d  %s   %s" +:+ LF)
      [AInt (uncompressed_length entry); ASnprintf time_format (time_args t);
       AStr (c_str name)].

(** The ten characters InfoOne shows for a mode (unzip.cpp:262-274). *)
Definition mode_string (os mode : Z) : string :=
  if os =? 3 then
    let bit (mask : Z) (c : ascii) : ascii :=
      if negb (Z.land mode mask =? 0) then c else "-"%char in
    String (if Posix.S_ISDIR mode then "d"%char
            else if Posix.S_ISREG mode then "-"%char else "?"%char)
   (String (bit Posix.S_IRUSR "r"%char)
   (String (bit Posix.S_IWUSR "w"%char)
   (String (bit Posix.S_IXUSR "x"%char)
   (String (bit Posix.S_IRGRP "r"%char)
   (String (bit Posix.S_IWGRP "w"%char)
   (String (bit Posix.S_IXGRP "x"%char)
   (String (bit Posix.S_IROTH "r"%char)
   (String (bit Posix.S_IWOTH "w"%char)
   (String (bit Posix.S_IXOTH "x"%char) EmptyString)))))))))
  else "??????????".

(** InfoOne (unzip.cpp:251-288). *)
Definition InfoOne (entry : ZipEntry) (name : string) : M Env unit :=
  if flag_1 cfg then printf ("%s" +:+ LF) [AStr (c_str name)]
  else
    let version := Z.land (version_made_by entry) 255 in
    let os := Z.land (Z.shiftr (version_made_by entry) 8) 255 in
    let t := modification_time entry in
    printf ("%s %2d.%d %s %8d %c%c %s %s %s" +:+ LF)
      [AStr (mode_string os (unix_mode entry));
       AInt (Z.quot version 10); AInt (Z.rem version 10);
       AStr (if os =? 3 then "unx" else "???");
       AInt (uncompressed_length entry);
       AChar (if is_text entry then "t"%char else "b"%char);
       AChar (if has_data_descriptor entry then "X"%char else "x"%char);
       AStr (if method entry =? kCompressStored then "stor" else "defX");
       ASnprintf time_format (time_args t);
       AStr (c_str name)].

(** *** The iteration driver

    The driver owns the running totals and the iteration cursor; the
    functions above never touch them, so they run on the [env] part. *)

Inductive ParserCall : Type :=
  | CallStartIteration
  | CallNext
  | CallEndIteration.

Record Run : Type := mkRun {
  env : Env;
  total_uncompressed_length : Z;   (* uint64_t *)
  total_compressed_length : Z;     (* uint64_t *)
  file_count : Z;                  (* size_t *)
  parser_calls : list ParserCall;
}.

Definition set_env (e : Env) (r : Run) : Run :=
  mkRun e (total_uncompressed_length r) (total_compressed_length r) (file_count r)
        (parser_calls r).
Definition log_parser (c : ParserCall) (r : Run) : Run :=
  mkRun (env r) (total_uncompressed_length r) (total_compressed_length r)
        (file_count r) (parser_calls r ++ [c]).
Definition count_entry (entry : ZipEntry) (r : Run) : Run :=
  mkRun (env r)
        (Int.to_uint64 (total_uncompressed_length r + uncompressed_length entry))
        (Int.to_uint64 (total_compressed_length r + compressed_length entry))
        (Int.to_size_t (file_count r + 1))
        (parser_calls r).

Definition on_env {A : Type} (m : M Env A) : M Run A :=
  fun r => let (o, e) := m (env r) in (o, set_env e r).

(** MaybeShowFooter (unzip.cpp:118-140). *)
Definition MaybeShowFooter : M Run unit :=
  r <- get ;;
  let plural := if file_count r =? 1 then "" else "s" in
  let ratio := CompressionRatio (Int.to_int64 (total_uncompressed_length r))
                                (Int.to_int64 (total_compressed_length r)) in
  if is_unzip cfg then
    if flag_v cfg then
      on_env (printf
        ("--------          -------  ---                            -------" +:+ LF +:+
         "%8" +:+ PRId64 +:+ "         %8" +:+ PRId64 +:+
         " %3d%%                            %zu file%s" +:+ LF)
        [AInt (Int.to_int64 (total_uncompressed_length r));
         AInt (Int.to_int64 (total_compressed_length r));
         AInt ratio; AInt (file_count r); AStr plural])
    else if flag_l cfg then
      on_env (printf
        ("---------                     -------" +:+ LF +:+
         "%9" +:+ PRId64 +:+ "                     %zu file%s" +:+ LF)
        [AInt (Int.to_int64 (total_uncompressed_length r)); AInt (file_count r);
         AStr plural])
    else ret tt
  else
    if negb (flag_1 cfg) && bool_decide (includes cfg = ∅)
       && bool_decide (excludes cfg = ∅)
    then
      on_env (printf
        ("%zu files, %" +:+ PRId64 +:+ " bytes uncompressed, %" +:+ PRId64 +:+
         " bytes compressed: %3d%%" +:+ LF)
        [AInt (file_count r); AInt (Int.to_int64 (total_uncompressed_length r));
         AInt (Int.to_int64 (total_compressed_length r)); AInt ratio])
    else ret tt.

(** ProcessOne (unzip.cpp:290-310). *)
Definition ProcessOne (zah : ZipArchive) (entry : ZipEntry) (name : string)
  : M Run unit :=
  (if is_unzip cfg then
     if flag_l cfg || flag_v cfg then on_env (ListOne entry name)
     else if flag_p cfg then on_env (ExtractToPipe zah entry name)
     else on_env (ExtractOne zah entry name)
   else on_env (InfoOne entry name)) ;;
  modify (count_entry entry).

(** The [while] loop of ProcessAll (unzip.cpp:325-327) over the entries
    [Next] has yet to yield; it returns the status that ended it. *)
Fixpoint ProcessAll_loop (zah : ZipArchive) (pending : list (ZipEntry * string))
  : M Run Z :=
  modify (log_parser CallNext) ;;
  match pending with
  | [] => ret (iteration_end zah)
  | (entry, name) :: rest =>
      (if ShouldInclude name then ProcessOne zah entry name else ret tt) ;;
      ProcessAll_loop zah rest
  end.

(** ProcessAll (unzip.cpp:312-333). *)
Definition ProcessAll (zah : ZipArchive) : M Run unit :=
  on_env (MaybeShowHeader zah) ;;
  modify (log_parser CallStartIteration) ;;
  (if negb (iteration_start zah =? 0) then
     on_env (error 1 0 "couldn't iterate %s: %s"
               [AStr archive_name_str; AErrorCodeString (iteration_start zah)])
   else ret tt) ;;
  err <- ProcessAll_loop zah (entries zah) ;;
  (if err <? -1 then
     on_env (error 1 0 "failed iterating %s: %s"
               [AStr archive_name_str; AErrorCodeString err])
   else ret tt) ;;
  modify (log_parser CallEndIteration) ;;
  MaybeShowFooter.

End Program.

(** ** main (unzip.cpp:393-461)

    The option globals start out zeroed, with the overwrite mode at
    Prompt.  [main] first sets them from the command line, then opens the
    archive, changes into the -d directory and hands over to ProcessAll. *)

Definition set_is_unzip (b : bool) (c : Flags) : Flags :=
  mkFlags b (flag_1 c) (flag_d c) (flag_l c) (flag_p c) (flag_q c)
          (flag_v c) (flag_x c) (archive_name c) (includes c) (excludes c).
Definition set_flag_1 (b : bool) (c : Flags) : Flags :=
  mkFlags (is_unzip c) b (flag_d c) (flag_l c) (flag_p c) (flag_q c)
          (flag_v c) (flag_x c) (archive_name c) (includes c) (excludes c).
Definition set_flag_d (d : string) (c : Flags) : Flags :=
  mkFlags (is_unzip c) (flag_1 c) (Some d) (flag_l c) (flag_p c) (flag_q c)
          (flag_v c) (flag_x c) (archive_name c) (includes c) (excludes c).
Definition set_flag_l (b : bool) (c : Flags) : Flags :=
  mkFlags (is_unzip c) (flag_1 c) (flag_d c) b (flag_p c) (flag_q c)
          (flag_v c) (flag_x c) (archive_name c) (includes c) (excludes c).
Definition set_flag_p (b : bool) (c : Flags) : Flags :=
  mkFlags (is_unzip c) (flag_1 c) (flag_d c) (flag_l c) b (flag_q c)
          (flag_v c) (flag_x c) (archive_name c) (includes c) (excludes c).
Definition set_flag_q (b : bool) (c : Flags) : Flags :=
  mkFlags (is_unzip c) (flag_1 c) (flag_d c) (flag_l c) (flag_p c) b
          (flag_v c) (flag_x c) (archive_name c) (includes c) (excludes c).
Definition set_flag_v (b : bool) (c : Flags) : Flags :=
  mkFlags (is_unzip c) (flag_1 c) (flag_d c) (flag_l c) (flag_p c) (flag_q c)
          b (flag_x c) (archive_name c) (includes c) (excludes c).

(** The globals of unzip.cpp:43-54 as the program starts. *)
Definition initial_flags : Flags :=
  mkFlags false false None false false false false false None ∅ ∅.

(** [chdir]: the path has to denote a directory, which becomes the
    working directory. *)
Definition chdir_model (f : Posix.FileSystem) (path : string) : Z + Posix.FileSystem :=
  match Posix.resolve f path with
  | inl e => inl e
  | inr p =>
      match Posix.nodes f !! p with
      | None => inl Posix.ENOENT
      | Some (Posix.Regular _ _) => inl Posix.ENOTDIR
      | Some (Posix.Directory _) => inr (Posix.mkFS (Posix.nodes f) p (Posix.umask f))
      end
  end.

Definition chdir (path : string) : M Env Z :=
  st <- get ;;
  match chdir_model (fs st) path with
  | inr f' => modify (set_fs f') ;; ret 0
  | inl e => modify (set_errno e) ;; ret (-1)
  end.

(** What [main] itself calls, besides the option parser. *)
Inductive MainCall : Type :=
  | CallOpenArchive (name : string)
  | CallChdir (path : string)
  | CallCloseArchive.

(** The whole process: the option globals, the state of the run, and the
    calls of [main]. *)
Record Process : Type := mkProcess {
  globals : Flags;
  run : Run;
  main_calls : list MainCall;
}.

Definition set_globals (c : Flags) (p : Process) : Process :=
  mkProcess c (run p) (main_calls p).
Definition set_run (r : Run) (p : Process) : Process :=
  mkProcess (globals p) r (main_calls p).
Definition log_main (c : MainCall) (p : Process) : Process :=
  mkProcess (globals p) (run p) (main_calls p ++ [c]).

Definition on_globals {A : Type} (m : M Flags A) : M Process A :=
  fun p => let (o, c) := m (globals p) in (o, set_globals c p).

Definition on_run {A : Type} (m : M Run A) : M Process A :=
  fun p => let (o, r) := m (run p) in (o, set_run r p).

(** The body of the [switch] in the unzip loop (unzip.cpp:402-427). *)
Definition unzip_option (opt : Z) (optarg : string) : M Process unit :=
  if opt =? 100 (* 'd' *) then on_globals (modify (set_flag_d optarg))
  else if opt =? 108 (* 'l' *) then on_globals (modify (set_flag_l true))
  else if opt =? 110 (* 'n' *) then
    on_run (on_env (modify (set_overwrite_mode kNever)))
  else if opt =? 111 (* 'o' *) then
    on_run (on_env (modify (set_overwrite_mode kAlways)))
  else if opt =? 112 (* 'p' *) then
    on_globals (modify (set_flag_q true) ;; modify (set_flag_p true))
  else if opt =? 113 (* 'q' *) then on_globals (modify (set_flag_q true))
  else if opt =? 118 (* 'v' *) then on_globals (modify (set_flag_v true))
  else on_globals (HandleCommonOption opt optarg).

(** The body of the [switch] in the zipinfo loop (unzip.cpp:432-439). *)
Definition zipinfo_option (opt : Z) (optarg : string) : M Process unit :=
  if opt =? 49 (* '1' *) then on_globals (modify (set_flag_1 true))
  else on_globals (HandleCommonOption opt optarg).

(** The [while] loops over [getopt_long], which is taken at its interface:
    [returned] lists what its calls return before the -1 that ends the
    loop, each option character with the [optarg] that goes with it.  With
    the leading [-] of the option string, an argument that is no option
    comes back as option 1; an option the string does not name comes back
    as [?]. *)
Fixpoint option_loop (handle : Z -> string -> M Process unit)
  (returned : list (Z * string)) : M Process unit :=
  match returned with
  | [] => ret tt
  | (opt, optarg) :: rest => handle opt optarg ;; option_loop handle rest
  end.

(** The first part of [main] (unzip.cpp:398-441): the tool is unzip when
    it is called by that name and zipinfo otherwise, and the options are
    handled by the loop of the one or of the other.  [program] is what
    [basename(argv[0])] returns. *)
Definition ParseOptions (program : string) (returned : list (Z * string))
  : M Process unit :=
  on_globals (modify (set_is_unzip (String.eqb (c_str program) "unzip"))) ;;
  p <- get ;;
  if is_unzip (globals p) then option_loop unzip_option returned
  else option_loop zipinfo_option returned.

(** The second part of [main] (unzip.cpp:443-460).  [OpenArchive] gives,
    for an archive name, the status of opening it and the handle. *)
Definition RunArchive (fnmatch : string -> string -> Z -> Z)
  (OpenArchive : string -> Z * ZipArchive) : M Process Z :=
  p <- get ;;
  let cfg := globals p in
  (match archive_name cfg with
   | None => on_run (on_env (error 1 0 "missing archive filename" []))
   | Some _ => ret tt
   end) ;;
  modify (log_main (CallOpenArchive (archive_name_str cfg))) ;;
  let (err, zah) := OpenArchive (archive_name_str cfg) in
  (if negb (err =? 0) then
     on_run (on_env (error 1 0 "couldn't open %s: %s"
                       [AStr (archive_name_str cfg); AErrorCodeString err]))
   else ret tt) ;;
  (match flag_d cfg with
   | Some d =>
       modify (log_main (CallChdir d)) ;;
       r <- on_run (on_env (chdir d)) ;;
       if r =? -1 then
         p' <- get ;;
         on_run (on_env (error 1 (errno (env (run p'))) "couldn't chdir to %s" [AStr d]))
       else ret tt
   | None => ret tt
   end) ;;
  on_run (ProcessAll fnmatch cfg zah) ;;
  modify (log_main CallCloseArchive) ;;
  ret 0.

(** main (unzip.cpp:393-461). *)
Definition main (fnmatch : string -> string -> Z -> Z)
  (OpenArchive : string -> Z * ZipArchive) (program : string)
  (returned : list (Z * string)) : M Process Z :=
  ParseOptions program returned ;;
  RunArchive fnmatch OpenArchive.

(** ** A concrete matcher and concrete inputs, for running the model *)

(** A matcher for patterns made of literal bytes, [?] and [*]. *)
Fixpoint glob (pattern text : list ascii) : bool :=
  match pattern with
  | [] => match text with [] => true | _ => false end
  | p :: pattern' =>
      if Ascii.eqb p "*" then
        (fix star (t : list ascii) : bool :=
           glob pattern' t
           || match t with [] => false | _ :: t' => star t' end) text
      else
        match text with
        | [] => false
        | c :: text' => (Ascii.eqb p "?" || Ascii.eqb p c) && glob pattern' text'
        end
  end.

Definition FNM_NOMATCH : Z := 1.

Definition simple_fnmatch (pattern text : string) (flags : Z) : Z :=
  if glob (list_ascii_of_string pattern) (list_ascii_of_string text) then 0
  else FNM_NOMATCH.

(** A working directory [/work] with nothing in it, umask 022. *)
Definition work_fs : Posix.FileSystem :=
  Posix.mkFS (<[ ["work"] := Posix.Directory 493 ]> (<[ [] := Posix.Directory 493 ]> ∅))
             ["work"] 18.

(** A process about to run on file system [f] with [input] on standard
    input. *)
Definition start_env (mode : OverwriteMode) (f : Posix.FileSystem) (input : list string)
  : Env :=
  mkEnv mode 0 f [] input [] true [] [].

Definition unzip_flags : Flags :=
  mkFlags true false None false false false false false (Some "a.zip") ∅ ∅.

Definition zipinfo_flags (incl excl : gset string) : Flags :=
  mkFlags false false None false false false false false (Some "a.zip") incl excl.

(** A deflated file entry of a Unix host: mode 0100644. *)
Definition file_entry (uncompressed compressed : Z) : ZipEntry :=
  mkZipEntry 8 (mkTm 119 1 12 16 9) false 0 compressed uncompressed 798 33188 false.

(** A directory entry of a Unix host: mode 040755. *)
Definition dir_entry : ZipEntry :=
  mkZipEntry 0 (mkTm 119 1 12 16 9) false 0 0 0 798 16877 false.

(** An archive whose every entry extracts to the bytes [new]. *)
Definition archive_of (items : list (ZipEntry * string)) : ZipArchive :=
  mkZipArchive items 0 (-1) eq_refl (fun _ => (0, "new")) 1234
               (Z.of_nat (List.length items)).

(** A file [f] holding [old] in the working directory. *)
Definition work_fs_with_f : Posix.FileSystem :=
  Posix.with_nodes work_fs
    (<[ ["work"; "f"] := Posix.Regular 420 "old" ]> (Posix.nodes work_fs)).

(** An archive whose iteration fails at once with a fault status. *)
Definition faulty_archive : ZipArchive :=
  mkZipArchive [] 0 (-2) eq_refl (fun _ => (0, "new")) 1234 0.

Definition start_run (e : Env) : Run := mkRun e 0 0 0 [].

(** Scenario A of the specification, run as [unzip -l a.zip *.txt -x b.*]
    on an archive that holds [a.txt], [b.txt] and [c.log]. *)
Definition scenario_a_flags : Flags :=
  mkFlags true false None true false false false true (Some "a.zip")
          {[ "*.txt" ]} {[ "b.*" ]}.

Definition scenario_a_archive : ZipArchive :=
  archive_of [(file_entry 10 4, "a.txt"); (file_entry 20 5, "b.txt");
              (file_entry 30 6, "c.log")].

(** ** Notions used to state the properties *)

(** A pattern glob-matches a name when [fnmatch] returns 0 on them. *)
Definition glob_matches (fnmatch : string -> string -> Z -> Z) (pattern name : string)
  : Prop :=
  fnmatch (c_str pattern) (c_str name) 0 = 0.

(** The part of a command line that names the archive and the patterns:
    [ZIP FILE... -x FILE...]. *)
Definition pattern_arguments (zip : string) (incl excl : list string) : M Flags unit :=
  HandleCommonOption 1 zip ;;
  HandlePositionals incl ;;
  HandleCommonOption 120 "" ;;
  HandlePositionals excl.

Definition no_patterns (c : Flags) : Flags :=
  mkFlags (is_unzip c) (flag_1 c) (flag_d c) (flag_l c) (flag_p c) (flag_q c)
          (flag_v c) false None ∅ ∅.

(** The two header lines and the footer line of zipinfo. *)
Definition zipinfo_header (cfg : Flags) (zah : ZipArchive) : list Output :=
  [Printf ("Archive:  %s" +:+ LF) [AStr (archive_name_str cfg)];
   Printf ("Zip file size: %ld bytes, number of entries: %zu" +:+ LF)
          [AInt (archive_size zah); AInt (entry_count zah)]].

Definition zipinfo_footer (r : Run) : Output :=
  Printf ("%zu files, %ld bytes uncompressed, %ld bytes compressed: %3d%%" +:+ LF)
         [AInt (file_count r);
          AInt (Int.to_int64 (total_uncompressed_length r));
          AInt (Int.to_int64 (total_compressed_length r));
          AInt (CompressionRatio (Int.to_int64 (total_uncompressed_length r))
                                 (Int.to_int64 (total_compressed_length r)))].

(** [m] relates every state to the state it leaves, however it ends. *)
Definition preserves {S A : Type} (R : S -> S -> Prop) (m : M S A) : Prop :=
  forall st, R st (snd (m st)).

Definition stat_or_mkdir (c : Syscall) : Prop :=
  match c with
  | CallStat _ | CallMkdir _ _ => True
  | _ => False
  end.

(** From [st] to [st'] nothing happened but [stat] and [mkdir] calls (and
    diagnostics): the overwrite mode, the descriptors, the standard input
    and output and every regular file are as they were. *)
Record only_directories (st st' : Env) : Prop := mkOnlyDirectories {
  od_overwrite_mode : overwrite_mode st' = overwrite_mode st;
  od_fds : fds st' = fds st;
  od_stdin : stdin st' = stdin st;
  od_stdout : stdout st' = stdout st;
  od_stdout_open : stdout_open st' = stdout_open st;
  od_regular : forall p, Posix.regular_at (fs st') p = Posix.regular_at (fs st) p;
  od_syscalls : exists l, syscalls st' = (syscalls st ++ l)%list /\ Forall stat_or_mkdir l;
}.

(** Idempotence as the specification words it: a second application
    returns what the first returned and leaves the file system as the
    first left it. *)
Definition idempotent_at (path : string) (st : Env) : Prop :=
  let r1 := MakeDirectoryHierarchy path st in
  let r2 := MakeDirectoryHierarchy path (snd r1) in
  fst r2 = fst r1 /\ fs (snd r2) = fs (snd r1).

Definition begins_with (s p : string) : Prop := exists rest, s = p +:+ rest.
Definition ends_with (s x : string) : Prop := exists front, s = front +:+ x.
Definition contains (s x : string) : Prop := exists front rest, s = front +:+ x +:+ rest.

Definition syscalls_extend (st st' : Env) : Prop :=
  exists l, syscalls st' = (syscalls st ++ l)%list.

(** [m] begins with the system call [c]. *)
Definition starts_with_call {A : Type} (c : Syscall) (m : M Env A) : Prop :=
  forall st, exists l, syscalls (snd (m st)) = (syscalls st ++ c :: l)%list.

(** The text of a name before its first slash. *)
Fixpoint first_segment (s : string) : string :=
  match s with
  | EmptyString => EmptyString
  | String c s' => if Ascii.eqb c slash then EmptyString else String c (first_segment s')
  end.

(** The names the specification asks the guard to reject: those that begin
    with a slash, those whose first segment is [..], and those that hold
    [/../]. *)
Definition escapes_as_specified (name : string) : Prop :=
  begins_with name "/" \/ first_segment name = ".." \/ contains name "/../".

(** The state in which ExtractOne leaves a directory entry once its
    parent exists in [st1], or the diagnostic it dies with. *)
Definition directory_entry_outcome (cfg : Flags) (entry : ZipEntry) (name : string)
  (st1 : Env) (result : Outcome unit * Env) : Prop :=
  let st2 := log_syscall (CallMkdir (c_str name) (unix_mode entry)) st1 in
  match Posix.mkdir_model (fs st1) (c_str name) (unix_mode entry) with
  | inr f' => result = (Ret tt, set_fs f' st2)
  | inl e =>
      if (e =? Posix.EEXIST) && Posix.is_directory (fs st1) (c_str name)
      then fst result = Ret tt /\ fs (snd result) = fs st1
      else fst result = Exit 1
           /\ fs (snd result) = fs st1
           /\ exists errnum,
                stderr (snd result) =
                  (stderr st1 ++
                   [mkDiagnostic errnum "couldn't extract directory %s"
                                 [AStr (c_str (display_path cfg name))]])%list
  end.

(** The four answers the prompt accepts, as the specification lists them. *)
Inductive Answer : Type := AnswerYes | AnswerNo | AnswerAll | AnswerNone.

Definition answer_of (c : ascii) : option Answer :=
  if Ascii.eqb c "y" then Some AnswerYes
  else if Ascii.eqb c "n" then Some AnswerNo
  else if Ascii.eqb c "A" then Some AnswerAll
  else if Ascii.eqb c "N" then Some AnswerNone
  else None.

Definition overwrites (a : Answer) : bool :=
  match a with
  | AnswerYes | AnswerAll => true
  | AnswerNo | AnswerNone => false
  end.

Definition mode_after (a : Answer) (m : OverwriteMode) : OverwriteMode :=
  match a with
  | AnswerYes | AnswerNo => m
  | AnswerAll => kAlways
  | AnswerNone => kNever
  end.

(** A line the prompt does not take for an answer. *)
Definition no_answer (line : string) : Prop := answer_of (first_char line) = None.

(** The state after the question has been printed. *)
Definition prompted (dst : string) (s : Env) : Env :=
  put_stdout Fflush
    (put_stdout (Printf "replace %s? [y]es, [n]o, [A]ll, [N]one: " [AStr (c_str dst)]) s).

(** The state after [n] calls of [getline] that left [rest] unread, with
    the overwrite mode set to [mode]. *)
Definition after_getlines (n : nat) (rest : list string) (mode : OverwriteMode)
  (s : Env) : Env :=
  mkEnv mode (errno s) (fs s) (fds s) rest (stdout s) (stdout_open s) (stderr s)
        (syscalls s ++ repeat CallGetline n).

Definition eof_diagnostic : Diagnostic :=
  mkDiagnostic 0 "(EOF/read error; assuming [N]one...)" [].

(** The running totals: uncompressed bytes, compressed bytes, entries. *)
Definition totals (r : Run) : Z * Z * Z :=
  (total_uncompressed_length r, total_compressed_length r, file_count r).

(** One update of the totals, for one entry. *)
Definition add_entry (t : Z * Z * Z) (entry : ZipEntry) : Z * Z * Z :=
  let '(u, c, n) := t in
  (Int.to_uint64 (u + uncompressed_length entry),
   Int.to_uint64 (c + compressed_length entry),
   Int.to_size_t (n + 1)).

(** The entries that pass the pattern filter, in iteration order. *)
Definition accepted (fnmatch : string -> string -> Z -> Z) (cfg : Flags)
  (pending : list (ZipEntry * string)) : list (ZipEntry * string) :=
  List.filter (fun p => ShouldInclude fnmatch cfg (snd p)) pending.

(** How often the cursor has been released. *)
Definition is_end (c : ParserCall) : bool :=
  match c with CallEndIteration => true | _ => false end.

Definition released (r : Run) : nat := List.length (List.filter is_end (parser_calls r)).

(** The working directory and the root are directories. *)
Definition dirs_ok (st : Env) : Prop :=
  Posix.is_directory (fs st) "." = true /\ Posix.is_directory (fs st) "/" = true.

(** The same for the driver, whose state holds the process state. *)
Definition run_dirs_ok (r : Run) : Prop := dirs_ok (env r).

(** From a state that satisfies the invariant [I], [m] returns or ends
    the process, and leaves a state that satisfies [I]. *)
Definition returns_or_exits {S A : Type} (I : S -> Prop) (m : M S A) : Prop :=
  forall st, I st -> fst (m st) <> Diverge /\ I (snd (m st)).

(** Whenever [m] ends the process, it does so with status 1 and leaves a
    diagnostic as the last one of [err]: the exit is the one in [error]. *)
Definition exits_through_error {S A : Type} (err : S -> list Diagnostic) (m : M S A)
  : Prop :=
  forall st n,
    fst (m st) = Exit n -> n = 1 /\ exists d, last (err (snd (m st))) = Some d.



(** A process about to enter [main]. *)
Definition start_process (f : Posix.FileSystem) (input : list string) : Process :=
  mkProcess initial_flags (start_run (start_env kPrompt f input)) [].



(** A process that can look nothing up from its working directory, so
    that [stat] of [.] fails.  On Linux this is a working directory the
    process may not search; a working directory that has been removed can
    still be looked up.  The file system here has no permissions: the
    working directory is left out of the nodes, and the error code is then
    ENOENT where Linux gives EACCES.  MakeDirectoryHierarchy looks at no
    error code. *)
Definition unreachable_cwd_fs : Posix.FileSystem :=
  Posix.mkFS (<[ [] := Posix.Directory 493 ]> ∅) ["locked"] 18.

(** Path pieces put together with slashes between them: what
    [Posix.split_slash] takes apart. *)
Fixpoint join_slash (pieces : list string) : string :=
  match pieces with
  | [] => ""
  | [x] => x
  | x :: rest => x +:+ "/" +:+ join_slash rest
  end.

(** The step from [a] to [b] keeps the invariant [I]. *)
Definition keeps_invariant {S : Type} (I : S -> Prop) (a b : S) : Prop := I a -> I b.

(** The process works in the directory [c], whose parent is a directory;
    outside of [c] the file system is as [n0] has it, and every descriptor
    open for writing refers to a file inside of [c]. *)
Definition inside (c : list string) (perm : Z) (n0 : gmap (list string) Posix.inode)
  (st : Env) : Prop :=
  Posix.cwd (fs st) = c
  /\ Posix.nodes (fs st) !! removelast c = Some (Posix.Directory perm)
  /\ (forall p, ~ c `prefix_of` p -> Posix.nodes (fs st) !! p = n0 !! p)
  /\ Forall (fun d => c `prefix_of` snd d) (fds st).


Definition is_getline (call : Syscall) : bool :=
  match call with CallGetline => true | _ => false end.

(** The overwrite mode is [mode], standard input holds [input], and the
    reads from standard input so far are [reads]. *)
Definition unprompted (mode : OverwriteMode) (input : list string) (reads : list Syscall)
  (st : Env) : Prop :=
  overwrite_mode st = mode /\ stdin st = input
  /\ List.filter is_getline (syscalls st) = reads.

(** The overwrite mode is Never, every node of [n0] is in the file system
    as [n0] has it, and no descriptor open for writing refers to one. *)
Definition never_kept (n0 : gmap (list string) Posix.inode) (st : Env) : Prop :=
  overwrite_mode st = kNever
  /\ (forall p i, n0 !! p = Some i -> Posix.nodes (fs st) !! p = Some i)
  /\ Forall (fun d => n0 !! snd d = None) (fds st).

(** From [a] to [b] the table of descriptors open for writing has not
    changed. *)
Definition same_fds (a b : Env) : Prop := fds b = fds a.

(** From [a] to [b] nothing happened but output: the file system, the
    descriptors, the overwrite mode, standard input and the log of system
    calls are as they were. *)
Definition only_output (a b : Env) : Prop :=
  fs b = fs a /\ fds b = fds a /\ overwrite_mode b = overwrite_mode a
  /\ stdin b = stdin a /\ syscalls b = syscalls a /\ errno b = errno a.

(** The line zipinfo -1 prints for an entry. *)
Definition name_line (p : ZipEntry * string) : Output :=
  Printf ("%s" +:+ LF) [AStr (c_str (snd p))].

(** The row zipinfo prints for an entry when -1 is not given
    (unzip.cpp:258-287). *)
Definition info_row (p : ZipEntry * string) : Output :=
  let entry := fst p in
  let version := Z.land (version_made_by entry) 255 in
  let os := Z.land (Z.shiftr (version_made_by entry) 8) 255 in
  Printf ("%s %2d.%d %s %8d %c%c %s %s %s" +:+ LF)
    [AStr (mode_string os (unix_mode entry));
     AInt (Z.quot version 10); AInt (Z.rem version 10);
     AStr (if os =? 3 then "unx" else "???");
     AInt (uncompressed_length entry);
     AChar (if is_text entry then "t"%char else "b"%char);
     AChar (if has_data_descriptor entry then "X"%char else "x"%char);
     AStr (if method entry =? kCompressStored then "stor" else "defX");
     ASnprintf time_format (time_args (modification_time entry));
     AStr (c_str (snd p))].

(** What unzip -p writes for a list of entries: the bytes of each, up to
    the first one that the parser fails to extract. *)
Fixpoint piped (zah : ZipArchive) (l : list (ZipEntry * string)) : list Output :=
  match l with
  | [] => []
  | (entry, _) :: rest =>
      if fst (extract zah entry) <? 0 then []
      else Bytes (snd (extract zah entry)) :: piped zah rest
  end.

(** Every entry of the list extracts without an error. *)
Definition all_extract (zah : ZipArchive) (l : list (ZipEntry * string)) : Prop :=
  Forall (fun p => (fst (extract zah (fst p)) <? 0) = false) l.

(** An archive whose second entry cannot be extracted. *)
Definition damaged_archive : ZipArchive :=
  mkZipArchive [(file_entry 3 3, "a"); (file_entry 4 4, "b"); (file_entry 5 5, "c")]
               0 (-1) eq_refl
               (fun e => if uncompressed_length e =? 4 then (-9, "") else (0, "data"))
               1234 3.

Definition pipe_flags : Flags :=
  mkFlags true false None false true true false false (Some "a.zip") ∅ ∅.

Definition names_flags : Flags :=
  mkFlags false true None false false false false true (Some "a.zip") ∅ {[ "b*" ]}.

(** Whether a computation returned. *)
Definition is_ret {A : Type} (o : Outcome A) : bool :=
  match o with Ret _ => true | _ => false end.

(** The option characters the two loops of [main] handle without ending
    the process: [d l n o p q v x] and 1 for unzip, [1 x] and 1 for
    zipinfo. *)
Definition unzip_known (opt : Z) : bool :=
  existsb (Z.eqb opt) [100; 108; 110; 111; 112; 113; 118; 120; 1].

Definition zipinfo_known (opt : Z) : bool := existsb (Z.eqb opt) [49; 120; 1].

Definition known (unzip : bool) (o : Z * string) : bool :=
  if unzip then unzip_known (fst o) else zipinfo_known (fst o).

Definition handler (unzip : bool) : Z -> string -> M Process unit :=
  if unzip then unzip_option else zipinfo_option.

(** From [p] to [p'] nothing happened to the run but that the overwrite
    mode may have been set, and [main] called nothing. *)
Definition parsing (p p' : Process) : Prop :=
  main_calls p' = main_calls p
  /\ exists mode, run p' = set_env (set_overwrite_mode mode (env (run p))) (run p).

(** The arguments of a command line that are no options, in order. *)
Definition positionals (returned : list (Z * string)) : list string :=
  List.map snd (List.filter (fun o => fst o =? 1) returned).

(** A command line up to its first -x, and from there on. *)
Fixpoint until_x (returned : list (Z * string)) : list (Z * string) :=
  match returned with
  | [] => []
  | o :: rest => if fst o =? 120 then [] else o :: until_x rest
  end.

Fixpoint from_x (returned : list (Z * string)) : list (Z * string) :=
  match returned with
  | [] => []
  | o :: rest => if fst o =? 120 then o :: rest else from_x rest
  end.

(** What option parsing has to say about the archive and the patterns. *)
Definition patterns (c : Flags) : option string * bool * gset string * gset string :=
  (archive_name c, flag_x c, includes c, excludes c).

(** One option of a command line, as it bears on the archive name and
    the patterns. *)
Definition route (t : option string * bool * gset string * gset string)
  (o : Z * string) : option string * bool * gset string * gset string :=
  let '(a, x, i, e) := t in
  if fst o =? 1 then
    match a with
    | None => (Some (snd o), x, i, e)
    | Some _ => if x then (a, x, i, {[ snd o ]} ∪ e) else (a, x, {[ snd o ]} ∪ i, e)
    end
  else if fst o =? 120 then (a, true, i, e)
  else (a, x, i, e).

(** Whether a command line holds the option [opt]. *)
Definition has_option (opt : Z) (returned : list (Z * string)) : bool :=
  existsb (fun o => fst o =? opt) returned.

(** The overwrite mode an option asks for. *)
Definition mode_of (o : Z * string) : option OverwriteMode :=
  if fst o =? 110 then Some kNever else if fst o =? 111 then Some kAlways else None.



(** The outcome of [main] once ProcessAll has ended with [o]. *)
Definition main_outcome (o : Outcome unit) : Outcome Z :=
  match o with
  | Ret _ => Ret 0
  | Exit n => Exit n
  | Diverge => Diverge
  end.

(** An archive stand-in that opens [a.zip] and nothing else. *)
Definition open_a_zip (zah : ZipArchive) (name : string) : Z * ZipArchive :=
  if String.eqb name "a.zip" then (0, zah) else (-11, zah).

(** * Properties *)

(** ** Machine integers *)

Lemma to_int_id x : Int.in_int x -> Int.to_int x = x.
Proof.
  unfold Int.in_int, Int.to_int, Int.wrap_signed. intros Hx.
  change (2 ^ 32) with 4294967296. change (2 ^ (32 - 1)) with 2147483648.
  change (2 ^ 31) with 2147483648 in Hx.
  destruct (Z_lt_le_dec x 0) as [Hneg | Hpos].
  - replace (x mod 4294967296) with (x + 4294967296).
    + destruct (Z.ltb_spec (x + 4294967296) 2147483648); lia.
    + apply Z.mod_unique with (q := -1); lia.
  - rewrite Z.mod_small by lia.
    destruct (Z.ltb_spec x 2147483648); lia.
Qed.

Lemma to_int64_id x : Int.in_int64 x -> Int.to_int64 x = x.
Proof.
  unfold Int.in_int64, Int.to_int64, Int.wrap_signed. intros Hx.
  change (2 ^ 64) with 18446744073709551616.
  change (2 ^ (64 - 1)) with 9223372036854775808.
  change (2 ^ 63) with 9223372036854775808 in Hx.
  destruct (Z_lt_le_dec x 0) as [Hneg | Hpos].
  - replace (x mod 18446744073709551616) with (x + 18446744073709551616).
    + destruct (Z.ltb_spec (x + 18446744073709551616) 9223372036854775808); lia.
    + apply Z.mod_unique with (q := -1); lia.
  - rewrite Z.mod_small by lia.
    destruct (Z.ltb_spec x 9223372036854775808); lia.
Qed.

Lemma in_int_in_int64 x : Int.in_int x -> Int.in_int64 x.
Proof.
  unfold Int.in_int, Int.in_int64.
  change (2 ^ 31) with 2147483648. change (2 ^ 63) with 9223372036854775808. lia.
Qed.

(** ** CompressionRatio *)

Lemma exact_ratio_bounds u c : 0 <= c <= u -> 0 <= exact_ratio u c <= 100.
Proof.
  intros H. unfold exact_ratio.
  destruct (Z.eqb_spec u 0) as [-> | Hu]; [lia |].
  rewrite Z.quot_div_nonneg by lia. split.
  - apply Z.div_pos; lia.
  - apply Z.div_le_upper_bound; lia.
Qed.

(** C9 (as amended): for non-negative 64-bit lengths [u] and [c] such that
    the product [100 * (u - c)] fits in 64 bits and the quotient fits in an
    [int], CompressionRatio returns [100 * (u - c) / u] with the division
    truncating toward zero, and 0 when [u] is 0; this covers every
    [c <= u <= 92233720368547758], where the ratio lies between 0 and 100. *)
Theorem CompressionRatio_in_range (u c : Z) :
  0 <= u -> 0 <= c -> Int.in_int64 u -> Int.in_int64 c ->
  (Int.in_int64 (100 * (u - c)) -> Int.in_int (exact_ratio u c) ->
   CompressionRatio u c = exact_ratio u c)
  /\ (c <= u <= 92233720368547758 ->
      CompressionRatio u c = exact_ratio u c /\ 0 <= CompressionRatio u c <= 100)
  /\ (u = 0 -> CompressionRatio u c = 0).
Proof.
  intros Hu Hc Hu64 Hc64.
  assert (Hmain : Int.in_int64 (100 * (u - c)) -> Int.in_int (exact_ratio u c) ->
                  CompressionRatio u c = exact_ratio u c).
  { intros Hprod Hq. unfold CompressionRatio, exact_ratio in *.
    destruct (Z.eqb_spec u 0) as [Hz | Hnz]; [reflexivity |].
    assert (Hsub : Int.to_int64 (u - c) = u - c).
    { apply to_int64_id. unfold Int.in_int64 in *. lia. }
    rewrite Hsub, (to_int64_id _ Hprod).
    rewrite (to_int64_id _ (in_int_in_int64 _ Hq)).
    apply to_int_id, Hq. }
  split; [exact Hmain |]. split.
  - intros Hle.
    assert (Hb : 0 <= exact_ratio u c <= 100) by (apply exact_ratio_bounds; lia).
    assert (Heq : CompressionRatio u c = exact_ratio u c).
    { apply Hmain.
      - unfold Int.in_int64. change (2 ^ 63) with 9223372036854775808. lia.
      - unfold Int.in_int. change (2 ^ 31) with 2147483648. lia. }
    rewrite Heq. split; [reflexivity | exact Hb].
  - intros ->. reflexivity.
Qed.

Lemma CompressionRatio_in_range_witness :
  CompressionRatio 100 40 = 60 /\ 0 <= CompressionRatio 100 40 <= 100.
Proof.
  assert (H64 : forall x, 0 <= x <= 100 -> Int.in_int64 x).
  { intros x Hx. unfold Int.in_int64.
    change (2 ^ 63) with 9223372036854775808. lia. }
  destruct (CompressionRatio_in_range 100 40) as (_ & Hle & _);
    [lia | lia | apply H64; lia | apply H64; lia |].
  destruct Hle as [Heq Hb]; [lia |].
  split; [rewrite Heq; reflexivity | exact Hb].
Defined.

(** C9 as stated fails: one uncompressed byte against 21474838 compressed
    ones gives a quotient below the range of [int], and the cast wraps. *)
Lemma CompressionRatio_wraps :
  0 <= 1 /\ 0 <= 21474838 /\
  exact_ratio 1 21474838 = -2147483700 /\
  CompressionRatio 1 21474838 = 2147483596 /\
  CompressionRatio 1 21474838 <> exact_ratio 1 21474838.
Proof.
  repeat split; try lia; try reflexivity.
  vm_compute. discriminate.
Qed.

(** ** The pattern filter *)

Section Filter.

Variable fnmatch : string -> string -> Z -> Z.

Lemma existsb_glob (patterns : gset string) (name : string) :
  existsb (fun p => fnmatch (c_str p) (c_str name) 0 =? 0) (elements patterns) = true
  <-> exists p, p ∈ patterns /\ glob_matches fnmatch p name.
Proof.
  rewrite existsb_exists. split.
  - intros (p & Hin & Hm). exists p. split.
    + apply elem_of_elements, list_elem_of_In, Hin.
    + apply Z.eqb_eq, Hm.
  - intros (p & Hin & Hm). exists p. split.
    + apply list_elem_of_In, elem_of_elements, Hin.
    + apply Z.eqb_eq, Hm.
Qed.

Lemma ShouldInclude_accepts (cfg : Flags) (name : string) :
  ShouldInclude fnmatch cfg name = true <->
  (forall x, x ∈ excludes cfg -> ~ glob_matches fnmatch x name)
  /\ (includes cfg = ∅ \/ exists i, i ∈ includes cfg /\ glob_matches fnmatch i name).
Proof.
  unfold ShouldInclude.
  destruct (existsb (fun p => fnmatch (c_str p) (c_str name) 0 =? 0)
                    (elements (excludes cfg))) eqn:Hex.
  - (* some exclude pattern matches *)
    apply existsb_glob in Hex. destruct Hex as (x & Hin & Hm).
    assert (Hne : excludes cfg <> ∅) by (intros He; rewrite He in Hin; set_solver).
    rewrite bool_decide_eq_false_2 by exact Hne. simpl.
    split; [discriminate |]. intros [Hall _]. exfalso. exact (Hall x Hin Hm).
  - rewrite andb_false_r.
    assert (Hnone : forall x, x ∈ excludes cfg -> ~ glob_matches fnmatch x name).
    { intros x Hin Hm.
      assert (Ht : existsb (fun p => fnmatch (c_str p) (c_str name) 0 =? 0)
                           (elements (excludes cfg)) = true)
        by (apply existsb_glob; eauto).
      congruence. }
    destruct (decide (includes cfg = ∅)) as [Hempty | Hnonempty].
    + rewrite bool_decide_eq_true_2 by exact Hempty. split; [auto | reflexivity].
    + rewrite bool_decide_eq_false_2 by exact Hnonempty.
      rewrite existsb_glob. split.
      * intros Hi. split; [exact Hnone | right; exact Hi].
      * intros [_ [He | Hi]]; [contradiction | exact Hi].
Qed.

End Filter.

(** What option parsing leaves in the pattern sets. *)

Lemma HandlePositionals_collects (args : list string) (c : Flags) (a : string) :
  archive_name c = Some a ->
  HandlePositionals args c =
    (Ret tt,
     if flag_x c then set_excludes (list_to_set args ∪ excludes c) c
     else set_includes (list_to_set args ∪ includes c) c).
Proof.
  revert c. induction args as [| p rest IH]; intros c Ha.
  - simpl. unfold ret. f_equal.
    destruct c as [u f1 fd fl fp fq fv fx an inc exc]; simpl in *.
    destruct fx; unfold set_excludes, set_includes; simpl; f_equal;
      apply leibniz_equiv; set_solver.
  - simpl. unfold bind at 1. unfold HandleCommonOption. simpl.
    unfold bind at 1. unfold get. rewrite Ha.
    destruct (flag_x c) eqn:Hx; unfold modify.
    + rewrite IH by (simpl; exact Ha). simpl. rewrite Hx. f_equal.
      unfold set_excludes; simpl. f_equal. apply leibniz_equiv. set_solver.
    + rewrite IH by (simpl; exact Ha). simpl. rewrite Hx. f_equal.
      unfold set_includes; simpl. f_equal. apply leibniz_equiv. set_solver.
Qed.

Ltac run_prog :=
  unfold bind, ret, get, modify, exit, diverge; simpl.

Lemma pattern_arguments_run (zip : string) (incl excl : list string) (c : Flags) :
  pattern_arguments zip incl excl (no_patterns c) =
    (Ret tt,
     mkFlags (is_unzip c) (flag_1 c) (flag_d c) (flag_l c) (flag_p c) (flag_q c)
             (flag_v c) true (Some zip)
             (list_to_set incl ∪ ∅) (list_to_set excl ∪ ∅)).
Proof.
  unfold pattern_arguments, HandleCommonOption. run_prog.
  rewrite (HandlePositionals_collects incl _ zip) by reflexivity. simpl.
  rewrite (HandlePositionals_collects excl _ zip) by reflexivity. simpl.
  reflexivity.
Qed.

(** C1: ShouldInclude accepts a name exactly when no exclude pattern
    glob-matches it and the include set is empty or holds a pattern that
    glob-matches it; the sets that option parsing builds (and so the
    answer) depend only on which patterns were given, not on their order
    or on how often each was repeated. *)
Theorem ShouldInclude_spec (fnmatch : string -> string -> Z -> Z) :
  (forall (cfg : Flags) (name : string),
     ShouldInclude fnmatch cfg name = true <->
     (forall x, x ∈ excludes cfg -> ~ glob_matches fnmatch x name)
     /\ (includes cfg = ∅
         \/ exists i, i ∈ includes cfg /\ glob_matches fnmatch i name))
  /\ (forall (c : Flags) (zip : string) (incl1 excl1 incl2 excl2 : list string),
        (forall p, p ∈ incl1 <-> p ∈ incl2) ->
        (forall p, p ∈ excl1 <-> p ∈ excl2) ->
        exists c',
          pattern_arguments zip incl1 excl1 (no_patterns c) = (Ret tt, c')
          /\ pattern_arguments zip incl2 excl2 (no_patterns c) = (Ret tt, c')
          /\ (forall p, p ∈ includes c' <-> p ∈ incl1)
          /\ (forall p, p ∈ excludes c' <-> p ∈ excl1)).
Proof.
  split; [apply ShouldInclude_accepts |].
  intros c zip incl1 excl1 incl2 excl2 Hi He.
  assert (Hinc : list_to_set incl2 = (list_to_set incl1 : gset string))
    by (apply leibniz_equiv; set_solver).
  assert (Hexc : list_to_set excl2 = (list_to_set excl1 : gset string))
    by (apply leibniz_equiv; set_solver).
  eexists. split; [apply pattern_arguments_run |].
  split; [rewrite pattern_arguments_run, Hinc, Hexc; reflexivity |].
  simpl. split; intros p; set_solver.
Qed.

(** ** Running computations *)

Lemma bind_Ret {S A B : Type} (m : M S A) (k : A -> M S B) (st st' : S) (a : A) :
  m st = (Ret a, st') -> bind m k st = k a st'.
Proof. intros H. unfold bind. rewrite H. reflexivity. Qed.

Lemma bind_Exit {S A B : Type} (m : M S A) (k : A -> M S B) (st st' : S) (n : Z) :
  m st = (Exit n, st') -> bind m k st = (Exit n, st').
Proof. intros H. unfold bind. rewrite H. reflexivity. Qed.

Lemma bind_Diverge {S A B : Type} (m : M S A) (k : A -> M S B) (st st' : S) :
  m st = (Diverge, st') -> bind m k st = (Diverge, st').
Proof. intros H. unfold bind. rewrite H. reflexivity. Qed.

Lemma bind_run {S A B : Type} (m : M S A) (k : A -> M S B) (st : S) :
  bind m k st =
    match m st with
    | (Ret a, st') => k a st'
    | (Exit n, st') => (Exit n, st')
    | (Diverge, st') => (Diverge, st')
    end.
Proof. reflexivity. Qed.

Lemma ret_run {S A : Type} (a : A) (st : S) : ret a st = (Ret a, st).
Proof. reflexivity. Qed.

Lemma get_run {S : Type} (st : S) : get st = (Ret st, st).
Proof. reflexivity. Qed.

Lemma modify_run {S : Type} (f : S -> S) (st : S) : modify f st = (Ret tt, f st).
Proof. reflexivity. Qed.

Lemma exit_run {S A : Type} (n : Z) (st : S) : exit (A := A) n st = (Exit n, st).
Proof. reflexivity. Qed.

(** One step of a computation applied to a state. *)
Ltac run_step :=
  first [ rewrite bind_run | rewrite ret_run | rewrite get_run
        | rewrite modify_run | rewrite exit_run ];
  cbv beta iota.

Ltac run_steps := repeat run_step.

Lemma set_env_env (r : Run) : set_env (env r) r = r.
Proof. destruct r. reflexivity. Qed.

(** ** Relations that every step of a computation keeps *)

Section Preserves.

Context {S : Type} (R : S -> S -> Prop).
Hypothesis R_refl : forall s, R s s.
Hypothesis R_trans : forall a b c, R a b -> R b c -> R a c.

Lemma preserves_ret {A : Type} (a : A) : preserves R (ret a).
Proof. intros st. apply R_refl. Qed.

Lemma preserves_get : preserves R get.
Proof. intros st. apply R_refl. Qed.

Lemma preserves_exit {A : Type} (n : Z) : preserves R (exit (A := A) n).
Proof. intros st. apply R_refl. Qed.

Lemma preserves_diverge {A : Type} : preserves R (diverge (A := A)).
Proof. intros st. apply R_refl. Qed.

Lemma preserves_modify (f : S -> S) : (forall s, R s (f s)) -> preserves R (modify f).
Proof. intros Hf st. apply Hf. Qed.

Lemma preserves_bind {A B : Type} (m : M S A) (k : A -> M S B) :
  preserves R m -> (forall a, preserves R (k a)) -> preserves R (bind m k).
Proof.
  intros Hm Hk st. unfold bind.
  specialize (Hm st). destruct (m st) as [[a | n |] st1]; simpl in *; try exact Hm.
  apply R_trans with st1; [exact Hm | apply Hk].
Qed.

End Preserves.

(** Splits a goal [preserves R m] along the structure of [m]; [prim]
    closes the goals about single state updates. *)
Create HintDb preserves.

Ltac preserves_step refl trans prim :=
  first
    [ solve [ auto 1 with preserves nocore ]
    | apply (preserves_bind _ trans); [| intros ? ]
    | apply (preserves_ret _ refl)
    | apply (preserves_get _ refl)
    | apply (preserves_exit _ refl)
    | apply (preserves_diverge _ refl)
    | apply preserves_modify; intros ?; prim
    | match goal with
      | |- preserves _ (if ?b then _ else _) => destruct b
      | |- preserves _ (match ?x with _ => _ end) => destruct x
      | |- preserves _ (let (_, _) := ?x in _) => destruct x
      end ].

Ltac preserves_tac refl trans prim := repeat preserves_step refl trans prim.

(** ** The file system model *)

Lemma S_ISDIR_directory (perm : Z) :
  Posix.S_ISDIR (Z.lor Posix.S_IFDIR (Z.land perm 4095)) = true.
Proof.
  unfold Posix.S_ISDIR. apply Z.eqb_eq.
  rewrite Z.land_lor_distr_l, <- Z.land_assoc.
  change (Z.land 4095 Posix.S_IFMT) with 0. rewrite Z.land_0_r.
  reflexivity.
Qed.

Lemma S_ISDIR_regular (perm : Z) :
  Posix.S_ISDIR (Z.lor Posix.S_IFREG (Z.land perm 4095)) = false.
Proof.
  unfold Posix.S_ISDIR. apply Z.eqb_neq.
  rewrite Z.land_lor_distr_l, <- Z.land_assoc.
  change (Z.land 4095 Posix.S_IFMT) with 0. rewrite Z.land_0_r.
  discriminate.
Qed.

(** A path resolves the same way once a node has been added where there
    was none: resolution only ever looks at directories that exist. *)
Lemma walk_insert_fresh (f : Posix.FileSystem) (fresh : list string) (i : Posix.inode)
  (comps : list string) (cur q : list string) :
  Posix.nodes f !! fresh = None ->
  Posix.walk f cur comps = inr q ->
  Posix.walk (Posix.with_nodes f (<[fresh := i]> (Posix.nodes f))) cur comps = inr q.
Proof.
  intros Hfresh. revert cur. induction comps as [| c rest IH]; intros cur Hw.
  - exact Hw.
  - simpl in *. destruct (Posix.nodes f !! cur) as [[perm | perm data] |] eqn:Hcur;
      try discriminate.
    assert (Hne : fresh <> cur) by congruence.
    rewrite lookup_insert_ne by exact Hne. rewrite Hcur. apply IH, Hw.
Qed.

Lemma resolve_insert_fresh (f : Posix.FileSystem) (fresh : list string) (i : Posix.inode)
  (path : string) (q : list string) :
  Posix.nodes f !! fresh = None ->
  Posix.resolve f path = inr q ->
  Posix.resolve (Posix.with_nodes f (<[fresh := i]> (Posix.nodes f))) path = inr q.
Proof.
  unfold Posix.resolve. intros Hfresh.
  destruct (String.eqb path ""); [discriminate |].
  apply walk_insert_fresh, Hfresh.
Qed.

(** After a successful [mkdir] the path denotes a directory. *)
Lemma mkdir_model_is_directory (f f' : Posix.FileSystem) (path : string) (mode : Z) :
  Posix.mkdir_model f path mode = inr f' -> Posix.is_directory f' path = true.
Proof.
  unfold Posix.mkdir_model, Posix.is_directory, Posix.stat_model.
  destruct (Posix.resolve f path) as [e | p] eqn:Hres; [discriminate |].
  destruct (Posix.nodes f !! p) eqn:Hp; [discriminate |].
  intros H. injection H as <-.
  rewrite (resolve_insert_fresh f p _ path p Hp Hres). simpl.
  rewrite lookup_insert_eq. apply S_ISDIR_directory.
Qed.

(** [mkdir] adds a directory and touches nothing else. *)
Lemma mkdir_model_regular (f f' : Posix.FileSystem) (path : string) (mode : Z)
  (q : list string) :
  Posix.mkdir_model f path mode = inr f' ->
  Posix.regular_at f' q = Posix.regular_at f q.
Proof.
  unfold Posix.mkdir_model, Posix.regular_at.
  destruct (Posix.resolve f path) as [e | p]; [discriminate |].
  destruct (Posix.nodes f !! p) eqn:Hp; [discriminate |].
  intros H. injection H as <-. simpl.
  destruct (decide (p = q)) as [-> | Hne].
  - rewrite lookup_insert_eq, Hp. reflexivity.
  - rewrite lookup_insert_ne by exact Hne. reflexivity.
Qed.

Lemma mkdir_model_cwd (f f' : Posix.FileSystem) (path : string) (mode : Z) :
  Posix.mkdir_model f path mode = inr f' ->
  Posix.cwd f' = Posix.cwd f /\ Posix.umask f' = Posix.umask f.
Proof.
  unfold Posix.mkdir_model.
  destruct (Posix.resolve f path) as [e | p]; [discriminate |].
  destruct (Posix.nodes f !! p); [discriminate |].
  intros H. injection H as <-. split; reflexivity.
Qed.

(** A directory stays one when [mkdir] succeeds elsewhere. *)
Lemma mkdir_model_keeps_directory (f f' : Posix.FileSystem) (path other : string)
  (mode : Z) :
  Posix.mkdir_model f path mode = inr f' ->
  Posix.is_directory f other = true -> Posix.is_directory f' other = true.
Proof.
  unfold Posix.mkdir_model, Posix.is_directory, Posix.stat_model.
  destruct (Posix.resolve f path) as [e | p]; [discriminate |].
  destruct (Posix.nodes f !! p) eqn:Hp; [discriminate |].
  intros H. injection H as <-.
  destruct (Posix.resolve f other) as [e | q] eqn:Hres; [discriminate |].
  rewrite (resolve_insert_fresh f p _ other q Hp Hres). simpl.
  destruct (Posix.nodes f !! q) as [[perm | perm data] |] eqn:Hq; try discriminate.
  - assert (Hne : p <> q) by congruence.
    rewrite lookup_insert_ne by exact Hne. rewrite Hq. auto.
  - assert (Hne : p <> q) by congruence.
    rewrite lookup_insert_ne by exact Hne. rewrite Hq. auto.
Qed.

(** ** What directory creation leaves alone *)

Lemma only_directories_refl (st : Env) : only_directories st st.
Proof.
  constructor; try reflexivity.
  exists []. split; [symmetry; apply app_nil_r | constructor].
Qed.

Lemma only_directories_trans (a b c : Env) :
  only_directories a b -> only_directories b c -> only_directories a c.
Proof.
  intros [Ha1 Ha2 Ha3 Ha4 Ha5 Ha6 (l1 & Hl1 & Hf1)] [Hb1 Hb2 Hb3 Hb4 Hb5 Hb6 (l2 & Hl2 & Hf2)].
  constructor; try congruence.
  exists (l1 ++ l2)%list. split.
  - rewrite Hl2, Hl1, app_assoc. reflexivity.
  - apply Forall_app. split; assumption.
Qed.

Lemma only_directories_log (c : Syscall) (st : Env) :
  stat_or_mkdir c -> only_directories st (log_syscall c st).
Proof.
  intros Hc. constructor; try reflexivity.
  exists [c]. split; [reflexivity | repeat constructor; exact Hc].
Qed.

Lemma only_directories_errno (n : Z) (st : Env) : only_directories st (set_errno n st).
Proof.
  constructor; try reflexivity.
  exists []. split; [symmetry; apply app_nil_r | constructor].
Qed.

Lemma only_directories_stderr (d : Diagnostic) (st : Env) :
  only_directories st (put_stderr d st).
Proof.
  constructor; try reflexivity.
  exists []. split; [symmetry; apply app_nil_r | constructor].
Qed.

Ltac od_prim :=
  first [ apply only_directories_log; exact I
        | apply only_directories_errno
        | apply only_directories_stderr ].

Ltac od_tac :=
  preserves_tac only_directories_refl only_directories_trans od_prim.

Lemma stat_only_directories (path : string) : preserves only_directories (stat path).
Proof. unfold stat. od_tac. Qed.

Lemma error_only_directories (status errnum : Z) (format : string) (args : list Arg) :
  preserves only_directories (error status errnum format args).
Proof. unfold error. od_tac. Qed.

#[local] Hint Resolve stat_only_directories error_only_directories : preserves.

Lemma mkdir_only_directories (path : string) (mode : Z) :
  preserves only_directories (mkdir path mode).
Proof.
  intros st. unfold mkdir. run_prog.
  destruct (Posix.mkdir_model (fs st) path mode) as [e | f'] eqn:Hmk; simpl.
  - apply only_directories_trans with (log_syscall (CallMkdir path mode) st);
      [apply only_directories_log; exact I | apply only_directories_errno].
  - constructor; try reflexivity.
    + intros p. simpl. apply (mkdir_model_regular _ _ _ _ p Hmk).
    + exists [CallMkdir path mode]. split; [reflexivity | repeat constructor].
Qed.

#[local] Hint Resolve mkdir_only_directories : preserves.

Lemma MakeDirectoryHierarchy_rec_only_directories (fuel : nat) (path : string) :
  preserves only_directories (MakeDirectoryHierarchy_rec fuel path).
Proof.
  revert path. induction fuel as [| fuel IH]; intros path; simpl; od_tac.
Qed.

#[local] Hint Resolve MakeDirectoryHierarchy_rec_only_directories : preserves.

(** ** The directory materializer *)

Lemma stat_run (path : string) (st : Env) :
  stat path st =
    match Posix.stat_model (fs st) path with
    | inr mode => (Ret (Some mode), log_syscall (CallStat path) st)
    | inl e => (Ret None, set_errno e (log_syscall (CallStat path) st))
    end.
Proof.
  unfold stat. run_prog. destruct (Posix.stat_model (fs st) path); reflexivity.
Qed.

Lemma mkdir_run (path : string) (mode : Z) (st : Env) :
  mkdir path mode st =
    match Posix.mkdir_model (fs st) path mode with
    | inr f' => (Ret 0, set_fs f' (log_syscall (CallMkdir path mode) st))
    | inl e => (Ret (-1), set_errno e (log_syscall (CallMkdir path mode) st))
    end.
Proof.
  unfold mkdir. run_prog. destruct (Posix.mkdir_model (fs st) path mode); reflexivity.
Qed.

(** On a path that is a directory the materializer only calls [stat]. *)
Lemma MakeDirectoryHierarchy_rec_present (fuel : nat) (path : string) (st : Env) :
  Posix.is_directory (fs st) (c_str path) = true ->
  MakeDirectoryHierarchy_rec (S fuel) path st =
    (Ret true, log_syscall (CallStat (c_str path)) st).
Proof.
  unfold Posix.is_directory. intros Hdir. simpl.
  unfold bind. rewrite stat_run.
  destruct (Posix.stat_model (fs st) (c_str path)) as [e | mode]; [discriminate |].
  rewrite Hdir. reflexivity.
Qed.

(** When the materializer reports success, the path is a directory. *)
Lemma MakeDirectoryHierarchy_rec_success (fuel : nat) (path : string) (st st' : Env) :
  MakeDirectoryHierarchy_rec fuel path st = (Ret true, st') ->
  Posix.is_directory (fs st') (c_str path) = true.
Proof.
  destruct fuel as [| fuel]; [discriminate |]. simpl.
  unfold bind at 1. rewrite stat_run. unfold Posix.is_directory at 1.
  destruct (Posix.stat_model (fs st) (c_str path)) as [e | mode] eqn:Hstat.
  - unfold bind at 1.
    destruct (MakeDirectoryHierarchy_rec fuel (Dirname path) _) as [[[|] | n |] st1];
      simpl; try discriminate.
    unfold bind. rewrite mkdir_run.
    destruct (Posix.mkdir_model (fs st1) (c_str path) 511) as [e' | f'] eqn:Hmk;
      simpl; [discriminate |].
    intros H. injection H as <-. simpl. exact (mkdir_model_is_directory _ _ _ _ Hmk).
  - destruct (Posix.S_ISDIR mode) eqn:Hdir.
    + intros H. injection H as <-. simpl.
      unfold Posix.is_directory. rewrite Hstat. exact Hdir.
    + unfold bind at 1.
      destruct (MakeDirectoryHierarchy_rec fuel (Dirname path) _) as [[[|] | n |] st1];
        simpl; try discriminate.
      unfold bind. rewrite mkdir_run.
      destruct (Posix.mkdir_model (fs st1) (c_str path) 511) as [e' | f'] eqn:Hmk;
        simpl; [discriminate |].
      intros H. injection H as <-. simpl. exact (mkdir_model_is_directory _ _ _ _ Hmk).
Qed.

(** What does hold: on a path that already is a directory the
    materializer returns success and leaves the file system as it is; and
    whenever an application returns success, a second application to the
    same path returns success and changes nothing. *)
Lemma MakeDirectoryHierarchy_idempotent_on_success (path : string) (st : Env) :
  (Posix.is_directory (fs st) (c_str path) = true ->
     exists st', MakeDirectoryHierarchy path st = (Ret true, st') /\ fs st' = fs st)
  /\ (forall st1, MakeDirectoryHierarchy path st = (Ret true, st1) ->
        idempotent_at path st
        /\ exists st2, MakeDirectoryHierarchy path st1 = (Ret true, st2)
                       /\ fs st2 = fs st1).
Proof.
  assert (Hpresent : forall s, Posix.is_directory (fs s) (c_str path) = true ->
            exists s', MakeDirectoryHierarchy path s = (Ret true, s') /\ fs s' = fs s).
  { intros s Hdir. eexists. split.
    - unfold MakeDirectoryHierarchy. apply MakeDirectoryHierarchy_rec_present, Hdir.
    - reflexivity. }
  split; [apply Hpresent |].
  intros st1 Hfirst.
  assert (Hdir : Posix.is_directory (fs st1) (c_str path) = true)
    by exact (MakeDirectoryHierarchy_rec_success _ _ _ _ Hfirst).
  destruct (Hpresent st1 Hdir) as (st2 & Hsecond & Hfs).
  split; [| exists st2; split; assumption].
  unfold idempotent_at. rewrite Hfirst. simpl. rewrite Hsecond. simpl.
  split; [reflexivity | exact Hfs].
Qed.

(** C8 (the code at the failing input): the entry name [a/./b/c] passes
    the filename test and its parent is [a/./b].  Where [a] does not exist
    yet, the first application to [a/./b] creates [a], then fails on
    [mkdir] of [a/.], which exists by then, and returns false; the second
    application finds [a/.], creates [a/b] and returns true.  The two
    differ in what they return and in what they leave behind. *)
Theorem MakeDirectoryHierarchy_not_idempotent :
  let st := start_env kPrompt work_fs [] in
  let r1 := MakeDirectoryHierarchy "a/./b" st in
  let r2 := MakeDirectoryHierarchy "a/./b" (snd r1) in
  bad_filename "a/./b/c" = false
  /\ Dirname "a/./b/c" = "a/./b"
  /\ fst r1 = Ret false
  /\ Posix.nodes (fs (snd r1)) !! ["work"; "a"] = Some (Posix.Directory 493)
  /\ Posix.nodes (fs (snd r1)) !! ["work"; "a"; "b"] = None
  /\ fst r2 = Ret true
  /\ Posix.nodes (fs (snd r2)) !! ["work"; "a"; "b"] = Some (Posix.Directory 493)
  /\ ~ idempotent_at "a/./b" st.
Proof.
  assert (H1 : fst (MakeDirectoryHierarchy "a/./b" (start_env kPrompt work_fs []))
               = Ret false) by (vm_compute; reflexivity).
  assert (H2 : fst (MakeDirectoryHierarchy "a/./b"
                      (snd (MakeDirectoryHierarchy "a/./b"
                              (start_env kPrompt work_fs []))))
               = Ret true) by (vm_compute; reflexivity).
  cbv zeta. repeat split; try assumption; try (vm_compute; reflexivity).
  unfold idempotent_at. cbv zeta. rewrite H1, H2. intros [Hbad _]. discriminate.
Qed.

(** ** Strings *)

#[local] Arguments String.append !_ _ / : simpl nomatch.

Lemma prefix_begins_with (p s : string) :
  String.prefix p s = true <-> begins_with s p.
Proof.
  unfold begins_with. revert s. induction p as [| a p IH]; intros s; simpl.
  - split; [intros _; exists s; reflexivity | destruct s; reflexivity].
  - destruct s as [| b s]; simpl.
    + split; [discriminate | intros [rest H]; discriminate].
    + destruct (ascii_dec a b) as [-> | Hne].
      * rewrite IH. split; intros [rest H]; exists rest; simpl in *; congruence.
      * split; [discriminate | intros [rest H]; simpl in H; congruence].
Qed.

Lemma StartsWith_begins_with (s p : string) :
  Base.StartsWith s p = true <-> begins_with s p.
Proof. apply prefix_begins_with. Qed.

Lemma find_unfold (s x : string) :
  find s x =
    if String.prefix x s then Some 0%nat
    else match s with
         | EmptyString => None
         | String _ s' => option_map S (find s' x)
         end.
Proof. destruct s; reflexivity. Qed.

Lemma find_contains (s x : string) :
  (exists i, find s x = Some i) <-> contains s x.
Proof.
  unfold contains. split.
  - induction s as [| c s IH]; rewrite find_unfold.
    + destruct (String.prefix x "") eqn:Hp.
      * intros _. apply prefix_begins_with in Hp. destruct Hp as [rest Hrest].
        exists "", rest. exact Hrest.
      * intros [i H]. discriminate.
    + destruct (String.prefix x (String c s)) eqn:Hp.
      * intros _. apply prefix_begins_with in Hp. destruct Hp as [rest Hrest].
        exists "", rest. exact Hrest.
      * intros [i H]. destruct (find s x) as [j |] eqn:Hf; [| discriminate].
        destruct IH as (front & rest & Hs); [eauto |].
        exists (String c front), rest. simpl. rewrite Hs. reflexivity.
  - intros (front & rest & Hs). revert s Hs.
    induction front as [| c front IH]; intros s Hs; rewrite find_unfold.
    + assert (Hp : String.prefix x s = true)
        by (apply prefix_begins_with; exists rest; exact Hs).
      rewrite Hp. eauto.
    + subst s. simpl String.append.
      destruct (String.prefix x (String c (front +:+ x +:+ rest))); [eauto |].
      destruct (IH _ eq_refl) as [i Hi]. rewrite Hi. simpl. eauto.
Qed.

(** The test of ExtractOne, read as a property of the name. *)
Lemma bad_filename_iff (name : string) :
  bad_filename name = true <->
  begins_with name "/" \/ begins_with name "../" \/ contains name "/../".
Proof.
  unfold bad_filename. rewrite !orb_true_iff, !StartsWith_begins_with.
  rewrite <- find_contains. split.
  - intros [[H | H] | H]; [auto | auto |].
    right. right. destruct (find name "/../"); [eauto | discriminate].
  - intros [H | [H | [i H]]]; [auto | auto |]. right. rewrite H. reflexivity.
Qed.

(** ** The log of system calls only grows *)

Lemma syscalls_extend_refl (st : Env) : syscalls_extend st st.
Proof. exists []. symmetry. apply app_nil_r. Qed.

Lemma syscalls_extend_trans (a b c : Env) :
  syscalls_extend a b -> syscalls_extend b c -> syscalls_extend a c.
Proof.
  intros [l1 H1] [l2 H2]. exists (l1 ++ l2)%list.
  rewrite H2, H1, app_assoc. reflexivity.
Qed.

Ltac se_prim :=
  unfold syscalls_extend; simpl;
  first [ exists []; symmetry; apply app_nil_r | eexists; reflexivity ].

Ltac se_tac := preserves_tac syscalls_extend_refl syscalls_extend_trans se_prim.

Lemma printf_extend (format : string) (args : list Arg) :
  preserves syscalls_extend (printf format args).
Proof. unfold printf. se_tac. Qed.

Lemma fflush_extend : preserves syscalls_extend fflush_stdout.
Proof. unfold fflush_stdout. se_tac. Qed.

Lemma error_extend (status errnum : Z) (format : string) (args : list Arg) :
  preserves syscalls_extend (error status errnum format args).
Proof. unfold error. se_tac. Qed.

Lemma stat_extend (path : string) : preserves syscalls_extend (stat path).
Proof. unfold stat. se_tac. Qed.

Lemma mkdir_extend (path : string) (mode : Z) :
  preserves syscalls_extend (mkdir path mode).
Proof. unfold mkdir. se_tac. Qed.

Lemma open_extend (path : string) (flags mode : Z) :
  preserves syscalls_extend (open path flags mode).
Proof. unfold open. se_tac. Qed.

Lemma close_extend (fd : Z) : preserves syscalls_extend (close fd).
Proof. unfold close. se_tac. Qed.

Lemma getline_extend : preserves syscalls_extend getline.
Proof. unfold getline. se_tac. Qed.

Lemma ExtractEntryToFile_extend (zah : ZipArchive) (entry : ZipEntry) (fd : Z) :
  preserves syscalls_extend (ExtractEntryToFile zah entry fd).
Proof. unfold ExtractEntryToFile. se_tac. Qed.

#[local] Hint Resolve printf_extend fflush_extend error_extend stat_extend
  mkdir_extend open_extend close_extend getline_extend ExtractEntryToFile_extend
  : preserves.

Lemma MakeDirectoryHierarchy_rec_extend (fuel : nat) (path : string) :
  preserves syscalls_extend (MakeDirectoryHierarchy_rec fuel path).
Proof.
  revert path. induction fuel as [| fuel IH]; intros path; simpl; se_tac.
Qed.

Lemma PromptOverwrite_loop_extend (fuel : nat) :
  preserves syscalls_extend (PromptOverwrite_loop fuel).
Proof. induction fuel as [| fuel IH]; simpl; se_tac. Qed.

#[local] Hint Resolve MakeDirectoryHierarchy_rec_extend PromptOverwrite_loop_extend
  : preserves.

Lemma PromptOverwrite_extend (dst : string) :
  preserves syscalls_extend (PromptOverwrite dst).
Proof. unfold PromptOverwrite. se_tac. Qed.

#[local] Hint Resolve PromptOverwrite_extend : preserves.

Lemma ExtractOne_open_extend (cfg : Flags) (zah : ZipArchive) (entry : ZipEntry)
  (name dst : string) (reopen : bool) (fd : Z) :
  preserves syscalls_extend (ExtractOne_open cfg zah entry name dst reopen fd).
Proof. unfold ExtractOne_open, ExtractOne_write. se_tac. Qed.

#[local] Hint Resolve ExtractOne_open_extend : preserves.

(** ** The filename guard *)

Lemma starts_with_call_bind {A B : Type} (c : Syscall) (m : M Env A) (k : A -> M Env B) :
  starts_with_call c m -> (forall a, preserves syscalls_extend (k a)) ->
  starts_with_call c (bind m k).
Proof.
  intros Hm Hk st. unfold bind. destruct (Hm st) as [l Hl].
  destruct (m st) as [[a | n |] st1]; simpl in *; try (exists l; exact Hl).
  destruct (Hk a st1) as [l' Hl']. exists (l ++ l')%list.
  rewrite Hl', Hl, <- app_assoc. reflexivity.
Qed.

Lemma stat_starts (path : string) : starts_with_call (CallStat path) (stat path).
Proof.
  intros st. rewrite stat_run. exists [].
  destruct (Posix.stat_model (fs st) path); reflexivity.
Qed.

Lemma MakeDirectoryHierarchy_starts (path : string) :
  starts_with_call (CallStat (c_str path)) (MakeDirectoryHierarchy path).
Proof.
  unfold MakeDirectoryHierarchy. simpl.
  apply starts_with_call_bind; [apply stat_starts | intros sb; se_tac].
Qed.

(** A name that passes the test is handed to the directory materializer:
    the next system call is the [stat] of its parent directory. *)
Lemma ExtractOne_checked_starts (cfg : Flags) (zah : ZipArchive) (entry : ZipEntry)
  (name : string) :
  starts_with_call (CallStat (c_str (Dirname name)))
                   (ExtractOne_checked cfg zah entry name).
Proof.
  unfold ExtractOne_checked, ExtractOne_directory, ExtractOne_file.
  apply starts_with_call_bind; [apply MakeDirectoryHierarchy_starts | intros ok; se_tac].
Qed.

(** C2 (as amended): ExtractOne ends the run with status 1 and a
    [bad filename] diagnostic, before any system call and with the file
    system untouched, exactly for the names that begin with a slash, begin
    with [../] or hold [/../]; every other name passes, and the next thing
    that happens is the [stat] of its parent directory. *)
Theorem ExtractOne_filename_guard (cfg : Flags) (zah : ZipArchive) (entry : ZipEntry)
  (name : string) (st : Env) :
  let rejected :=
    begins_with name "/" \/ begins_with name "../" \/ contains name "/../" in
  (rejected ->
     ExtractOne cfg zah entry name st =
       (Exit 1, put_stderr (mkDiagnostic 0 "bad filename %s" [AStr (c_str name)]) st)
     /\ fs (snd (ExtractOne cfg zah entry name st)) = fs st
     /\ syscalls (snd (ExtractOne cfg zah entry name st)) = syscalls st)
  /\ (~ rejected ->
        ExtractOne cfg zah entry name st = ExtractOne_checked cfg zah entry name st
        /\ exists l,
             syscalls (snd (ExtractOne cfg zah entry name st)) =
               (syscalls st ++ CallStat (c_str (Dirname name)) :: l)%list).
Proof.
  cbv zeta. split.
  - intros Hbad. apply bad_filename_iff in Hbad.
    assert (Hrun : ExtractOne cfg zah entry name st =
              (Exit 1, put_stderr (mkDiagnostic 0 "bad filename %s" [AStr (c_str name)]) st)).
    { unfold ExtractOne. rewrite Hbad. reflexivity. }
    rewrite Hrun. repeat split.
  - intros Hok.
    assert (Hgood : bad_filename name = false).
    { destruct (bad_filename name) eqn:Hb; [| reflexivity].
      exfalso. apply Hok, bad_filename_iff, Hb. }
    assert (Hrun : ExtractOne cfg zah entry name st =
                   ExtractOne_checked cfg zah entry name st).
    { unfold ExtractOne. rewrite Hgood. reflexivity. }
    split; [exact Hrun |]. rewrite Hrun. apply ExtractOne_checked_starts.
Qed.

(** C2 as stated fails on the name [..]: its first segment is [..], yet it
    passes the test, and with overwriting off the entry is skipped and the
    run goes on. *)
Lemma ExtractOne_admits_dotdot :
  escapes_as_specified ".."
  /\ bad_filename ".." = false
  /\ fst (ExtractOne unzip_flags (archive_of []) (file_entry 3 3) ".."
                     (start_env kNever work_fs [])) = Ret tt.
Proof.
  split; [right; left; reflexivity |].
  split; vm_compute; reflexivity.
Qed.

(** ** Names that end with a slash *)

Lemma substring_all (x : string) : String.substring 0 (String.length x) x = x.
Proof. induction x as [| c x IH]; simpl; [reflexivity | rewrite IH; reflexivity]. Qed.

Lemma substring_skip (a b : string) (n : nat) :
  String.substring (String.length a) n (a +:+ b) = String.substring 0 n b.
Proof. induction a as [| c a IH]; simpl; [reflexivity | exact IH]. Qed.

Lemma length_append (a b : string) :
  String.length (a +:+ b) = (String.length a + String.length b)%nat.
Proof. induction a as [| c a IH]; simpl; [reflexivity | rewrite IH; reflexivity]. Qed.

Lemma substring_split (s : string) (k : nat) :
  (k <= String.length s)%nat ->
  s = String.substring 0 k s +:+ String.substring k (String.length s - k) s.
Proof.
  revert k. induction s as [| c s IH]; intros k Hk.
  - destruct k; reflexivity.
  - destruct k as [| k].
    + simpl. rewrite substring_all. reflexivity.
    + simpl in *. rewrite <- IH by lia. reflexivity.
Qed.

Lemma EndsWith_ends_with (s x : string) :
  Base.EndsWith s x = true <-> ends_with s x.
Proof.
  unfold Base.EndsWith, ends_with. rewrite andb_true_iff, Nat.leb_le, String.eqb_eq.
  split.
  - intros [Hlen Hsub].
    exists (String.substring 0 (String.length s - String.length x) s).
    rewrite (substring_split s (String.length s - String.length x)) at 1 by lia.
    replace (String.length s - (String.length s - String.length x))%nat
      with (String.length x) by lia.
    rewrite Hsub. reflexivity.
  - intros [front ->]. rewrite length_append. split; [lia |].
    replace (String.length front + String.length x - String.length x)%nat
      with (String.length front) by lia.
    rewrite substring_skip. apply substring_all.
Qed.

(** ** Directory entries *)

Lemma mkdir_starts (path : string) (mode : Z) :
  starts_with_call (CallMkdir path mode) (mkdir path mode).
Proof.
  intros st. rewrite mkdir_run. exists [].
  destruct (Posix.mkdir_model (fs st) path mode); reflexivity.
Qed.

Lemma ExtractOne_directory_starts (entry : ZipEntry) (name dst : string) :
  starts_with_call (CallMkdir (c_str name) (unix_mode entry))
                   (ExtractOne_directory entry name dst).
Proof.
  unfold ExtractOne_directory.
  apply starts_with_call_bind; [apply mkdir_starts | intros r; se_tac].
Qed.

Lemma error_run (status errnum : Z) (format : string) (args : list Arg) (st : Env) :
  error status errnum format args st =
    (if status =? 0 then Ret tt else Exit status,
     put_stderr (mkDiagnostic errnum format args) st).
Proof. unfold error. run_steps. destruct (status =? 0); reflexivity. Qed.

Lemma ExtractOne_directory_outcome (cfg : Flags) (entry : ZipEntry) (name : string)
  (st1 : Env) :
  directory_entry_outcome cfg entry name st1
    (ExtractOne_directory entry name (display_path cfg name) st1).
Proof.
  unfold directory_entry_outcome, ExtractOne_directory. cbv zeta.
  rewrite bind_run, mkdir_run.
  destruct (Posix.mkdir_model (fs st1) (c_str name) (unix_mode entry))
    as [e | f'] eqn:Hmk; cbv beta iota; [| reflexivity].
  change (-1 =? -1) with true. cbv iota.
  rewrite bind_run, get_run. cbv beta iota. simpl errno.
  destruct (e =? Posix.EEXIST) eqn:He; simpl andb.
  - rewrite !bind_run, stat_run. simpl fs. unfold Posix.is_directory.
    destruct (Posix.stat_model (fs st1) (c_str name)) as [e' | mode] eqn:Hstat;
      cbv beta iota.
    + rewrite ret_run. cbv beta iota. rewrite bind_run, get_run. cbv beta iota.
      rewrite error_run. simpl. repeat split. eexists. reflexivity.
    + rewrite ret_run. cbv beta iota.
      destruct (Posix.S_ISDIR mode).
      * rewrite ret_run. split; reflexivity.
      * rewrite bind_run, get_run. cbv beta iota.
        rewrite error_run. simpl. repeat split. eexists. reflexivity.
  - rewrite bind_run, ret_run. cbv beta iota. rewrite bind_run, get_run.
    cbv beta iota. rewrite error_run. simpl. repeat split. eexists. reflexivity.
Qed.

(** C6: for a name that ends with a slash ExtractOne makes no system call
    but [stat] and [mkdir], so no file is created or written and nothing
    is printed; and once the name has passed the filename test and its
    parent directory exists, it calls [mkdir] with the mode of the entry,
    returns when that succeeds or fails with EEXIST on a directory, and
    ends the run with status 1 on any other failure. *)
Theorem ExtractOne_directory_entry (cfg : Flags) (zah : ZipArchive) (entry : ZipEntry)
  (name : string) (st : Env) :
  ends_with name "/" ->
  only_directories st (snd (ExtractOne cfg zah entry name st))
  /\ (bad_filename name = false ->
      forall st1,
        MakeDirectoryHierarchy (Dirname name) st = (Ret true, st1) ->
        directory_entry_outcome cfg entry name st1 (ExtractOne cfg zah entry name st)
        /\ exists l,
             syscalls (snd (ExtractOne cfg zah entry name st)) =
               (syscalls st1 ++ CallMkdir (c_str name) (unix_mode entry) :: l)%list).
Proof.
  intros Hend. apply EndsWith_ends_with in Hend. split.
  - unfold ExtractOne, ExtractOne_checked. rewrite Hend. cbv zeta iota.
    revert st.
    match goal with
    | |- forall st, only_directories st (snd (?m st)) =>
        change (preserves only_directories m)
    end.
    unfold MakeDirectoryHierarchy, ExtractOne_directory. od_tac.
  - intros Hgood st1 Hmdh.
    assert (Hrun : ExtractOne cfg zah entry name st =
                   ExtractOne_directory entry name (display_path cfg name) st1).
    { unfold ExtractOne, ExtractOne_checked. rewrite Hgood, Hend. cbv zeta iota.
      unfold bind at 1. unfold ret at 1.
      rewrite (bind_Ret _ _ _ _ _ Hmdh). reflexivity. }
    rewrite Hrun. clear Hrun.
    split; [apply ExtractOne_directory_outcome | apply ExtractOne_directory_starts].
Qed.

Lemma ExtractOne_directory_entry_witness :
  only_directories (start_env kPrompt work_fs [])
    (snd (ExtractOne unzip_flags (archive_of []) dir_entry "dir/"
                     (start_env kPrompt work_fs [])))
  /\ fst (ExtractOne unzip_flags (archive_of []) dir_entry "dir/"
                     (start_env kPrompt work_fs [])) = Ret tt
  /\ Posix.nodes (fs (snd (ExtractOne unzip_flags (archive_of []) dir_entry "dir/"
                                      (start_env kPrompt work_fs []))))
       !! ["work"; "dir"] = Some (Posix.Directory 493).
Proof.
  destruct (ExtractOne_directory_entry unzip_flags (archive_of []) dir_entry "dir/"
              (start_env kPrompt work_fs []) (ex_intro _ "dir" eq_refl))
    as [Honly _].
  split; [exact Honly |]. split; vm_compute; reflexivity.
Defined.

(** ** The overwrite prompt *)

Lemma getline_run (st : Env) :
  getline st =
    match stdin st with
    | [] => (Ret None, log_syscall CallGetline st)
    | line :: rest =>
        (Ret (Some (line, getline_capacity line)),
         set_stdin rest (log_syscall CallGetline st))
    end.
Proof. unfold getline. run_prog. destruct (stdin st); reflexivity. Qed.

Lemma getline_capacity_nonzero (line : string) : (getline_capacity line =? 0) = false.
Proof. unfold getline_capacity. apply Z.eqb_neq. lia. Qed.

Lemma no_answer_tests (c : ascii) :
  answer_of c = None ->
  Ascii.eqb c "y" = false /\ Ascii.eqb c "n" = false
  /\ Ascii.eqb c "A" = false /\ Ascii.eqb c "N" = false.
Proof.
  unfold answer_of.
  destruct (Ascii.eqb c "y"); [discriminate |].
  destruct (Ascii.eqb c "n"); [discriminate |].
  destruct (Ascii.eqb c "A"); [discriminate |].
  destruct (Ascii.eqb c "N"); [discriminate |]. auto.
Qed.

Lemma after_getlines_step (n : nat) (rest pending : list string) (mode : OverwriteMode)
  (s : Env) :
  after_getlines n rest mode (set_stdin pending (log_syscall CallGetline s))
  = after_getlines (S n) rest mode s.
Proof.
  unfold after_getlines. simpl. rewrite <- app_assoc. reflexivity.
Qed.

(** Lines that are no answer are read and dropped; the first line that is
    one decides. *)
Lemma PromptOverwrite_loop_answer (skipped : list string) :
  forall (fuel : nat) (s : Env) (line : string) (rest : list string) (a : Answer),
    stdin s = (skipped ++ line :: rest)%list ->
    Forall no_answer skipped ->
    answer_of (first_char line) = Some a ->
    (List.length skipped < fuel)%nat ->
    PromptOverwrite_loop fuel s =
      (Ret (overwrites a),
       after_getlines (S (List.length skipped)) rest (mode_after a (overwrite_mode s)) s).
Proof.
  induction skipped as [| l0 skipped IH]; intros fuel s line rest a Hin Hskip Ha Hfuel.
  - destruct fuel as [| fuel]; [simpl in Hfuel; lia |]. simpl PromptOverwrite_loop.
    rewrite bind_run, getline_run, Hin. simpl app. cbv beta iota.
    rewrite getline_capacity_nonzero. cbv iota.
    unfold answer_of in Ha.
    destruct (Ascii.eqb (first_char line) "y").
    { injection Ha as <-. reflexivity. }
    destruct (Ascii.eqb (first_char line) "n").
    { injection Ha as <-. reflexivity. }
    destruct (Ascii.eqb (first_char line) "A").
    { injection Ha as <-. reflexivity. }
    destruct (Ascii.eqb (first_char line) "N"); [| discriminate].
    injection Ha as <-. reflexivity.
  - destruct fuel as [| fuel]; [simpl in Hfuel; lia |]. simpl PromptOverwrite_loop.
    rewrite bind_run, getline_run, Hin. simpl app. cbv beta iota.
    rewrite getline_capacity_nonzero. cbv iota.
    apply Forall_cons in Hskip. destruct Hskip as [H0 Hskip].
    destruct (no_answer_tests _ H0) as (-> & -> & -> & ->).
    rewrite (IH fuel _ line rest a); try assumption.
    + simpl overwrite_mode. rewrite after_getlines_step. reflexivity.
    + reflexivity.
    + simpl in Hfuel. lia.
Qed.

(** When the input ends before any answer, the diagnostic ends the run. *)
Lemma PromptOverwrite_loop_eof (skipped : list string) :
  forall (fuel : nat) (s : Env),
    stdin s = skipped ->
    Forall no_answer skipped ->
    (List.length skipped < fuel)%nat ->
    PromptOverwrite_loop fuel s =
      (Exit 1,
       put_stderr eof_diagnostic
         (after_getlines (S (List.length skipped)) [] (overwrite_mode s) s)).
Proof.
  induction skipped as [| l0 skipped IH]; intros fuel s Hin Hskip Hfuel.
  - destruct fuel as [| fuel]; [simpl in Hfuel; lia |]. simpl PromptOverwrite_loop.
    rewrite bind_run, getline_run, Hin. cbv beta iota.
    rewrite bind_run, error_run. simpl.
    unfold put_stderr, after_getlines, log_syscall. simpl. rewrite Hin. reflexivity.
  - destruct fuel as [| fuel]; [simpl in Hfuel; lia |]. simpl PromptOverwrite_loop.
    rewrite bind_run, getline_run, Hin. cbv beta iota.
    rewrite getline_capacity_nonzero. cbv iota.
    apply Forall_cons in Hskip. destruct Hskip as [H0 Hskip].
    destruct (no_answer_tests _ H0) as (-> & -> & -> & ->).
    rewrite (IH fuel _); try assumption.
    + simpl overwrite_mode. rewrite after_getlines_step. reflexivity.
    + reflexivity.
    + simpl in Hfuel. lia.
Qed.

Lemma PromptOverwrite_run (dst : string) (st : Env) :
  PromptOverwrite dst st =
    PromptOverwrite_loop (S (List.length (stdin st))) (prompted dst st).
Proof. unfold PromptOverwrite, printf, fflush_stdout. run_steps. reflexivity. Qed.

Lemma PromptOverwrite_answer (dst : string) (st : Env) (skipped : list string)
  (line : string) (rest : list string) (a : Answer) :
  stdin st = (skipped ++ line :: rest)%list ->
  Forall no_answer skipped ->
  answer_of (first_char line) = Some a ->
  PromptOverwrite dst st =
    (Ret (overwrites a),
     after_getlines (S (List.length skipped)) rest (mode_after a (overwrite_mode st))
                    (prompted dst st)).
Proof.
  intros Hin Hskip Ha. rewrite PromptOverwrite_run.
  change (overwrite_mode st) with (overwrite_mode (prompted dst st)).
  apply (PromptOverwrite_loop_answer skipped _ _ line rest a); try assumption.
  rewrite Hin, length_app. simpl. lia.
Qed.

Lemma PromptOverwrite_eof (dst : string) (st : Env) :
  Forall no_answer (stdin st) ->
  PromptOverwrite dst st =
    (Exit 1,
     put_stderr eof_diagnostic
       (after_getlines (S (List.length (stdin st))) [] (overwrite_mode st)
                       (prompted dst st))).
Proof.
  intros Hskip. rewrite PromptOverwrite_run.
  change (overwrite_mode st) with (overwrite_mode (prompted dst st)).
  apply PromptOverwrite_loop_eof; [reflexivity | exact Hskip | simpl; lia].
Qed.

(** C4 (the code at the failing input): when standard input ends before
    an answer is read, PromptOverwrite prints the diagnostic and ends the
    run with status 1; the overwrite mode is left as it was, not set to
    Never, and nothing returns to skip the entry. *)
Theorem PromptOverwrite_eof_exits (dst : string) (st : Env) :
  Forall no_answer (stdin st) ->
  fst (PromptOverwrite dst st) = Exit 1
  /\ overwrite_mode (snd (PromptOverwrite dst st)) = overwrite_mode st
  /\ stderr (snd (PromptOverwrite dst st)) = (stderr st ++ [eof_diagnostic])%list
  /\ fs (snd (PromptOverwrite dst st)) = fs st.
Proof.
  intros Hskip. rewrite (PromptOverwrite_eof dst st Hskip). repeat split.
Qed.

Lemma PromptOverwrite_eof_exits_witness :
  fst (PromptOverwrite "f" (start_env kPrompt work_fs_with_f [])) = Exit 1
  /\ overwrite_mode (snd (PromptOverwrite "f" (start_env kPrompt work_fs_with_f [])))
     = kPrompt
  /\ stderr (snd (PromptOverwrite "f" (start_env kPrompt work_fs_with_f [])))
     = [eof_diagnostic]
  /\ fs (snd (PromptOverwrite "f" (start_env kPrompt work_fs_with_f [])))
     = work_fs_with_f.
Proof.
  exact (PromptOverwrite_eof_exits "f" (start_env kPrompt work_fs_with_f [])
           (Forall_nil_2 no_answer)).
Defined.

(** ** The overwrite policy *)

Lemma open_run (path : string) (flags mode : Z) (st : Env) :
  open path flags mode st =
    match Posix.open_model (fs st) path flags mode with
    | inr (f', file) =>
        let fd := lowest_free (List.map fst (fds st)) 3 (List.length (fds st)) in
        (Ret fd,
         set_fds ((fd, file) :: fds st)
                 (set_fs f' (log_syscall (CallOpen path flags mode) st)))
    | inl e => (Ret (-1), set_errno e (log_syscall (CallOpen path flags mode) st))
    end.
Proof.
  unfold open. run_prog.
  destruct (Posix.open_model (fs st) path flags mode) as [e | [f' file]]; reflexivity.
Qed.


Lemma lowest_free_ge (used : list Z) (fuel : nat) (candidate : Z) :
  candidate <= lowest_free used candidate fuel.
Proof.
  revert candidate. induction fuel as [| fuel IH]; intros candidate; simpl; [lia |].
  destruct (existsb (Z.eqb candidate) used); [| lia].
  specialize (IH (candidate + 1)). lia.
Qed.

(** What [open] for writing gives back is a regular file. *)
Lemma open_model_regular (f f' : Posix.FileSystem) (path : string) (flags mode : Z)
  (file : list string) :
  Posix.open_model f path flags mode = inr (f', file) ->
  exists perm data, Posix.nodes f' !! file = Some (Posix.Regular perm data).
Proof.
  unfold Posix.open_model.
  destruct (Posix.resolve f path) as [e | p]; [discriminate |].
  destruct (Posix.nodes f !! p) as [[perm | perm data] |] eqn:Hp.
  - destruct (Posix.has_flag flags Posix.O_CREAT && Posix.has_flag flags Posix.O_EXCL);
      discriminate.
  - destruct (Base.EndsWith path "/"); [discriminate |].
    destruct (Posix.has_flag flags Posix.O_CREAT && Posix.has_flag flags Posix.O_EXCL);
      [discriminate |].
    destruct (Posix.has_flag flags Posix.O_TRUNC); intros H; injection H as <- <-.
    + simpl. rewrite lookup_insert_eq. eauto.
    + eauto.
  - destruct (negb (Posix.has_flag flags Posix.O_CREAT)); [discriminate |].
    destruct (Base.EndsWith path "/"); [discriminate |].
    intros H; injection H as <- <-. simpl. rewrite lookup_insert_eq. eauto.
Qed.


Lemma lookup_fd_head (fd : Z) (file : list string) (table : list (Z * list string)) :
  lookup_fd fd ((fd, file) :: table) = Some file.
Proof. unfold lookup_fd. simpl. rewrite Z.eqb_refl. reflexivity. Qed.

(** Extraction into an open descriptor: the file behind it ends up with
    the bytes the parser produced, and a negative status ends the run. *)
Lemma ExtractOne_write_effect (cfg : Flags) (zah : ZipArchive) (entry : ZipEntry)
  (dst : string) (fd : Z) (file : list string) (s : Env) :
  lookup_fd fd (fds s) = Some file ->
  fst (ExtractOne_write cfg zah entry dst fd s) =
    (if fst (extract zah entry) <? 0 then Exit 1 else Ret tt)
  /\ fs (snd (ExtractOne_write cfg zah entry dst fd s)) =
       write_file (fs s) file (snd (extract zah entry)).
Proof.
  intros Hfd. unfold ExtractOne_write, ExtractEntryToFile, printf, close, error.
  destruct (extract zah entry) as [status data] eqn:Hex.
  destruct (negb (flag_q cfg)); run_prog; rewrite Hfd; simpl;
    destruct (status <? 0); simpl; split; reflexivity.
Qed.



Lemma ExtractOne_open_refused (cfg : Flags) (zah : ZipArchive) (entry : ZipEntry)
  (name dst : string) (fd : Z) (s : Env) (e : Z) :
  Posix.open_model (fs s) (c_str name) create_truncate (unix_mode entry) = inl e ->
  ExtractOne_open cfg zah entry name dst true fd s =
    (Exit 1,
     put_stderr (mkDiagnostic e "couldn't create file %s" [AStr (c_str dst)])
       (set_errno e
          (log_syscall (CallOpen (c_str name) create_truncate (unix_mode entry)) s))).
Proof.
  intros Hopen. unfold ExtractOne_open.
  rewrite bind_run, open_run, Hopen. cbv beta iota.
  change (-1 =? -1) with true. cbv iota.
  rewrite !bind_run, get_run. cbv beta iota. rewrite error_run. reflexivity.
Qed.



(** The failing input of C4 inside ExtractOne: [f] exists, the mode is
    Prompt and standard input is at its end.  The run ends with status 1,
    the mode is still Prompt, and [f] keeps its bytes. *)
Example ExtractOne_prompt_eof_aborts :
  fst (ExtractOne unzip_flags (archive_of [(file_entry 3 3, "f")]) (file_entry 3 3) "f"
                  (start_env kPrompt work_fs_with_f [])) = Exit 1
  /\ overwrite_mode
       (snd (ExtractOne unzip_flags (archive_of [(file_entry 3 3, "f")])
                        (file_entry 3 3) "f" (start_env kPrompt work_fs_with_f [])))
     = kPrompt
  /\ stderr
       (snd (ExtractOne unzip_flags (archive_of [(file_entry 3 3, "f")])
                        (file_entry 3 3) "f" (start_env kPrompt work_fs_with_f [])))
     = [eof_diagnostic].
Proof. repeat split; vm_compute; reflexivity. Qed.

(** ** The iteration driver *)

Lemma on_env_run {A : Type} (m : M Env A) (r : Run) :
  on_env m r = (fst (m (env r)), set_env (snd (m (env r))) r).
Proof. unfold on_env. destruct (m (env r)); reflexivity. Qed.

Section Driver.

Variable fnmatch : string -> string -> Z -> Z.
Variable cfg : Flags.
Variable zah : ZipArchive.

(** ProcessOne never touches the cursor, and counts the entry exactly
    when the dispatched action returns. *)
Lemma ProcessOne_effect (entry : ZipEntry) (name : string) (r : Run) :
  parser_calls (snd (ProcessOne cfg zah entry name r)) = parser_calls r
  /\ (fst (ProcessOne cfg zah entry name r) = Ret tt ->
      totals (snd (ProcessOne cfg zah entry name r)) = add_entry (totals r) entry)
  /\ (fst (ProcessOne cfg zah entry name r) <> Ret tt ->
      totals (snd (ProcessOne cfg zah entry name r)) = totals r).
Proof.
  unfold ProcessOne. rewrite bind_run.
  assert (Hdispatch : forall m : M Env unit,
    let res := match on_env m r with
               | (Ret _, r') => modify (count_entry entry) r'
               | (Exit n, r') => (Exit n, r')
               | (Diverge, r') => (Diverge, r')
               end in
    parser_calls (snd res) = parser_calls r
    /\ (fst res = Ret tt -> totals (snd res) = add_entry (totals r) entry)
    /\ (fst res <> Ret tt -> totals (snd res) = totals r)).
  { intros m. cbv zeta. rewrite on_env_run.
    destruct (m (env r)) as [[[] | n |] e]; simpl; repeat split; try reflexivity;
      try discriminate; intros H; exfalso; apply H; reflexivity. }
  destruct (is_unzip cfg); [| apply Hdispatch].
  destruct (flag_l cfg || flag_v cfg); [apply Hdispatch |].
  destruct (flag_p cfg); apply Hdispatch.
Qed.

Lemma released_log_next (r : Run) : released (log_parser CallNext r) = released r.
Proof.
  unfold released, log_parser. simpl. rewrite List.filter_app, length_app. simpl. lia.
Qed.

(** The loop leaves the cursor alone; when it returns, it returns the
    status that ended the iteration, and the totals have been updated once
    for every accepted entry. *)
Lemma ProcessAll_loop_effect (pending : list (ZipEntry * string)) :
  forall r : Run,
    released (snd (ProcessAll_loop fnmatch cfg zah pending r)) = released r
    /\ (forall err,
          fst (ProcessAll_loop fnmatch cfg zah pending r) = Ret err ->
          err = iteration_end zah
          /\ totals (snd (ProcessAll_loop fnmatch cfg zah pending r)) =
               fold_left add_entry (List.map fst (accepted fnmatch cfg pending))
                         (totals r)).
Proof.
  induction pending as [| [entry name] rest IH]; intros r.
  - simpl ProcessAll_loop. rewrite bind_run, modify_run. cbv beta iota.
    rewrite ret_run. simpl fst. simpl snd.
    split; [apply released_log_next |].
    intros err H. injection H as <-. split; reflexivity.
  - simpl ProcessAll_loop. rewrite bind_run, modify_run. cbv beta iota.
    rewrite bind_run. unfold accepted. simpl List.filter.
    destruct (ShouldInclude fnmatch cfg name) eqn:Hinc.
    + destruct (ProcessOne_effect entry name (log_parser CallNext r))
        as (Hcalls & Hcount & _).
      destruct (ProcessOne cfg zah entry name (log_parser CallNext r))
        as [[[] | n |] r1] eqn:Hone; simpl in *.
      * destruct (IH r1) as [Hrel Htot]. split.
        -- rewrite Hrel. unfold released. rewrite Hcalls. apply released_log_next.
        -- intros err Herr. destruct (Htot err Herr) as [He Ht].
           split; [exact He |]. rewrite Ht, (Hcount eq_refl). reflexivity.
      * split; [| discriminate]. unfold released. rewrite Hcalls.
        apply released_log_next.
      * split; [| discriminate]. unfold released. rewrite Hcalls.
        apply released_log_next.
    + rewrite ret_run. cbv beta iota.
      destruct (IH (log_parser CallNext r)) as [Hrel Htot]. split.
      * rewrite Hrel. apply released_log_next.
      * intros err Herr. destruct (Htot err Herr) as [He Ht].
        split; [exact He | exact Ht].
Qed.

End Driver.

Lemma MaybeShowHeader_returns (cfg : Flags) (zah : ZipArchive) (e : Env) :
  fst (MaybeShowHeader cfg zah e) = Ret tt.
Proof.
  unfold MaybeShowHeader, printf.
  destruct (is_unzip cfg).
  - destruct (negb (flag_q cfg)); destruct (flag_v cfg); try destruct (flag_l cfg);
      reflexivity.
  - destruct (negb (flag_1 cfg) && bool_decide (includes cfg = ∅)
              && bool_decide (excludes cfg = ∅)); reflexivity.
Qed.

Lemma MaybeShowFooter_returns (cfg : Flags) (r : Run) :
  fst (MaybeShowFooter cfg r) = Ret tt
  /\ parser_calls (snd (MaybeShowFooter cfg r)) = parser_calls r
  /\ totals (snd (MaybeShowFooter cfg r)) = totals r.
Proof.
  unfold MaybeShowFooter, printf. rewrite bind_run, get_run. cbv beta iota.
  destruct (is_unzip cfg).
  - destruct (flag_v cfg); [rewrite on_env_run; repeat split |].
    destruct (flag_l cfg); [rewrite on_env_run; repeat split |].
    repeat split.
  - destruct (negb (flag_1 cfg) && bool_decide (includes cfg = ∅)
              && bool_decide (excludes cfg = ∅));
      [rewrite on_env_run; repeat split | repeat split].
Qed.

Lemma released_log_end (r : Run) :
  released (log_parser CallEndIteration r) = S (released r).
Proof.
  unfold released, log_parser. simpl. rewrite List.filter_app, length_app. simpl. lia.
Qed.

Lemma released_log_start (r : Run) :
  released (log_parser CallStartIteration r) = released r.
Proof.
  unfold released, log_parser. simpl. rewrite List.filter_app, length_app. simpl. lia.
Qed.

(** The two ways a run of ProcessAll ends: it returns, after an iteration
    that started, ended with the sentinel and was released once; or it
    does not return, and the cursor has not been released. *)
Lemma ProcessAll_cases (fnmatch : string -> string -> Z -> Z) (cfg : Flags)
  (zah : ZipArchive) (r : Run) :
  (fst (ProcessAll fnmatch cfg zah r) = Ret tt
   /\ released (snd (ProcessAll fnmatch cfg zah r)) = S (released r)
   /\ iteration_start zah = 0
   /\ iteration_end zah = kIterationEnd
   /\ totals (snd (ProcessAll fnmatch cfg zah r)) =
        fold_left add_entry (List.map fst (accepted fnmatch cfg (entries zah)))
                  (totals r))
  \/ (fst (ProcessAll fnmatch cfg zah r) <> Ret tt
      /\ released (snd (ProcessAll fnmatch cfg zah r)) = released r).
Proof.
  unfold ProcessAll. rewrite bind_run, on_env_run.
  pose proof (MaybeShowHeader_returns cfg zah (env r)) as Hh.
  destruct (MaybeShowHeader cfg zah (env r)) as [oh e0]. simpl in Hh. subst oh.
  simpl fst. simpl snd. cbv beta iota.
  rewrite bind_run, modify_run. cbv beta iota. rewrite bind_run.
  set (r1 := log_parser CallStartIteration (set_env e0 r)).
  assert (Hr1 : released r1 = released r /\ totals r1 = totals r).
  { split; [unfold r1; rewrite released_log_start; reflexivity | reflexivity]. }
  destruct Hr1 as [Hrel1 Htot1].
  destruct (iteration_start zah =? 0) eqn:Hstart.
  - change (negb true) with false. cbv iota.
    rewrite ret_run. cbv beta iota. rewrite bind_run.
    destruct (ProcessAll_loop_effect fnmatch cfg zah (entries zah) r1) as [Hrel Hret].
    destruct (ProcessAll_loop fnmatch cfg zah (entries zah) r1) as [[err | n |] r2];
      simpl in Hrel, Hret.
    + destruct (Hret err eq_refl) as [Herr Htot]. rewrite bind_run.
      destruct (err <? -1) eqn:Hfault.
      * rewrite on_env_run, error_run. simpl. right.
        split; [discriminate |].
        change (released (set_env ?e r2)) with (released r2). congruence.
      * rewrite ret_run. cbv beta iota. rewrite bind_run, modify_run. cbv beta iota.
        destruct (MaybeShowFooter_returns cfg (log_parser CallEndIteration r2))
          as (Hf1 & Hf2 & Hf3).
        left. split; [exact Hf1 |].
        split.
        { transitivity (released (log_parser CallEndIteration r2)).
          - unfold released. rewrite Hf2. reflexivity.
          - rewrite released_log_end, Hrel, Hrel1. reflexivity. }
        split; [apply Z.eqb_eq, Hstart |].
        split.
        -- pose proof (iteration_end_negative zah) as Hneg.
           apply Z.ltb_lt in Hneg. apply Z.ltb_ge in Hfault.
           unfold kIterationEnd. lia.
        -- rewrite Hf3. change (totals (log_parser CallEndIteration r2)) with (totals r2).
           rewrite Htot, Htot1. reflexivity.
    + right. simpl. split; [discriminate | congruence].
    + right. simpl. split; [discriminate | congruence].
  - change (negb false) with true. cbv iota.
    rewrite on_env_run, error_run. simpl. right.
    split; [discriminate |]. exact Hrel1.
Qed.

(** ** The bounded recursions return *)

Lemma retreat_length (p : ascii -> bool) (r : list ascii) :
  (List.length (Libc.retreat p r) <= List.length r)%nat.
Proof.
  induction r as [| c r IH]; simpl; [lia |].
  destruct r as [| c' r']; [simpl; lia |].
  destruct (p c); [| simpl; lia].
  simpl in IH. simpl. lia.
Qed.

Lemma dirname_rev_cases (r : list ascii) :
  Libc.dirname_rev r = ["."%char] \/ Libc.dirname_rev r = [slash]
  \/ (List.length (Libc.dirname_rev r) < List.length r)%nat.
Proof.
  unfold Libc.dirname_rev.
  pose proof (retreat_length Libc.is_slash r) as H1.
  pose proof (retreat_length Libc.not_slash (Libc.retreat Libc.is_slash r)) as H2.
  destruct (Libc.retreat Libc.not_slash (Libc.retreat Libc.is_slash r))
    as [| c [| c' r']]; [auto | destruct (Libc.is_slash c); auto |].
  right. right.
  pose proof (retreat_length Libc.is_slash (c' :: r')) as H3.
  simpl in *. lia.
Qed.

Lemma length_string_of_list_ascii (l : list ascii) :
  String.length (string_of_list_ascii l) = List.length l.
Proof. induction l as [| c l IH]; simpl; [reflexivity | rewrite IH; reflexivity]. Qed.

Lemma length_list_ascii_of_string (s : string) :
  List.length (list_ascii_of_string s) = String.length s.
Proof. induction s as [| c s IH]; simpl; [reflexivity | rewrite IH; reflexivity]. Qed.

Lemma dirname_cases (path : string) :
  Libc.dirname path = "." \/ Libc.dirname path = "/"
  \/ (String.length (Libc.dirname path) < String.length path)%nat.
Proof.
  unfold Libc.dirname.
  destruct (dirname_rev_cases (List.rev (list_ascii_of_string path))) as [H | [H | H]].
  - left. rewrite H. reflexivity.
  - right. left. rewrite H. reflexivity.
  - right. right.
    rewrite length_string_of_list_ascii, length_rev.
    rewrite length_rev, length_list_ascii_of_string in H. exact H.
Qed.

Lemma length_c_str (s : string) : (String.length (c_str s) <= String.length s)%nat.
Proof.
  induction s as [| c s IH]; simpl; [lia |].
  destruct (Ascii.eqb c NUL); simpl; lia.
Qed.

Lemma Dirname_cases (path : string) :
  Dirname path = "." \/ Dirname path = "/"
  \/ (String.length (Dirname path) < String.length path)%nat.
Proof.
  unfold Dirname. pose proof (length_c_str path) as Hc.
  destruct (dirname_cases (c_str path)) as [H | [H | H]]; [auto | auto |].
  right. right. lia.
Qed.

(** Adding or replacing a node where there is no directory leaves every
    directory a directory. *)
Lemma walk_insert_beside (f : Posix.FileSystem) (k : list string) (i : Posix.inode)
  (comps : list string) (cur q : list string) :
  (forall perm, Posix.nodes f !! k <> Some (Posix.Directory perm)) ->
  Posix.walk f cur comps = inr q ->
  Posix.walk (Posix.with_nodes f (<[k := i]> (Posix.nodes f))) cur comps = inr q.
Proof.
  intros Hk. revert cur. induction comps as [| c rest IH]; intros cur Hw.
  - exact Hw.
  - simpl in *. destruct (Posix.nodes f !! cur) as [[perm | perm data] |] eqn:Hcur;
      try discriminate.
    assert (Hne : k <> cur) by (intros ->; exact (Hk perm Hcur)).
    rewrite lookup_insert_ne by exact Hne. rewrite Hcur. apply IH, Hw.
Qed.

Lemma is_directory_insert_beside (f : Posix.FileSystem) (k : list string)
  (i : Posix.inode) (other : string) :
  (forall perm, Posix.nodes f !! k <> Some (Posix.Directory perm)) ->
  Posix.is_directory f other = true ->
  Posix.is_directory (Posix.with_nodes f (<[k := i]> (Posix.nodes f))) other = true.
Proof.
  intros Hk. unfold Posix.is_directory, Posix.stat_model, Posix.resolve.
  destruct (String.eqb other ""); [discriminate |]. simpl Posix.cwd.
  destruct (Posix.walk f (if Base.StartsWith other "/" then [] else Posix.cwd f)
                       (Posix.components other)) as [e | q] eqn:Hw; [discriminate |].
  rewrite (walk_insert_beside f k i _ _ q Hk Hw). simpl Posix.nodes.
  destruct (Posix.nodes f !! q) as [[perm | perm data] |] eqn:Hq; try discriminate.
  - assert (Hne : k <> q) by (intros ->; exact (Hk perm Hq)).
    rewrite lookup_insert_ne by exact Hne. rewrite Hq. auto.
  - destruct (Base.EndsWith other "/"); [discriminate |].
    rewrite S_ISDIR_regular. discriminate.
Qed.

Lemma open_model_keeps_directory (f f' : Posix.FileSystem) (path other : string)
  (flags mode : Z) (file : list string) :
  Posix.open_model f path flags mode = inr (f', file) ->
  Posix.is_directory f other = true -> Posix.is_directory f' other = true.
Proof.
  unfold Posix.open_model.
  destruct (Posix.resolve f path) as [e | p]; [discriminate |].
  destruct (Posix.nodes f !! p) as [[perm | perm data] |] eqn:Hp.
  - destruct (Posix.has_flag flags Posix.O_CREAT && Posix.has_flag flags Posix.O_EXCL);
      discriminate.
  - destruct (Base.EndsWith path "/"); [discriminate |].
    destruct (Posix.has_flag flags Posix.O_CREAT && Posix.has_flag flags Posix.O_EXCL);
      [discriminate |].
    destruct (Posix.has_flag flags Posix.O_TRUNC); intros H; injection H as <- <-.
    + apply is_directory_insert_beside. intros perm'. rewrite Hp. discriminate.
    + auto.
  - destruct (negb (Posix.has_flag flags Posix.O_CREAT)); [discriminate |].
    destruct (Base.EndsWith path "/"); [discriminate |].
    intros H; injection H as <- <-.
    apply is_directory_insert_beside. intros perm'. rewrite Hp. discriminate.
Qed.

Lemma write_file_keeps_directory (f : Posix.FileSystem) (file : list string)
  (data other : string) :
  Posix.is_directory f other = true ->
  Posix.is_directory (write_file f file data) other = true.
Proof.
  unfold write_file.
  destruct (Posix.nodes f !! file) as [[perm | perm old] |] eqn:Hfile; auto.
  apply is_directory_insert_beside. intros perm'. rewrite Hfile. discriminate.
Qed.

(** With the working directory and the root in place, the recursion of
    the materializer returns: the fuel it is given is never used up. *)
Lemma MakeDirectoryHierarchy_rec_returns (fuel : nat) :
  forall (path : string) (st : Env),
    dirs_ok st ->
    (S (String.length path) < fuel)%nat ->
    exists b st', MakeDirectoryHierarchy_rec fuel path st = (Ret b, st') /\ dirs_ok st'.
Proof.
  induction fuel as [| fuel IH]; intros path st Hdirs Hfuel; [lia |].
  simpl. rewrite bind_run, stat_run.
  assert (Hparent : forall s, fs s = fs st ->
            exists b st',
              MakeDirectoryHierarchy_rec fuel (Dirname path) s = (Ret b, st')
              /\ dirs_ok st').
  { intros s Hfs.
    assert (Hs : dirs_ok s) by (unfold dirs_ok; rewrite Hfs; exact Hdirs).
    destruct fuel as [| fuel']; [lia |].
    destruct (Dirname_cases path) as [H | [H | H]].
    - rewrite H. eexists. eexists. split.
      + apply MakeDirectoryHierarchy_rec_present. apply Hs.
      + exact Hs.
    - rewrite H. eexists. eexists. split.
      + apply MakeDirectoryHierarchy_rec_present. apply Hs.
      + exact Hs.
    - apply IH; [exact Hs | lia]. }
  assert (Hrest : forall s, fs s = fs st ->
    exists b st',
      (parent_ok <- MakeDirectoryHierarchy_rec fuel (Dirname path) ;;
       if negb parent_ok then ret false
       else r <- mkdir (c_str path) 511 ;; ret (negb (r =? -1))) s = (Ret b, st')
      /\ dirs_ok st').
  { intros s Hfs. destruct (Hparent s Hfs) as (b & s1 & Hp & [Hdot1 Hroot1]).
    rewrite (bind_Ret _ _ _ _ _ Hp). destruct b.
    - change (negb true) with false. cbv iota. rewrite bind_run, mkdir_run.
      destruct (Posix.mkdir_model (fs s1) (c_str path) 511) as [e | f'] eqn:Hmk.
      + eexists. eexists. split; [reflexivity | split; assumption].
      + eexists. eexists. split; [reflexivity |].
        split; simpl; eapply mkdir_model_keeps_directory; eassumption.
    - change (negb false) with true. cbv iota.
      eexists. eexists. split; [reflexivity | split; assumption]. }
  destruct (Posix.stat_model (fs st) (c_str path)) as [e | mode]; cbv beta iota.
  - apply Hrest. reflexivity.
  - destruct (Posix.S_ISDIR mode); [| apply Hrest; reflexivity].
    eexists. eexists. split; [reflexivity | exact Hdirs].
Qed.

Lemma MakeDirectoryHierarchy_returns (path : string) (st : Env) :
  dirs_ok st ->
  exists b st', MakeDirectoryHierarchy path st = (Ret b, st') /\ dirs_ok st'.
Proof.
  intros Hdirs. unfold MakeDirectoryHierarchy.
  apply MakeDirectoryHierarchy_rec_returns; [assumption | lia].
Qed.

(** Standard input either ends before any answer, or holds a first line
    that is one. *)
Lemma first_answer (lines : list string) :
  Forall no_answer lines
  \/ exists skipped line rest a,
       lines = (skipped ++ line :: rest)%list
       /\ Forall no_answer skipped
       /\ answer_of (first_char line) = Some a.
Proof.
  induction lines as [| l lines IH]; [left; constructor |].
  destruct (answer_of (first_char l)) as [a |] eqn:Ha.
  - right. exists [], l, lines, a. repeat split; [constructor | exact Ha].
  - destruct IH as [Hall | (skipped & line & rest & a & -> & Hskip & Hans)].
    + left. constructor; assumption.
    + right. exists (l :: skipped), line, rest, a.
      repeat split; [constructor; assumption | exact Hans].
Qed.

(** The prompt never runs out of fuel: it returns an answer or ends the
    run, and does not touch the file system. *)
Lemma PromptOverwrite_never_diverges (dst : string) (st : Env) :
  fst (PromptOverwrite dst st) <> Diverge
  /\ fs (snd (PromptOverwrite dst st)) = fs st.
Proof.
  destruct (first_answer (stdin st))
    as [Hall | (skipped & line & rest & a & Hin & Hskip & Hans)].
  - rewrite (PromptOverwrite_eof dst st Hall). split; [discriminate | reflexivity].
  - rewrite (PromptOverwrite_answer dst st skipped line rest a Hin Hskip Hans).
    split; [discriminate | reflexivity].
Qed.

(** *** Every run returns or exits *)

Section ReturnsOrExits.

Context {S : Type} (I : S -> Prop).

Lemma returns_or_exits_ret {A : Type} (a : A) : returns_or_exits I (ret a).
Proof. intros st Hst. split; [discriminate | exact Hst]. Qed.

Lemma returns_or_exits_get : returns_or_exits I get.
Proof. intros st Hst. split; [discriminate | exact Hst]. Qed.

Lemma returns_or_exits_exit {A : Type} (n : Z) : returns_or_exits I (exit (A := A) n).
Proof. intros st Hst. split; [discriminate | exact Hst]. Qed.

Lemma returns_or_exits_modify (f : S -> S) :
  (forall s, I s -> I (f s)) -> returns_or_exits I (modify f).
Proof. intros Hf st Hst. split; [discriminate | apply Hf, Hst]. Qed.

Lemma returns_or_exits_bind {A B : Type} (m : M S A) (k : A -> M S B) :
  returns_or_exits I m -> (forall a, returns_or_exits I (k a)) ->
  returns_or_exits I (bind m k).
Proof.
  intros Hm Hk st Hst. unfold bind. destruct (Hm st Hst) as [Hno Hinv].
  destruct (m st) as [[a | n |] st1]; simpl in *.
  - apply Hk, Hinv.
  - split; [discriminate | exact Hinv].
  - contradiction.
Qed.

End ReturnsOrExits.

Create HintDb returns.

Ltac returns_step prim :=
  first
    [ solve [ auto 1 with returns nocore ]
    | apply returns_or_exits_bind; [| intros ? ]
    | apply returns_or_exits_ret
    | apply returns_or_exits_get
    | apply returns_or_exits_exit
    | apply returns_or_exits_modify; intros ?; prim
    | match goal with
      | |- returns_or_exits _ (if ?b then _ else _) => destruct b
      | |- returns_or_exits _ (match ?x with _ => _ end) => destruct x
      | |- returns_or_exits _ (let (_, _) := ?x in _) => destruct x
      end ].

(** State updates that leave the file system alone keep [dirs_ok]. *)
Ltac dirs_prim := intros Hdirs; exact Hdirs.

Ltac returns_tac := repeat returns_step dirs_prim.

Lemma printf_returns (format : string) (args : list Arg) :
  returns_or_exits dirs_ok (printf format args).
Proof. unfold printf. returns_tac. Qed.

Lemma fflush_returns : returns_or_exits dirs_ok fflush_stdout.
Proof. unfold fflush_stdout. returns_tac. Qed.

Lemma error_returns (status errnum : Z) (format : string) (args : list Arg) :
  returns_or_exits dirs_ok (error status errnum format args).
Proof. unfold error. returns_tac. Qed.

Lemma stat_returns (path : string) : returns_or_exits dirs_ok (stat path).
Proof. unfold stat. returns_tac. Qed.

Lemma close_returns (fd : Z) : returns_or_exits dirs_ok (close fd).
Proof. unfold close. returns_tac. Qed.

Lemma WriteFully_returns (data : string) :
  returns_or_exits dirs_ok (WriteFully_stdout data).
Proof. unfold WriteFully_stdout. returns_tac. Qed.

Lemma ExtractToMemory_returns (zah : ZipArchive) (entry : ZipEntry) :
  returns_or_exits dirs_ok (ExtractToMemory zah entry).
Proof. unfold ExtractToMemory. returns_tac. Qed.

Lemma mkdir_returns (path : string) (mode : Z) :
  returns_or_exits dirs_ok (mkdir path mode).
Proof.
  intros st [Hdot Hroot]. rewrite mkdir_run.
  destruct (Posix.mkdir_model (fs st) path mode) as [e | f'] eqn:Hmk; simpl.
  - split; [discriminate | split; assumption].
  - split; [discriminate |].
    split; simpl; eapply mkdir_model_keeps_directory; eassumption.
Qed.

Lemma open_returns (path : string) (flags mode : Z) :
  returns_or_exits dirs_ok (open path flags mode).
Proof.
  intros st [Hdot Hroot]. rewrite open_run.
  destruct (Posix.open_model (fs st) path flags mode) as [e | [f' file]] eqn:Hop; simpl.
  - split; [discriminate | split; assumption].
  - split; [discriminate |].
    split; simpl; eapply open_model_keeps_directory; eassumption.
Qed.

Lemma ExtractEntryToFile_returns (zah : ZipArchive) (entry : ZipEntry) (fd : Z) :
  returns_or_exits dirs_ok (ExtractEntryToFile zah entry fd).
Proof.
  intros st [Hdot Hroot]. unfold ExtractEntryToFile. run_prog.
  destruct (lookup_fd fd (fds st)) as [file |]; simpl.
  - destruct (extract zah entry) as [status data]. simpl.
    split; [discriminate |].
    split; simpl; apply write_file_keeps_directory; assumption.
  - split; [discriminate | split; assumption].
Qed.

Lemma MakeDirectoryHierarchy_returns_or_exits (path : string) :
  returns_or_exits dirs_ok (MakeDirectoryHierarchy path).
Proof.
  intros st Hdirs.
  destruct (MakeDirectoryHierarchy_returns path st Hdirs) as (b & st' & Hrun & Hdirs').
  rewrite Hrun. split; [discriminate | exact Hdirs'].
Qed.

Lemma PromptOverwrite_returns_or_exits (dst : string) :
  returns_or_exits dirs_ok (PromptOverwrite dst).
Proof.
  intros st Hdirs. destruct (PromptOverwrite_never_diverges dst st) as [Hno Hfs].
  split; [exact Hno |]. unfold dirs_ok. rewrite Hfs. exact Hdirs.
Qed.

#[local] Hint Resolve printf_returns fflush_returns error_returns stat_returns
  close_returns WriteFully_returns ExtractToMemory_returns mkdir_returns open_returns
  ExtractEntryToFile_returns MakeDirectoryHierarchy_returns_or_exits
  PromptOverwrite_returns_or_exits : returns.

(** With the working directory and the root in place, ExtractOne returns
    or ends the run: neither of its bounded recursions runs out of fuel. *)
Lemma ExtractOne_returns_or_exits (cfg : Flags) (zah : ZipArchive) (entry : ZipEntry)
  (name : string) :
  returns_or_exits dirs_ok (ExtractOne cfg zah entry name).
Proof.
  unfold ExtractOne, ExtractOne_checked, ExtractOne_directory, ExtractOne_file,
    ExtractOne_open, ExtractOne_write.
  returns_tac.
Qed.

Lemma ExtractToPipe_returns_or_exits (zah : ZipArchive) (entry : ZipEntry)
  (name : string) :
  returns_or_exits dirs_ok (ExtractToPipe zah entry name).
Proof. unfold ExtractToPipe. returns_tac. Qed.

Lemma ListOne_returns_or_exits (cfg : Flags) (entry : ZipEntry) (name : string) :
  returns_or_exits dirs_ok (ListOne cfg entry name).
Proof. unfold ListOne. returns_tac. Qed.

Lemma InfoOne_returns_or_exits (cfg : Flags) (entry : ZipEntry) (name : string) :
  returns_or_exits dirs_ok (InfoOne cfg entry name).
Proof. unfold InfoOne. returns_tac. Qed.

Lemma MaybeShowHeader_returns_or_exits (cfg : Flags) (zah : ZipArchive) :
  returns_or_exits dirs_ok (MaybeShowHeader cfg zah).
Proof. unfold MaybeShowHeader. returns_tac. Qed.

Lemma on_env_returns {A : Type} (m : M Env A) :
  returns_or_exits dirs_ok m -> returns_or_exits run_dirs_ok (on_env m).
Proof.
  intros Hm r Hr. rewrite on_env_run. simpl. apply Hm, Hr.
Qed.

Ltac run_dirs_prim := intros Hdirs; exact Hdirs.

Ltac run_returns_tac :=
  repeat first
    [ apply on_env_returns
    | solve [ auto 1 with returns nocore ]
    | returns_step run_dirs_prim ].

#[local] Hint Resolve ExtractOne_returns_or_exits ExtractToPipe_returns_or_exits
  ListOne_returns_or_exits InfoOne_returns_or_exits MaybeShowHeader_returns_or_exits
  : returns.

Lemma MaybeShowFooter_returns_or_exits (cfg : Flags) :
  returns_or_exits run_dirs_ok (MaybeShowFooter cfg).
Proof. unfold MaybeShowFooter. run_returns_tac. Qed.

Lemma ProcessOne_returns_or_exits (cfg : Flags) (zah : ZipArchive) (entry : ZipEntry)
  (name : string) :
  returns_or_exits run_dirs_ok (ProcessOne cfg zah entry name).
Proof. unfold ProcessOne. run_returns_tac. Qed.

#[local] Hint Resolve MaybeShowFooter_returns_or_exits ProcessOne_returns_or_exits
  : returns.

Lemma ProcessAll_loop_returns_or_exits (fnmatch : string -> string -> Z -> Z)
  (cfg : Flags) (zah : ZipArchive) (pending : list (ZipEntry * string)) :
  returns_or_exits run_dirs_ok (ProcessAll_loop fnmatch cfg zah pending).
Proof.
  induction pending as [| [entry name] rest IH]; simpl; run_returns_tac.
Qed.

#[local] Hint Resolve ProcessAll_loop_returns_or_exits : returns.

(** A run that starts with the working directory and the root in place
    returns or exits: the conditions above on runs that return are
    conditions on every run that is not ended by a fatal error. *)
Lemma ProcessAll_returns_or_exits (fnmatch : string -> string -> Z -> Z)
  (cfg : Flags) (zah : ZipArchive) (r : Run) :
  dirs_ok (env r) ->
  fst (ProcessAll fnmatch cfg zah r) = Ret tt
  \/ exists status, fst (ProcessAll fnmatch cfg zah r) = Exit status.
Proof.
  intros Hdirs.
  assert (Hall : returns_or_exits run_dirs_ok (ProcessAll fnmatch cfg zah)).
  { unfold ProcessAll. run_returns_tac. }
  destruct (Hall r Hdirs) as [Hno _].
  destruct (fst (ProcessAll fnmatch cfg zah r)) as [[] | status |];
    [left; reflexivity | right; eauto | contradiction].
Qed.

(** *** Every exit is through [error] *)

Section ExitsThroughError.

Context {S : Type} (err : S -> list Diagnostic).

Lemma exits_through_error_ret {A : Type} (a : A) : exits_through_error err (ret a).
Proof. intros st n H. discriminate. Qed.

Lemma exits_through_error_get : exits_through_error err get.
Proof. intros st n H. discriminate. Qed.

Lemma exits_through_error_modify (f : S -> S) : exits_through_error err (modify f).
Proof. intros st n H. discriminate. Qed.

Lemma exits_through_error_diverge {A : Type} :
  exits_through_error err (diverge (A := A)).
Proof. intros st n H. discriminate. Qed.

Lemma exits_through_error_bind {A B : Type} (m : M S A) (k : A -> M S B) :
  exits_through_error err m -> (forall a, exits_through_error err (k a)) ->
  exits_through_error err (bind m k).
Proof.
  intros Hm Hk st n. unfold bind. specialize (Hm st).
  destruct (m st) as [[a | n' |] st1]; simpl in *.
  - apply Hk.
  - intros H. injection H as <-. apply Hm. reflexivity.
  - discriminate.
Qed.

End ExitsThroughError.

Create HintDb exits.

Ltac exits_step :=
  first
    [ solve [ auto 1 with exits nocore ]
    | apply exits_through_error_bind; [| intros ? ]
    | apply exits_through_error_ret
    | apply exits_through_error_get
    | apply exits_through_error_modify
    | apply exits_through_error_diverge
    | match goal with
      | |- exits_through_error _ (if ?b then _ else _) => destruct b
      | |- exits_through_error _ (match ?x with _ => _ end) => destruct x
      | |- exits_through_error _ (let (_, _) := ?x in _) => destruct x
      end ].

Ltac exits_tac := repeat exits_step.

(** [error] with status 1 is the one place where the process ends: its
    diagnostic is then the last one on standard error. *)
Lemma error_exits (errnum : Z) (format : string) (args : list Arg) :
  exits_through_error stderr (error 1 errnum format args).
Proof.
  intros st n H. rewrite error_run in *. simpl in *. injection H as <-.
  split; [reflexivity |]. eexists. apply last_snoc.
Qed.

#[local] Hint Resolve error_exits : exits.

Lemma MakeDirectoryHierarchy_rec_exits (fuel : nat) :
  forall path, exits_through_error stderr (MakeDirectoryHierarchy_rec fuel path).
Proof.
  induction fuel as [| fuel IH]; intros path; simpl.
  - apply exits_through_error_diverge.
  - unfold stat, mkdir. exits_tac; apply IH.
Qed.

Lemma PromptOverwrite_loop_exits (fuel : nat) :
  exits_through_error stderr (PromptOverwrite_loop fuel).
Proof.
  induction fuel as [| fuel IH]; simpl.
  - apply exits_through_error_diverge.
  - unfold getline. exits_tac; apply IH.
Qed.

#[local] Hint Resolve MakeDirectoryHierarchy_rec_exits PromptOverwrite_loop_exits : exits.

Lemma ExtractOne_exits (cfg : Flags) (zah : ZipArchive) (entry : ZipEntry)
  (name : string) :
  exits_through_error stderr (ExtractOne cfg zah entry name).
Proof.
  unfold ExtractOne, ExtractOne_checked, ExtractOne_directory, ExtractOne_file,
    ExtractOne_open, ExtractOne_write, MakeDirectoryHierarchy, PromptOverwrite,
    ExtractEntryToFile, printf, fflush_stdout, stat, mkdir, open, close.
  exits_tac.
Qed.

Lemma ExtractToPipe_exits (zah : ZipArchive) (entry : ZipEntry) (name : string) :
  exits_through_error stderr (ExtractToPipe zah entry name).
Proof. unfold ExtractToPipe, ExtractToMemory, WriteFully_stdout. exits_tac. Qed.

Lemma ListOne_exits (cfg : Flags) (entry : ZipEntry) (name : string) :
  exits_through_error stderr (ListOne cfg entry name).
Proof. unfold ListOne, printf. cbv zeta. exits_tac. Qed.

Lemma InfoOne_exits (cfg : Flags) (entry : ZipEntry) (name : string) :
  exits_through_error stderr (InfoOne cfg entry name).
Proof. unfold InfoOne, printf. cbv zeta. exits_tac. Qed.

Lemma MaybeShowHeader_exits (cfg : Flags) (zah : ZipArchive) :
  exits_through_error stderr (MaybeShowHeader cfg zah).
Proof. unfold MaybeShowHeader, printf. exits_tac. Qed.

Lemma on_env_exits {A : Type} (m : M Env A) :
  exits_through_error stderr m ->
  exits_through_error (fun r => stderr (env r)) (on_env m).
Proof. intros Hm r n. rewrite on_env_run. simpl. apply Hm. Qed.

#[local] Hint Resolve ExtractOne_exits ExtractToPipe_exits ListOne_exits InfoOne_exits
  MaybeShowHeader_exits : exits.

Ltac run_exits_tac :=
  repeat first
    [ apply on_env_exits
    | solve [ auto 1 with exits nocore ]
    | exits_step ].

Lemma MaybeShowFooter_exits (cfg : Flags) :
  exits_through_error (fun r => stderr (env r)) (MaybeShowFooter cfg).
Proof. unfold MaybeShowFooter, printf. cbv zeta. run_exits_tac. Qed.

Lemma ProcessOne_exits (cfg : Flags) (zah : ZipArchive) (entry : ZipEntry)
  (name : string) :
  exits_through_error (fun r => stderr (env r)) (ProcessOne cfg zah entry name).
Proof. unfold ProcessOne. run_exits_tac. Qed.

#[local] Hint Resolve MaybeShowFooter_exits ProcessOne_exits : exits.

Lemma ProcessAll_loop_exits (fnmatch : string -> string -> Z -> Z)
  (cfg : Flags) (zah : ZipArchive) (pending : list (ZipEntry * string)) :
  exits_through_error (fun r => stderr (env r)) (ProcessAll_loop fnmatch cfg zah pending).
Proof.
  induction pending as [| [entry name] rest IH]; simpl; run_exits_tac.
Qed.

#[local] Hint Resolve ProcessAll_loop_exits : exits.

(** Whenever a run of ProcessAll ends the process, it does so with status
    1 and the diagnostic of [error] is the last line on standard error. *)
Lemma ProcessAll_exits (fnmatch : string -> string -> Z -> Z)
  (cfg : Flags) (zah : ZipArchive) :
  exits_through_error (fun r => stderr (env r)) (ProcessAll fnmatch cfg zah).
Proof. unfold ProcessAll. run_exits_tac. Qed.

(** ** The cursor *)

(** C5 (as amended): when ProcessAll returns, the cursor has been released
    exactly once, and the iteration had ended with the no-more-entries
    status.  When fetching the next entry ends with a fault status (below
    -1), and on every other way the run is cut short, ProcessAll does not
    return and the cursor is not released: whenever the process ends, it
    ends with status 1 and the diagnostic of [error] is the last one on
    standard error; and with the working directory and the root in place
    the process does end, so that a fault status always leads to an exit
    with status 1. *)
Theorem ProcessAll_releases_cursor (fnmatch : string -> string -> Z -> Z) (cfg : Flags)
  (zah : ZipArchive) (r : Run) :
  let result := ProcessAll fnmatch cfg zah r in
  (fst result = Ret tt ->
     released (snd result) = S (released r) /\ iteration_end zah = kIterationEnd)
  /\ (fst result <> Ret tt -> released (snd result) = released r)
  /\ (iteration_end zah < kIterationEnd ->
      fst result <> Ret tt /\ released (snd result) = released r)
  /\ (forall status,
        fst result = Exit status ->
        status = 1
        /\ exists d, last (stderr (env (snd result))) = Some d)
  /\ (run_dirs_ok r ->
      fst result <> Diverge
      /\ (fst result <> Ret tt ->
          fst result = Exit 1
          /\ released (snd result) = released r
          /\ exists d, last (stderr (env (snd result))) = Some d)
      /\ (iteration_end zah < kIterationEnd -> fst result = Exit 1)).
Proof.
  cbv zeta.
  pose proof (ProcessAll_exits fnmatch cfg zah r) as Hexit.
  assert (Hcursor :
    (fst (ProcessAll fnmatch cfg zah r) = Ret tt ->
       released (snd (ProcessAll fnmatch cfg zah r)) = S (released r)
       /\ iteration_end zah = kIterationEnd)
    /\ (fst (ProcessAll fnmatch cfg zah r) <> Ret tt ->
        released (snd (ProcessAll fnmatch cfg zah r)) = released r)
    /\ (iteration_end zah < kIterationEnd ->
        fst (ProcessAll fnmatch cfg zah r) <> Ret tt
        /\ released (snd (ProcessAll fnmatch cfg zah r)) = released r)).
  { destruct (ProcessAll_cases fnmatch cfg zah r)
      as [(Hret & Hrel & _ & Hend & _) | (Hno & Hrel)].
    - split; [intros _; split; assumption |].
      split; [intros H; contradiction |].
      intros Hfault. rewrite Hend in Hfault. lia.
    - split; [intros H; contradiction |].
      split; [intros _; exact Hrel |].
      intros _. split; assumption. }
  destruct Hcursor as (Hret & Hcut & Hfault).
  split; [exact Hret |]. split; [exact Hcut |]. split; [exact Hfault |].
  split; [exact Hexit |].
  intros Hdirs.
  assert (Hends : fst (ProcessAll fnmatch cfg zah r) <> Ret tt ->
                  fst (ProcessAll fnmatch cfg zah r) = Exit 1
                  /\ released (snd (ProcessAll fnmatch cfg zah r)) = released r
                  /\ exists d, last (stderr (env (snd (ProcessAll fnmatch cfg zah r))))
                               = Some d).
  { intros Hno.
    destruct (ProcessAll_returns_or_exits fnmatch cfg zah r Hdirs)
      as [Hr | [status Hstatus]]; [contradiction |].
    destruct (Hexit status Hstatus) as [-> Hd].
    split; [exact Hstatus |]. split; [apply Hcut, Hno | exact Hd]. }
  split; [| split].
  - destruct (ProcessAll_returns_or_exits fnmatch cfg zah r Hdirs)
      as [Hr | [status Hstatus]]; [rewrite Hr | rewrite Hstatus]; discriminate.
  - exact Hends.
  - intros Hf. apply Hends, Hfault, Hf.
Qed.

(** C5 as stated fails: when Next returns the fault status -2, the run
    ends with status 1 and EndIteration has not been called. *)
Lemma ProcessAll_fault_skips_release :
  fst (ProcessAll simple_fnmatch unzip_flags faulty_archive
                  (start_run (start_env kPrompt work_fs []))) = Exit 1
  /\ parser_calls (snd (ProcessAll simple_fnmatch unzip_flags faulty_archive
                                   (start_run (start_env kPrompt work_fs []))))
     = [CallStartIteration; CallNext]
  /\ released (snd (ProcessAll simple_fnmatch unzip_flags faulty_archive
                               (start_run (start_env kPrompt work_fs [])))) = 0%nat.
Proof. repeat split; vm_compute; reflexivity. Qed.

(** ** Running totals *)




(** Scenario A: only [a.txt] passes [*.txt] without [b.*], the totals
    count that one entry, and the cursor is released once. *)
Example scenario_a_totals :
  List.map snd (accepted simple_fnmatch scenario_a_flags (entries scenario_a_archive))
    = ["a.txt"]
  /\ fst (ProcessAll simple_fnmatch scenario_a_flags scenario_a_archive
                     (start_run (start_env kPrompt work_fs []))) = Ret tt
  /\ totals (snd (ProcessAll simple_fnmatch scenario_a_flags scenario_a_archive
                             (start_run (start_env kPrompt work_fs []))))
     = (10, 4, 1)
  /\ released (snd (ProcessAll simple_fnmatch scenario_a_flags scenario_a_archive
                               (start_run (start_env kPrompt work_fs [])))) = 1%nat.
Proof. repeat split; vm_compute; reflexivity. Qed.

(** An entry that the overwrite policy skips is counted all the same:
    with -n and [f] in place, [f] keeps its bytes and the totals hold the
    entry. *)
Example skipped_entry_is_counted :
  fst (ProcessAll simple_fnmatch unzip_flags (archive_of [(file_entry 3 2, "f")])
                  (start_run (start_env kNever work_fs_with_f []))) = Ret tt
  /\ totals (snd (ProcessAll simple_fnmatch unzip_flags
                             (archive_of [(file_entry 3 2, "f")])
                             (start_run (start_env kNever work_fs_with_f []))))
     = (3, 2, 1)
  /\ Posix.nodes
       (fs (env (snd (ProcessAll simple_fnmatch unzip_flags
                                 (archive_of [(file_entry 3 2, "f")])
                                 (start_run (start_env kNever work_fs_with_f []))))))
       !! ["work"; "f"] = Some (Posix.Regular 420 "old").
Proof. repeat split; vm_compute; reflexivity. Qed.

(** * Further properties of the code *)

(** ** Paths as text *)

Lemma append_assoc (a b c : string) : (a +:+ b) +:+ c = a +:+ (b +:+ c).
Proof. induction a as [| x a IH]; simpl; [reflexivity | rewrite IH; reflexivity]. Qed.

Lemma append_nil_r (a : string) : a +:+ "" = a.
Proof. induction a as [| x a IH]; simpl; [reflexivity | rewrite IH; reflexivity]. Qed.

Lemma begins_with_refl (s : string) : begins_with s s.
Proof. exists "". symmetry. apply append_nil_r. Qed.

Lemma begins_with_trans (s q r : string) :
  begins_with s q -> begins_with q r -> begins_with s r.
Proof.
  intros [x ->] [y ->]. exists (y +:+ x). apply append_assoc.
Qed.

(** What a C interface sees of a string is a prefix of it. *)
Lemma c_str_prefix (s : string) : begins_with s (c_str s).
Proof.
  induction s as [| c s [rest IH]]; simpl.
  - exists "". reflexivity.
  - destruct (Ascii.eqb c NUL).
    + exists (String c s). reflexivity.
    + exists rest. simpl. rewrite <- IH. reflexivity.
Qed.

Lemma retreat_suffix (p : ascii -> bool) (r : list ascii) :
  exists l, r = (l ++ Libc.retreat p r)%list.
Proof.
  induction r as [| c r IH]; [exists []; reflexivity |].
  destruct r as [| c' r']; [exists []; reflexivity |].
  change (Libc.retreat p (c :: c' :: r'))
    with (if p c then Libc.retreat p (c' :: r') else c :: c' :: r').
  destruct (p c); [| exists []; reflexivity].
  destruct IH as [l Hl]. exists (c :: l). cbn [app]. f_equal. exact Hl.
Qed.

Lemma dirname_rev_suffix (r : list ascii) :
  Libc.dirname_rev r = ["."%char] \/ exists l, r = (l ++ Libc.dirname_rev r)%list.
Proof.
  unfold Libc.dirname_rev.
  destruct (retreat_suffix Libc.is_slash r) as [l1 H1].
  destruct (retreat_suffix Libc.not_slash (Libc.retreat Libc.is_slash r)) as [l2 H2].
  destruct (Libc.retreat Libc.not_slash (Libc.retreat Libc.is_slash r))
    as [| c [| c' r']] eqn:Hr; [left; reflexivity | |].
  - destruct (Libc.is_slash c) eqn:Hc; [| left; reflexivity].
    unfold Libc.is_slash in Hc. apply Ascii.eqb_eq in Hc. subst c.
    right. exists (l1 ++ l2)%list. rewrite <- app_assoc, <- H2. exact H1.
  - right. destruct (retreat_suffix Libc.is_slash (c' :: r')) as [l3 H3].
    exists (l1 ++ l2 ++ c :: l3)%list.
    rewrite H1 at 1. rewrite H2 at 1. rewrite H3 at 1.
    rewrite <- !app_assoc. reflexivity.
Qed.

Lemma string_of_list_ascii_app (a b : list ascii) :
  string_of_list_ascii (a ++ b) = string_of_list_ascii a +:+ string_of_list_ascii b.
Proof. induction a as [| x a IH]; simpl; [reflexivity | rewrite IH; reflexivity]. Qed.

(** [dirname] cuts the path off somewhere, unless it answers [.]. *)
Lemma dirname_prefix (path : string) :
  Libc.dirname path = "." \/ begins_with path (Libc.dirname path).
Proof.
  unfold Libc.dirname.
  destruct (dirname_rev_suffix (List.rev (list_ascii_of_string path))) as [H | [l Hl]].
  - left. rewrite H. reflexivity.
  - right. exists (string_of_list_ascii (List.rev l)).
    rewrite <- string_of_list_ascii_app, <- rev_app_distr, <- Hl, rev_involutive.
    symmetry. apply string_of_list_ascii_of_string.
Qed.

Lemma Dirname_prefix (path : string) :
  Dirname path = "." \/ begins_with (c_str path) (Dirname path).
Proof. apply dirname_prefix. Qed.

(** A relative path has a relative parent. *)
Lemma StartsWith_prefix (s q x : string) :
  begins_with s q -> Base.StartsWith q x = true -> Base.StartsWith s x = true.
Proof.
  rewrite !StartsWith_begins_with. intros Hq Hx. exact (begins_with_trans _ _ _ Hq Hx).
Qed.

Lemma relative_c_str_Dirname (path : string) :
  Base.StartsWith (c_str path) "/" = false ->
  Base.StartsWith (c_str (Dirname path)) "/" = false.
Proof.
  intros Hrel.
  destruct (Base.StartsWith (c_str (Dirname path)) "/") eqn:Hs; [| reflexivity].
  destruct (Dirname_prefix path) as [H | H].
  - rewrite H in Hs. discriminate.
  - rewrite <- Hrel. symmetry.
    apply (StartsWith_prefix _ (c_str (Dirname path)) _); [| exact Hs].
    exact (begins_with_trans _ _ _ H (c_str_prefix _)).
Qed.

(** ** What the directory materializer does and does not do *)






(** When MakeDirectoryHierarchy returns success the path names a
    directory, and a second application does nothing but the one [stat]
    that finds it. *)
Theorem MakeDirectoryHierarchy_success (path : string) (st st1 : Env) :
  MakeDirectoryHierarchy path st = (Ret true, st1) ->
  Posix.is_directory (fs st1) (c_str path) = true
  /\ MakeDirectoryHierarchy path st1 = (Ret true, log_syscall (CallStat (c_str path)) st1).
Proof.
  intros Hfirst.
  assert (Hdir : Posix.is_directory (fs st1) (c_str path) = true)
    by exact (MakeDirectoryHierarchy_rec_success _ _ _ _ Hfirst).
  split; [exact Hdir |].
  unfold MakeDirectoryHierarchy. apply MakeDirectoryHierarchy_rec_present, Hdir.
Qed.

Lemma MakeDirectoryHierarchy_success_witness :
  Posix.is_directory
    (fs (snd (MakeDirectoryHierarchy "a/b" (start_env kPrompt work_fs []))))
    "a/b" = true
  /\ MakeDirectoryHierarchy "a/b"
       (snd (MakeDirectoryHierarchy "a/b" (start_env kPrompt work_fs [])))
     = (Ret true,
        log_syscall (CallStat "a/b")
          (snd (MakeDirectoryHierarchy "a/b" (start_env kPrompt work_fs [])))).
Proof.
  apply (MakeDirectoryHierarchy_success "a/b" (start_env kPrompt work_fs [])).
  vm_compute. reflexivity.
Defined.

(** With the working directory and the root in place the recursion of
    MakeDirectoryHierarchy comes to an end, whatever the path. *)
Theorem MakeDirectoryHierarchy_terminates (path : string) (st : Env) :
  dirs_ok st ->
  exists b st', MakeDirectoryHierarchy path st = (Ret b, st').
Proof.
  intros Hdirs.
  destruct (MakeDirectoryHierarchy_returns path st Hdirs) as (b & st' & Hrun & _).
  eauto.
Qed.

Lemma MakeDirectoryHierarchy_terminates_witness :
  exists b st',
    MakeDirectoryHierarchy "a/./b" (start_env kPrompt work_fs []) = (Ret b, st').
Proof.
  apply MakeDirectoryHierarchy_terminates. split; vm_compute; reflexivity.
Defined.

(** Nothing can be reached by a relative path once the working directory
    is no directory. *)
Lemma components_relative (q : string) :
  q <> "" -> Base.StartsWith q "/" = false -> Posix.components q <> [].
Proof.
  destruct q as [| c q]; [congruence |]. intros _ Hrel.
  unfold Base.StartsWith in Hrel. simpl in Hrel.
  unfold Posix.components. simpl.
  destruct (Ascii.eqb c slash) eqn:Hc.
  - apply Ascii.eqb_eq in Hc. subst c. unfold slash in Hrel.
    destruct q; discriminate.
  - destruct (Posix.split_slash q) as [| h t]; simpl; discriminate.
Qed.

Lemma is_directory_dot (f : Posix.FileSystem) :
  Posix.is_directory f "." = false ->
  forall perm, Posix.nodes f !! Posix.cwd f <> Some (Posix.Directory perm).
Proof.
  intros Hdot perm Hcwd. unfold Posix.is_directory, Posix.stat_model, Posix.resolve in Hdot.
  simpl in Hdot. rewrite Hcwd in Hdot.
  change (Posix.step (Posix.cwd f) ".") with (Posix.cwd f) in Hdot.
  cbv beta iota in Hdot. rewrite Hcwd in Hdot.
  rewrite S_ISDIR_directory in Hdot. discriminate.
Qed.

Lemma is_directory_relative (f : Posix.FileSystem) (q : string) :
  Posix.is_directory f "." = false ->
  Base.StartsWith q "/" = false ->
  Posix.is_directory f q = false.
Proof.
  intros Hdot Hrel. pose proof (is_directory_dot f Hdot) as Hcwd.
  unfold Posix.is_directory, Posix.stat_model, Posix.resolve. rewrite Hrel.
  destruct (String.eqb q "") eqn:Hq; [reflexivity |].
  apply String.eqb_neq in Hq.
  pose proof (components_relative q Hq Hrel) as Hcomps.
  destruct (Posix.components q) as [| x rest]; [congruence |]. simpl.
  destruct (Posix.nodes f !! Posix.cwd f) as [[perm | perm data] |] eqn:Hn;
    try reflexivity.
  exfalso. exact (Hcwd perm eq_refl).
Qed.

(** When [stat] of [.] does not report a directory, as for a process that
    may not search its working directory, the recursion of
    MakeDirectoryHierarchy on a relative path never comes to an end:
    [Dirname] arrives at [.], which is its own parent, and [stat] keeps
    failing on it.  Whatever bound is put on the depth of the recursion,
    it is used up. *)
Theorem MakeDirectoryHierarchy_without_cwd (path : string) (st : Env) :
  Posix.is_directory (fs st) "." = false ->
  Base.StartsWith (c_str path) "/" = false ->
  forall fuel, fst (MakeDirectoryHierarchy_rec fuel path st) = Diverge.
Proof.
  intros Hdot Hrel fuel. revert path st Hdot Hrel.
  induction fuel as [| fuel IH]; intros path st Hdot Hrel; [reflexivity |].
  simpl. rewrite bind_run, stat_run.
  pose proof (is_directory_relative (fs st) (c_str path) Hdot Hrel) as Hnot.
  unfold Posix.is_directory in Hnot.
  assert (Hparent : forall s, fs s = fs st ->
            fst ((parent_ok <- MakeDirectoryHierarchy_rec fuel (Dirname path) ;;
                  if negb parent_ok then ret false
                  else r <- mkdir (c_str path) 511 ;; ret (negb (r =? -1))) s)
            = Diverge).
  { intros s Hs. rewrite bind_run.
    assert (Hd : fst (MakeDirectoryHierarchy_rec fuel (Dirname path) s) = Diverge).
    { apply IH; [rewrite Hs; exact Hdot | apply relative_c_str_Dirname, Hrel]. }
    destruct (MakeDirectoryHierarchy_rec fuel (Dirname path) s) as [[b | n |] s1];
      simpl in Hd; try discriminate. reflexivity. }
  destruct (Posix.stat_model (fs st) (c_str path)) as [e | mode]; cbv beta iota.
  - apply Hparent. reflexivity.
  - rewrite Hnot. apply Hparent. reflexivity.
Qed.

Lemma MakeDirectoryHierarchy_without_cwd_witness :
  fst (MakeDirectoryHierarchy "a/b" (start_env kPrompt unreachable_cwd_fs [])) = Diverge.
Proof.
  unfold MakeDirectoryHierarchy.
  apply (MakeDirectoryHierarchy_without_cwd "a/b" (start_env kPrompt unreachable_cwd_fs []));
    vm_compute; reflexivity.
Defined.

(** ** Extraction stays inside the working directory *)

Lemma split_slash_nonempty (s : string) : Posix.split_slash s <> [].
Proof.
  destruct s as [| c s]; simpl; [discriminate |].
  destruct (Ascii.eqb c slash); [discriminate |].
  destruct (Posix.split_slash s); discriminate.
Qed.

Lemma join_slash_cons (x : string) (rest : list string) :
  rest <> [] -> join_slash (x :: rest) = x +:+ "/" +:+ join_slash rest.
Proof. destruct rest; [congruence | reflexivity]. Qed.

Lemma join_split_slash (s : string) : join_slash (Posix.split_slash s) = s.
Proof.
  induction s as [| c s IH]; [reflexivity |]. simpl Posix.split_slash.
  pose proof (split_slash_nonempty s) as Hne.
  destruct (Ascii.eqb c slash) eqn:Hc.
  - apply Ascii.eqb_eq in Hc. subst c.
    rewrite join_slash_cons by exact Hne. rewrite IH. reflexivity.
  - destruct (Posix.split_slash s) as [| h t]; [congruence |].
    destruct t as [| h' t'].
    + simpl in *. rewrite IH. reflexivity.
    + rewrite join_slash_cons by discriminate.
      rewrite join_slash_cons in IH by discriminate.
      rewrite <- IH. reflexivity.
Qed.

(** A [..] piece that is not the last one shows in the text as a leading
    [../] or as [/../]. *)
Lemma join_slash_dotdot (m1 m2 : list string) :
  m2 <> [] ->
  (m1 = [] -> begins_with (join_slash (m1 ++ ".." :: m2)) "../")
  /\ (m1 <> [] -> contains (join_slash (m1 ++ ".." :: m2)) "/../").
Proof.
  intros Hm2. split.
  - intros ->. simpl app. rewrite join_slash_cons by exact Hm2.
    exists (join_slash m2). reflexivity.
  - induction m1 as [| y m1 IH]; [congruence |]. intros _.
    cbn [app]. rewrite join_slash_cons by (destruct m1; discriminate).
    destruct m1 as [| z m1].
    + simpl app. rewrite join_slash_cons by exact Hm2.
      exists y, (join_slash m2). reflexivity.
    + destruct IH as (front & rest & Hjoin); [discriminate |].
      rewrite Hjoin. exists (y +:+ "/" +:+ front), rest.
      rewrite !append_assoc. reflexivity.
Qed.

Lemma filter_split {A : Type} (P : A -> bool) (l a b : list A) (x : A) :
  List.filter P l = (a ++ x :: b)%list ->
  exists m1 m2, l = (m1 ++ x :: m2)%list /\ List.filter P m2 = b.
Proof.
  revert a. induction l as [| y l IH]; intros a Hf.
  - destruct a; discriminate.
  - simpl in Hf. destruct (P y) eqn:Hy.
    + destruct a as [| a0 a].
      * injection Hf as -> Hb. exists [], l. split; [reflexivity | exact Hb].
      * injection Hf as -> Hf. destruct (IH a Hf) as (m1 & m2 & -> & Hm2).
        exists (a0 :: m1), m2. split; [reflexivity | exact Hm2].
    + destruct (IH a Hf) as (m1 & m2 & -> & Hm2).
      exists (y :: m1), m2. split; [reflexivity | exact Hm2].
Qed.

Lemma in_removelast {A : Type} (x : A) (l : list A) :
  In x (removelast l) -> exists a b, l = (a ++ x :: b)%list /\ b <> [].
Proof.
  induction l as [| y l IH]; [contradiction |].
  destruct l as [| z l]; [contradiction |].
  change (removelast (y :: z :: l)) with (y :: removelast (z :: l)).
  intros [<- | Hin].
  - exists [], (z :: l). split; [reflexivity | discriminate].
  - destruct (IH Hin) as (a & b & Hl & Hb). exists (y :: a), b.
    split; [rewrite Hl; reflexivity | exact Hb].
Qed.

(** In a name that passes the filename test, [..] can only be the last
    component. *)
Lemma no_inner_dotdot (q : string) :
  bad_filename q = false ->
  Forall (fun x => x <> "..") (removelast (Posix.components q)).
Proof.
  intros Hgood. apply List.Forall_forall. intros x Hin ->.
  destruct (in_removelast _ _ Hin) as (a & b & Hcomps & Hb).
  unfold Posix.components in Hcomps.
  destruct (filter_split _ _ _ _ _ Hcomps) as (m1 & m2 & Hsplit & Hm2).
  assert (Hne : m2 <> []) by (intros ->; simpl in Hm2; congruence).
  destruct (join_slash_dotdot m1 m2 Hne) as [Hfirst Hinner].
  rewrite <- Hsplit, join_split_slash in Hfirst, Hinner.
  assert (Hbad : bad_filename q = true).
  { apply bad_filename_iff. destruct m1 as [| y m1].
    - right. left. apply Hfirst. reflexivity.
    - right. right. apply Hinner. discriminate. }
  congruence.
Qed.

Lemma bad_filename_relative (q : string) :
  bad_filename q = false -> Base.StartsWith q "/" = false.
Proof.
  unfold bad_filename. destruct (Base.StartsWith q "/"); [discriminate | reflexivity].
Qed.




Lemma keeps_invariant_refl {S : Type} (I : S -> Prop) (s : S) : keeps_invariant I s s.
Proof. intros H. exact H. Qed.

Lemma keeps_invariant_trans {S : Type} (I : S -> Prop) (a b c : S) :
  keeps_invariant I a b -> keeps_invariant I b c -> keeps_invariant I a c.
Proof. unfold keeps_invariant. auto. Qed.

Ltac keeps_prim := unfold keeps_invariant; intros ?Hinv; exact Hinv.

Ltac keeps_tac I :=
  repeat first
    [ solve [ auto 2 with preserves nocore ]
    | preserves_step (keeps_invariant_refl I) (keeps_invariant_trans I) keeps_prim ].

Lemma lookup_fd_in (fd : Z) (table : list (Z * list string)) (file : list string) :
  lookup_fd fd table = Some file -> exists d, In d table /\ snd d = file.
Proof.
  unfold lookup_fd. destruct (List.find _ table) as [d |] eqn:Hfind; [| discriminate].
  intros H. injection H as <-. apply List.find_some in Hfind. exists d. tauto.
Qed.

Section Inside.

Variable c : list string.
Variable perm : Z.
Variable n0 : gmap (list string) Posix.inode.

Lemma step_inside (cur : list string) (x : string) :
  c `prefix_of` cur -> x <> ".." -> c `prefix_of` Posix.step cur x.
Proof.
  intros Hcur Hx. unfold Posix.step.
  destruct (String.eqb x "."); [exact Hcur |].
  destruct (String.eqb x "..") eqn:Hdd; [apply String.eqb_eq in Hdd; contradiction |].
  apply prefix_app_r, Hcur.
Qed.

Lemma step_last_inside (cur : list string) (x : string) :
  c `prefix_of` cur -> c `prefix_of` Posix.step cur x \/ Posix.step cur x = removelast c.
Proof.
  intros Hcur. destruct (String.eqb x "..") eqn:Hdd.
  - unfold Posix.step. rewrite Hdd.
    destruct (String.eqb x "."); [left; exact Hcur |].
    destruct Hcur as [k ->]. destruct k as [| y k].
    + right. rewrite app_nil_r. reflexivity.
    + left. rewrite removelast_app by discriminate. apply prefix_app_r. reflexivity.
  - left. apply step_inside; [exact Hcur |]. intros ->. discriminate.
Qed.

(** Resolving a path in which [..] can only come last, from inside [c],
    ends inside [c] or at its parent. *)
Lemma walk_inside (f : Posix.FileSystem) (comps : list string) :
  forall (cur p : list string),
    Forall (fun x => x <> "..") (removelast comps) ->
    c `prefix_of` cur ->
    Posix.walk f cur comps = inr p ->
    c `prefix_of` p \/ p = removelast c.
Proof.
  induction comps as [| x rest IH]; intros cur p Hplain Hcur Hwalk.
  - injection Hwalk as <-. left. exact Hcur.
  - simpl in Hwalk.
    destruct (Posix.nodes f !! cur) as [[dperm | rperm data] |]; try discriminate.
    destruct rest as [| y rest].
    + injection Hwalk as <-. apply step_last_inside, Hcur.
    + change (removelast (x :: y :: rest)) with (x :: removelast (y :: rest)) in Hplain.
      apply Forall_cons in Hplain. destruct Hplain as [Hx Hplain].
      apply (IH (Posix.step cur x)); [exact Hplain | | exact Hwalk].
      apply step_inside; assumption.
Qed.

Lemma resolve_inside (f : Posix.FileSystem) (q : string) (p : list string) :
  Posix.cwd f = c ->
  bad_filename q = false ->
  Posix.resolve f q = inr p ->
  c `prefix_of` p \/ p = removelast c.
Proof.
  intros Hcwd Hgood. unfold Posix.resolve.
  destruct (String.eqb q ""); [discriminate |].
  rewrite (bad_filename_relative q Hgood), Hcwd.
  apply walk_inside; [apply no_inner_dotdot, Hgood | reflexivity].
Qed.

Lemma mkdir_inside (q : string) (mode : Z) :
  bad_filename q = false ->
  preserves (keeps_invariant (inside c perm n0)) (mkdir q mode).
Proof.
  intros Hgood st (Hcwd & Hparent & Hout & Hfds). rewrite mkdir_run.
  destruct (Posix.mkdir_model (fs st) q mode) as [e | f'] eqn:Hmk; simpl.
  - repeat split; assumption.
  - unfold Posix.mkdir_model in Hmk.
    destruct (Posix.resolve (fs st) q) as [e | p] eqn:Hres; [discriminate |].
    destruct (Posix.nodes (fs st) !! p) eqn:Hp; [discriminate |].
    injection Hmk as <-.
    destruct (resolve_inside _ _ _ Hcwd Hgood Hres) as [Hin | ->]; [| congruence].
    repeat split; simpl; try assumption.
    + rewrite lookup_insert_ne by congruence. exact Hparent.
    + intros p' Hp'. rewrite lookup_insert_ne by (intros <-; contradiction).
      apply Hout, Hp'.
Qed.

Lemma open_inside (q : string) (flags mode : Z) :
  bad_filename q = false ->
  preserves (keeps_invariant (inside c perm n0)) (open q flags mode).
Proof.
  intros Hgood st (Hcwd & Hparent & Hout & Hfds). rewrite open_run.
  destruct (Posix.open_model (fs st) q flags mode) as [e | [f' file]] eqn:Hop;
    cbv zeta; simpl.
  - repeat split; assumption.
  - unfold Posix.open_model in Hop.
    destruct (Posix.resolve (fs st) q) as [e | p] eqn:Hres; [discriminate |].
    assert (Hchanged : forall i : Posix.inode,
              (forall dperm, Posix.nodes (fs st) !! p <> Some (Posix.Directory dperm)) ->
              inside c perm n0
                (set_fds ((lowest_free (List.map fst (fds st)) 3 (List.length (fds st)), p)
                          :: fds st)
                   (set_fs (Posix.with_nodes (fs st) (<[p := i]> (Posix.nodes (fs st))))
                      (log_syscall (CallOpen q flags mode) st)))).
    { intros i Hnodir.
      destruct (resolve_inside _ _ _ Hcwd Hgood Hres) as [Hin | ->];
        [| exfalso; exact (Hnodir perm Hparent)].
      repeat split; simpl; try assumption.
      - rewrite lookup_insert_ne by (intros ->; exact (Hnodir perm Hparent)).
        exact Hparent.
      - intros p' Hp'. rewrite lookup_insert_ne by (intros <-; contradiction).
        apply Hout, Hp'.
      - constructor; [exact Hin | exact Hfds]. }
    destruct (Posix.nodes (fs st) !! p) as [[dperm | rperm data] |] eqn:Hp.
    + destruct (Posix.has_flag flags Posix.O_CREAT && Posix.has_flag flags Posix.O_EXCL);
        discriminate.
    + destruct (Base.EndsWith q "/"); [discriminate |].
      destruct (Posix.has_flag flags Posix.O_CREAT && Posix.has_flag flags Posix.O_EXCL);
        [discriminate |].
      destruct (Posix.has_flag flags Posix.O_TRUNC); injection Hop as <- <-.
      * apply Hchanged. intros dperm. discriminate.
      * destruct (resolve_inside _ _ _ Hcwd Hgood Hres) as [Hin | ->];
          [| congruence].
        repeat split; simpl; try assumption. constructor; [exact Hin | exact Hfds].
    + destruct (negb (Posix.has_flag flags Posix.O_CREAT)); [discriminate |].
      destruct (Base.EndsWith q "/"); [discriminate |].
      injection Hop as <- <-. apply Hchanged. intros dperm. discriminate.
Qed.

Lemma close_inside (fd : Z) :
  preserves (keeps_invariant (inside c perm n0)) (close fd).
Proof.
  intros st (Hcwd & Hparent & Hout & Hfds). unfold close. run_prog.
  repeat split; try assumption.
  apply List.Forall_forall. intros d Hd. apply List.filter_In in Hd.
  rewrite List.Forall_forall in Hfds. apply Hfds, Hd.
Qed.

Lemma ExtractEntryToFile_inside (zah : ZipArchive) (entry : ZipEntry) (fd : Z) :
  preserves (keeps_invariant (inside c perm n0)) (ExtractEntryToFile zah entry fd).
Proof.
  intros st (Hcwd & Hparent & Hout & Hfds). unfold ExtractEntryToFile. run_prog.
  destruct (lookup_fd fd (fds st)) as [file |] eqn:Hfd; simpl.
  - destruct (extract zah entry) as [status data]. simpl.
    destruct (lookup_fd_in _ _ _ Hfd) as (d & Hd & <-).
    rewrite List.Forall_forall in Hfds. pose proof (Hfds d Hd) as Hin.
    unfold write_file.
    destruct (Posix.nodes (fs st) !! snd d) as [[dperm | rperm old] |] eqn:Hnode;
      try (repeat split; try assumption; apply List.Forall_forall; assumption).
    repeat split; simpl; try assumption.
    + rewrite lookup_insert_ne by congruence. exact Hparent.
    + intros p' Hp'. rewrite lookup_insert_ne by (intros <-; contradiction).
      apply Hout, Hp'.
    + apply List.Forall_forall. assumption.
  - repeat split; assumption.
Qed.

#[local] Hint Resolve mkdir_inside open_inside close_inside ExtractEntryToFile_inside
  : preserves.

Ltac inside_tac := keeps_tac (inside c perm n0).

Lemma stat_inside (q : string) :
  preserves (keeps_invariant (inside c perm n0)) (stat q).
Proof. unfold stat. inside_tac. Qed.

Lemma error_inside (status errnum : Z) (format : string) (args : list Arg) :
  preserves (keeps_invariant (inside c perm n0)) (error status errnum format args).
Proof. unfold error. inside_tac. Qed.

Lemma printf_inside (format : string) (args : list Arg) :
  preserves (keeps_invariant (inside c perm n0)) (printf format args).
Proof. unfold printf. inside_tac. Qed.

Lemma getline_inside : preserves (keeps_invariant (inside c perm n0)) getline.
Proof. unfold getline. inside_tac. Qed.

#[local] Hint Resolve stat_inside error_inside printf_inside getline_inside : preserves.


Lemma PromptOverwrite_loop_inside (fuel : nat) :
  preserves (keeps_invariant (inside c perm n0)) (PromptOverwrite_loop fuel).
Proof. induction fuel as [| fuel IH]; simpl; inside_tac. Qed.

#[local] Hint Resolve PromptOverwrite_loop_inside : preserves.


End Inside.

(** ** Invariants of the process state that bookkeeping cannot break *)

Section Bookkeeping.

Variable I : Env -> Prop.
Hypothesis I_stdout : forall o st, I st -> I (put_stdout o st).
Hypothesis I_stderr : forall d st, I st -> I (put_stderr d st).
Hypothesis I_log : forall call st, call <> CallGetline -> I st -> I (log_syscall call st).
Hypothesis I_errno : forall n st, I st -> I (set_errno n st).

Ltac book_prim :=
  unfold keeps_invariant; intros ?Hinv;
  first [ apply I_stdout; exact Hinv | apply I_stderr; exact Hinv
        | apply I_log; [discriminate | exact Hinv] | apply I_errno; exact Hinv ].

Ltac book_tac :=
  repeat first
    [ solve [ auto 2 with preserves nocore ]
    | preserves_step (keeps_invariant_refl I) (keeps_invariant_trans I) book_prim ].

Lemma printf_keeps (format : string) (args : list Arg) :
  preserves (keeps_invariant I) (printf format args).
Proof. unfold printf. book_tac. Qed.

Lemma fflush_keeps : preserves (keeps_invariant I) fflush_stdout.
Proof. unfold fflush_stdout. book_tac. Qed.

Lemma error_keeps (status errnum : Z) (format : string) (args : list Arg) :
  preserves (keeps_invariant I) (error status errnum format args).
Proof. unfold error. book_tac. Qed.

Lemma stat_keeps (path : string) : preserves (keeps_invariant I) (stat path).
Proof. unfold stat. book_tac. Qed.

Lemma WriteFully_keeps (data : string) :
  preserves (keeps_invariant I) (WriteFully_stdout data).
Proof. unfold WriteFully_stdout. book_tac. Qed.

Lemma ExtractToMemory_keeps (zah : ZipArchive) (entry : ZipEntry) :
  preserves (keeps_invariant I) (ExtractToMemory zah entry).
Proof. unfold ExtractToMemory. book_tac. Qed.

#[local] Hint Resolve printf_keeps fflush_keeps error_keeps stat_keeps WriteFully_keeps
  ExtractToMemory_keeps : preserves.

Lemma ExtractToPipe_keeps (zah : ZipArchive) (entry : ZipEntry) (name : string) :
  preserves (keeps_invariant I) (ExtractToPipe zah entry name).
Proof. unfold ExtractToPipe. book_tac. Qed.

Lemma ListOne_keeps (cfg : Flags) (entry : ZipEntry) (name : string) :
  preserves (keeps_invariant I) (ListOne cfg entry name).
Proof. unfold ListOne. book_tac. Qed.

Lemma InfoOne_keeps (cfg : Flags) (entry : ZipEntry) (name : string) :
  preserves (keeps_invariant I) (InfoOne cfg entry name).
Proof. unfold InfoOne. book_tac. Qed.

Lemma MaybeShowHeader_keeps (cfg : Flags) (zah : ZipArchive) :
  preserves (keeps_invariant I) (MaybeShowHeader cfg zah).
Proof. unfold MaybeShowHeader. book_tac. Qed.

Lemma on_env_keeps {A : Type} (m : M Env A) :
  preserves (keeps_invariant I) m ->
  preserves (keeps_invariant (fun r => I (env r))) (on_env m).
Proof. intros Hm r Hr. rewrite on_env_run. simpl. apply Hm, Hr. Qed.

#[local] Hint Resolve ExtractToPipe_keeps ListOne_keeps InfoOne_keeps
  MaybeShowHeader_keeps : preserves.

Ltac run_book_prim := unfold keeps_invariant; intros ?Hinv; exact Hinv.

Ltac run_book_tac :=
  repeat first
    [ apply on_env_keeps
    | solve [ auto 2 with preserves nocore ]
    | preserves_step (keeps_invariant_refl (fun r => I (env r)))
                     (keeps_invariant_trans (fun r => I (env r))) run_book_prim ].

Lemma MaybeShowFooter_keeps (cfg : Flags) :
  preserves (keeps_invariant (fun r => I (env r))) (MaybeShowFooter cfg).
Proof. unfold MaybeShowFooter. run_book_tac. Qed.

#[local] Hint Resolve MaybeShowFooter_keeps : preserves.

Section KeptByDriver.

Variable fnmatch : string -> string -> Z -> Z.
Variable cfg : Flags.
Variable zah : ZipArchive.
Hypothesis ExtractOne_keeps :
  forall entry name, preserves (keeps_invariant I) (ExtractOne cfg zah entry name).

Lemma ProcessOne_keeps (entry : ZipEntry) (name : string) :
  preserves (keeps_invariant (fun r => I (env r))) (ProcessOne cfg zah entry name).
Proof. unfold ProcessOne. run_book_tac. Qed.

#[local] Hint Resolve ProcessOne_keeps : preserves.

Lemma ProcessAll_loop_keeps (pending : list (ZipEntry * string)) :
  preserves (keeps_invariant (fun r => I (env r)))
            (ProcessAll_loop fnmatch cfg zah pending).
Proof. induction pending as [| [entry name] rest IH]; simpl; run_book_tac. Qed.

#[local] Hint Resolve ProcessAll_loop_keeps : preserves.

Lemma ProcessAll_keeps :
  preserves (keeps_invariant (fun r => I (env r))) (ProcessAll fnmatch cfg zah).
Proof. unfold ProcessAll. run_book_tac. Qed.

End KeptByDriver.

(** *** When the overwrite mode is fixed at Always or at Never

    An invariant that pins the overwrite mode to [mode], which is not
    Prompt, is kept by ExtractOne as soon as the system calls it makes
    under that mode keep it: the prompt is never reached. *)

Section FixedMode.

Variable mode : OverwriteMode.
Hypothesis mode_fixed : mode <> kPrompt.
Hypothesis I_mode : forall st, I st -> overwrite_mode st = mode.
Hypothesis mkdir_keeps : forall q m, preserves (keeps_invariant I) (mkdir q m).
Hypothesis open_exclusive_keeps :
  forall q m, preserves (keeps_invariant I) (open q create_exclusive m).
Hypothesis open_truncate_keeps :
  mode = kAlways -> forall q m, preserves (keeps_invariant I) (open q create_truncate m).
Hypothesis close_keeps : forall fd, preserves (keeps_invariant I) (close fd).
Hypothesis ExtractEntryToFile_keeps :
  forall zah entry fd, preserves (keeps_invariant I) (ExtractEntryToFile zah entry fd).

#[local] Hint Resolve mkdir_keeps open_exclusive_keeps close_keeps
  ExtractEntryToFile_keeps : preserves.

Lemma MakeDirectoryHierarchy_rec_keeps (fuel : nat) (path : string) :
  preserves (keeps_invariant I) (MakeDirectoryHierarchy_rec fuel path).
Proof. revert path. induction fuel as [| fuel IH]; intros path; simpl; book_tac. Qed.

#[local] Hint Resolve MakeDirectoryHierarchy_rec_keeps : preserves.

Lemma ExtractOne_write_keeps (cfg : Flags) (zah : ZipArchive) (entry : ZipEntry)
  (dst : string) (fd : Z) :
  preserves (keeps_invariant I) (ExtractOne_write cfg zah entry dst fd).
Proof. unfold ExtractOne_write. book_tac. Qed.

#[local] Hint Resolve ExtractOne_write_keeps : preserves.

Lemma ExtractOne_open_keeps (cfg : Flags) (zah : ZipArchive) (entry : ZipEntry)
  (name dst : string) (reopen : bool) (fd : Z) :
  (reopen = true -> mode = kAlways) ->
  preserves (keeps_invariant I) (ExtractOne_open cfg zah entry name dst reopen fd).
Proof.
  intros Hre. unfold ExtractOne_open. destruct reopen.
  - pose proof (open_truncate_keeps (Hre eq_refl)) as Htrunc. book_tac.
  - book_tac.
Qed.

Lemma ExtractOne_file_keeps (cfg : Flags) (zah : ZipArchive) (entry : ZipEntry)
  (name dst : string) :
  preserves (keeps_invariant I) (ExtractOne_file cfg zah entry name dst).
Proof.
  intros st Hst. unfold ExtractOne_file. rewrite bind_run.
  pose proof (open_exclusive_keeps (c_str name) (unix_mode entry) st Hst) as Hopen.
  destruct (open (c_str name) create_exclusive (unix_mode entry) st)
    as [[fd | n |] s1]; simpl in Hopen; try exact Hopen.
  rewrite bind_run, get_run. cbv beta iota.
  destruct ((fd =? -1) && (errno s1 =? Posix.EEXIST)).
  - pose proof (I_mode s1 Hopen) as Hm. destruct (overwrite_mode s1).
    + apply ExtractOne_open_keeps; [intros _; symmetry; exact Hm | exact Hopen].
    + exact Hopen.
    + exfalso. apply mode_fixed. symmetry. exact Hm.
  - apply ExtractOne_open_keeps; [discriminate | exact Hopen].
Qed.

#[local] Hint Resolve ExtractOne_file_keeps : preserves.

Lemma ExtractOne_keeps_fixed (cfg : Flags) (zah : ZipArchive) (entry : ZipEntry)
  (name : string) :
  preserves (keeps_invariant I) (ExtractOne cfg zah entry name).
Proof.
  unfold ExtractOne, ExtractOne_checked, MakeDirectoryHierarchy, ExtractOne_directory.
  book_tac.
Qed.

End FixedMode.

End Bookkeeping.






(** ** Runs that do not ask *)

Section Unprompted.

Variable mode : OverwriteMode.
Variable input : list string.
Variable reads : list Syscall.

Ltac unprompted_prim :=
  unfold keeps_invariant, unprompted; simpl;
  let Hm := fresh in let Hi := fresh in let Hg := fresh in
  intros (Hm & Hi & Hg); repeat split; try assumption;
  rewrite List.filter_app; simpl; rewrite app_nil_r; exact Hg.

Ltac unprompted_tac :=
  preserves_tac (keeps_invariant_refl (unprompted mode input reads))
                (keeps_invariant_trans (unprompted mode input reads)) unprompted_prim.

Lemma unprompted_log (call : Syscall) (st : Env) :
  call <> CallGetline -> unprompted mode input reads st ->
  unprompted mode input reads (log_syscall call st).
Proof.
  intros Hcall (Hm & Hi & Hg). repeat split; try assumption. simpl.
  rewrite List.filter_app. simpl. destruct call; try congruence;
    simpl; rewrite app_nil_r; exact Hg.
Qed.

Lemma mkdir_unprompted (q : string) (m : Z) :
  preserves (keeps_invariant (unprompted mode input reads)) (mkdir q m).
Proof. unfold mkdir. unprompted_tac. Qed.

Lemma open_unprompted (q : string) (flags m : Z) :
  preserves (keeps_invariant (unprompted mode input reads)) (open q flags m).
Proof. unfold open. unprompted_tac. Qed.

Lemma close_unprompted (fd : Z) :
  preserves (keeps_invariant (unprompted mode input reads)) (close fd).
Proof. unfold close. unprompted_tac. Qed.

Lemma ExtractEntryToFile_unprompted (zah : ZipArchive) (entry : ZipEntry) (fd : Z) :
  preserves (keeps_invariant (unprompted mode input reads))
            (ExtractEntryToFile zah entry fd).
Proof. unfold ExtractEntryToFile. unprompted_tac. Qed.

Lemma ProcessAll_unprompted (fnmatch : string -> string -> Z -> Z) (cfg : Flags)
  (zah : ZipArchive) :
  mode <> kPrompt ->
  preserves (keeps_invariant (fun r => unprompted mode input reads (env r)))
            (ProcessAll fnmatch cfg zah).
Proof.
  intros Hmode.
  apply (ProcessAll_keeps (unprompted mode input reads)
           (fun _ _ H => H) (fun _ _ H => H) unprompted_log (fun _ _ H => H)).
  intros entry name.
  apply (ExtractOne_keeps_fixed (unprompted mode input reads)
           (fun _ _ H => H) (fun _ _ H => H) unprompted_log (fun _ _ H => H)
           mode Hmode (fun st H => proj1 H)
           mkdir_unprompted (fun q m => open_unprompted q create_exclusive m)
           (fun _ q m => open_unprompted q create_truncate m)
           close_unprompted ExtractEntryToFile_unprompted).
Qed.

End Unprompted.

(** With the overwrite mode at Always or at Never, a run of ProcessAll,
    in whatever mode and however it ends, leaves the overwrite mode as it
    was and never reads from standard input. *)
Theorem fixed_mode_never_prompts (fnmatch : string -> string -> Z -> Z) (cfg : Flags)
  (zah : ZipArchive) (r : Run) :
  overwrite_mode (env r) <> kPrompt ->
  let r' := snd (ProcessAll fnmatch cfg zah r) in
  overwrite_mode (env r') = overwrite_mode (env r)
  /\ stdin (env r') = stdin (env r)
  /\ List.filter is_getline (syscalls (env r'))
     = List.filter is_getline (syscalls (env r)).
Proof.
  intros Hmode. cbv zeta.
  apply (ProcessAll_unprompted (overwrite_mode (env r)) (stdin (env r))
           (List.filter is_getline (syscalls (env r))) fnmatch cfg zah Hmode r).
  repeat split.
Qed.

Lemma fixed_mode_never_prompts_witness :
  let zah := archive_of [(file_entry 3 3, "f"); (file_entry 3 3, "g")] in
  let r := start_run (start_env kAlways work_fs_with_f ["n"]) in
  overwrite_mode (env (snd (ProcessAll simple_fnmatch unzip_flags zah r))) = kAlways
  /\ stdin (env (snd (ProcessAll simple_fnmatch unzip_flags zah r))) = ["n"]
  /\ List.filter is_getline
       (syscalls (env (snd (ProcessAll simple_fnmatch unzip_flags zah r)))) = [].
Proof.
  apply (fixed_mode_never_prompts simple_fnmatch unzip_flags
           (archive_of [(file_entry 3 3, "f"); (file_entry 3 3, "g")])
           (start_run (start_env kAlways work_fs_with_f ["n"]))).
  discriminate.
Defined.

(** ** Never overwriting *)

Section NeverKept.

Variable n0 : gmap (list string) Posix.inode.

Lemma mkdir_never_kept (q : string) (m : Z) :
  preserves (keeps_invariant (never_kept n0)) (mkdir q m).
Proof.
  intros st (Hmode & Hkept & Hfds). rewrite mkdir_run.
  destruct (Posix.mkdir_model (fs st) q m) as [e | f'] eqn:Hmk; simpl.
  - repeat split; assumption.
  - unfold Posix.mkdir_model in Hmk.
    destruct (Posix.resolve (fs st) q) as [e | p]; [discriminate |].
    destruct (Posix.nodes (fs st) !! p) eqn:Hp; [discriminate |].
    injection Hmk as <-. repeat split; simpl; try assumption.
    intros p' i Hi. rewrite lookup_insert_ne; [apply Hkept, Hi |].
    intros <-. rewrite (Hkept _ _ Hi) in Hp. discriminate.
Qed.

Lemma open_exclusive_never_kept (q : string) (m : Z) :
  preserves (keeps_invariant (never_kept n0)) (open q create_exclusive m).
Proof.
  intros st (Hmode & Hkept & Hfds). rewrite open_run.
  destruct (Posix.open_model (fs st) q create_exclusive m) as [e | [f' file]] eqn:Hop;
    cbv zeta; simpl.
  - repeat split; assumption.
  - unfold Posix.open_model in Hop.
    destruct (Posix.resolve (fs st) q) as [e | p]; [discriminate |].
    change (Posix.has_flag create_exclusive Posix.O_CREAT) with true in Hop.
    change (Posix.has_flag create_exclusive Posix.O_EXCL) with true in Hop.
    simpl andb in Hop. simpl negb in Hop. cbv iota in Hop.
    destruct (Posix.nodes (fs st) !! p) as [[dperm | rperm data] |] eqn:Hp;
      [discriminate | destruct (Base.EndsWith q "/"); discriminate |].
    destruct (Base.EndsWith q "/"); [discriminate |].
    injection Hop as <- <-.
    assert (Hfresh : n0 !! p = None).
    { destruct (n0 !! p) as [i |] eqn:Hi; [| reflexivity].
      rewrite (Hkept _ _ Hi) in Hp. discriminate. }
    repeat split; simpl; try assumption.
    + intros p' i Hi. rewrite lookup_insert_ne; [apply Hkept, Hi |].
      intros <-. congruence.
    + constructor; [exact Hfresh | exact Hfds].
Qed.

Lemma close_never_kept (fd : Z) :
  preserves (keeps_invariant (never_kept n0)) (close fd).
Proof.
  intros st (Hmode & Hkept & Hfds). unfold close. run_prog.
  repeat split; try assumption.
  apply List.Forall_forall. intros d Hd. apply List.filter_In in Hd.
  rewrite List.Forall_forall in Hfds. apply Hfds, Hd.
Qed.

Lemma ExtractEntryToFile_never_kept (zah : ZipArchive) (entry : ZipEntry) (fd : Z) :
  preserves (keeps_invariant (never_kept n0)) (ExtractEntryToFile zah entry fd).
Proof.
  intros st (Hmode & Hkept & Hfds). unfold ExtractEntryToFile. run_prog.
  destruct (lookup_fd fd (fds st)) as [file |] eqn:Hfd; simpl.
  - destruct (extract zah entry) as [status data]. simpl.
    destruct (lookup_fd_in _ _ _ Hfd) as (d & Hd & <-).
    pose proof Hfds as Hall. rewrite List.Forall_forall in Hall.
    pose proof (Hall d Hd) as Hfresh. simpl in Hfresh.
    unfold write_file.
    destruct (Posix.nodes (fs st) !! snd d) as [[dperm | rperm old] |] eqn:Hnode;
      try (repeat split; assumption).
    repeat split; simpl; try assumption.
    intros p' i Hi. rewrite lookup_insert_ne; [apply Hkept, Hi |].
    intros <-. congruence.
  - repeat split; assumption.
Qed.

Lemma ProcessAll_never_kept (fnmatch : string -> string -> Z -> Z) (cfg : Flags)
  (zah : ZipArchive) :
  preserves (keeps_invariant (fun r => never_kept n0 (env r)))
            (ProcessAll fnmatch cfg zah).
Proof.
  apply (ProcessAll_keeps (never_kept n0)
           (fun _ _ H => H) (fun _ _ H => H) (fun _ _ _ H => H) (fun _ _ H => H)).
  intros entry name.
  apply (ExtractOne_keeps_fixed (never_kept n0)
           (fun _ _ H => H) (fun _ _ H => H) (fun _ _ _ H => H) (fun _ _ H => H)
           kNever).
  - discriminate.
  - intros st H. exact (proj1 H).
  - exact mkdir_never_kept.
  - exact open_exclusive_never_kept.
  - discriminate.
  - exact close_never_kept.
  - exact ExtractEntryToFile_never_kept.
Qed.

End NeverKept.

(** With the overwrite mode at Never, a run of ProcessAll, however it
    ends, leaves every file and directory that exists as it is: nothing is
    overwritten, truncated, replaced or removed. *)
Theorem never_mode_keeps_what_exists (fnmatch : string -> string -> Z -> Z) (cfg : Flags)
  (zah : ZipArchive) (r : Run) :
  overwrite_mode (env r) = kNever ->
  fds (env r) = [] ->
  forall p i,
    Posix.nodes (fs (env r)) !! p = Some i ->
    Posix.nodes (fs (env (snd (ProcessAll fnmatch cfg zah r)))) !! p = Some i.
Proof.
  intros Hmode Hfds.
  assert (Hr : never_kept (Posix.nodes (fs (env r))) (env r)).
  { split; [exact Hmode |]. split; [auto |]. rewrite Hfds. constructor. }
  destruct (ProcessAll_never_kept _ fnmatch cfg zah r Hr) as (_ & Hkept & _).
  exact Hkept.
Qed.

Lemma never_mode_keeps_what_exists_witness :
  Posix.nodes
    (fs (env (snd (ProcessAll simple_fnmatch unzip_flags
                     (archive_of [(file_entry 3 3, "f"); (file_entry 3 3, "g")])
                     (start_run (start_env kNever work_fs_with_f []))))))
    !! ["work"; "f"] = Some (Posix.Regular 420 "old").
Proof.
  apply (never_mode_keeps_what_exists simple_fnmatch unzip_flags
           (archive_of [(file_entry 3 3, "f"); (file_entry 3 3, "g")])
           (start_run (start_env kNever work_fs_with_f []))).
  - reflexivity.
  - reflexivity.
  - vm_compute. reflexivity.
Defined.

(** ** Descriptors *)

Lemma filter_above_shrinks (used : list Z) (c : Z) :
  In c used ->
  (List.length (List.filter (fun u : Z => (c + 1 <=? u)%Z) used)
   < List.length (List.filter (fun u : Z => (c <=? u)%Z) used))%nat.
Proof.
  induction used as [| u used IH]; [contradiction |].
  assert (Hle : (List.length (List.filter (fun u : Z => (c + 1 <=? u)%Z) used)
                 <= List.length (List.filter (fun u : Z => (c <=? u)%Z) used))%nat).
  { clear. induction used as [| v used IH]; simpl; [lia |].
    destruct (Z.leb_spec (c + 1) v); destruct (Z.leb_spec c v); simpl; lia. }
  intros [-> | Hin]; simpl.
  - destruct (Z.leb_spec (c + 1) c); [lia |].
    destruct (Z.leb_spec c c); [simpl; lia | lia].
  - specialize (IH Hin).
    destruct (Z.leb_spec (c + 1) u); destruct (Z.leb_spec c u); simpl; lia.
Qed.

(** The descriptor [open] hands out is not in use. *)
Lemma lowest_free_fresh (used : list Z) (fuel : nat) :
  forall c : Z,
    (List.length (List.filter (fun u : Z => (c <=? u)%Z) used) <= fuel)%nat ->
    ~ In (lowest_free used c fuel) used.
Proof.
  induction fuel as [| fuel IH]; intros c Hlen; simpl.
  - intros Hin. pose proof (filter_above_shrinks used c Hin). lia.
  - destruct (existsb (Z.eqb c) used) eqn:Hex.
    + apply IH. apply existsb_exists in Hex. destruct Hex as (u & Hu & Heq).
      apply Z.eqb_eq in Heq. subst u.
      pose proof (filter_above_shrinks used c Hu). lia.
    + intros Hin. assert (Hyes : existsb (Z.eqb c) used = true).
      { apply existsb_exists. exists c. split; [exact Hin | apply Z.eqb_refl]. }
      congruence.
Qed.

Lemma filter_fresh_fd (fd : Z) (table : list (Z * list string)) :
  ~ In fd (List.map fst table) ->
  List.filter (fun d => negb (fst d =? fd)) table = table.
Proof.
  induction table as [| d table IH]; [reflexivity |]. simpl. intros Hfresh.
  destruct (Z.eqb_spec (fst d) fd) as [Heq | Hne]; [tauto |]. simpl.
  rewrite IH by tauto. reflexivity.
Qed.

(** Closing the descriptor that [open] has just handed out gives back the
    table of descriptors as it was. *)
Lemma close_after_open (table : list (Z * list string)) (file : list string) :
  let fd := lowest_free (List.map fst table) 3 (List.length table) in
  List.filter (fun d => negb (fst d =? fd)) ((fd, file) :: table) = table.
Proof.
  cbv zeta. simpl. rewrite Z.eqb_refl. simpl. apply filter_fresh_fd.
  apply lowest_free_fresh. rewrite <- (length_map fst table).
  apply List.filter_length_le.
Qed.

Lemma same_fds_refl (st : Env) : same_fds st st.
Proof. reflexivity. Qed.

Lemma same_fds_trans (a b c : Env) : same_fds a b -> same_fds b c -> same_fds a c.
Proof. unfold same_fds. congruence. Qed.

Ltac fds_prim := unfold same_fds; reflexivity.

Ltac fds_tac := preserves_tac same_fds_refl same_fds_trans fds_prim.

Lemma stat_same_fds (q : string) : preserves same_fds (stat q).
Proof. unfold stat. fds_tac. Qed.

Lemma mkdir_same_fds (q : string) (m : Z) : preserves same_fds (mkdir q m).
Proof. unfold mkdir. fds_tac. Qed.

Lemma error_same_fds (status errnum : Z) (format : string) (args : list Arg) :
  preserves same_fds (error status errnum format args).
Proof. unfold error. fds_tac. Qed.

Lemma printf_same_fds (format : string) (args : list Arg) :
  preserves same_fds (printf format args).
Proof. unfold printf. fds_tac. Qed.

Lemma getline_same_fds : preserves same_fds getline.
Proof. unfold getline. fds_tac. Qed.

Lemma ExtractEntryToFile_same_fds (zah : ZipArchive) (entry : ZipEntry) (fd : Z) :
  preserves same_fds (ExtractEntryToFile zah entry fd).
Proof. unfold ExtractEntryToFile. fds_tac. Qed.

#[local] Hint Resolve stat_same_fds mkdir_same_fds error_same_fds printf_same_fds
  getline_same_fds ExtractEntryToFile_same_fds : preserves.

Lemma MakeDirectoryHierarchy_same_fds (path : string) :
  preserves same_fds (MakeDirectoryHierarchy path).
Proof.
  unfold MakeDirectoryHierarchy. generalize (S (S (String.length path))). intros fuel.
  revert path. induction fuel as [| fuel IH]; intros path; simpl; fds_tac.
Qed.

Lemma PromptOverwrite_same_fds (dst : string) : preserves same_fds (PromptOverwrite dst).
Proof.
  assert (Hloop : forall fuel, preserves same_fds (PromptOverwrite_loop fuel)).
  { induction fuel as [| fuel IH]; simpl; fds_tac. }
  unfold PromptOverwrite, fflush_stdout. fds_tac.
Qed.

Lemma ExtractOne_directory_same_fds (entry : ZipEntry) (name dst : string) :
  preserves same_fds (ExtractOne_directory entry name dst).
Proof. unfold ExtractOne_directory. fds_tac. Qed.

(** Extraction into a descriptor ends by closing it. *)
Lemma ExtractOne_write_fds (cfg : Flags) (zah : ZipArchive) (entry : ZipEntry)
  (dst : string) (fd : Z) (s : Env) :
  fst (ExtractOne_write cfg zah entry dst fd s) = Ret tt ->
  fds (snd (ExtractOne_write cfg zah entry dst fd s))
  = List.filter (fun d => negb (fst d =? fd)) (fds s).
Proof.
  unfold ExtractOne_write, ExtractEntryToFile, printf, close, error.
  destruct (negb (flag_q cfg)); run_prog;
    (destruct (lookup_fd fd (fds s)) as [file |]; simpl;
     [ destruct (extract zah entry) as [status data]; simpl;
       destruct (status <? 0); simpl; [discriminate | reflexivity]
     | change (kIoError <? 0) with true; simpl; discriminate ]).
Qed.

(** Whatever [open] hands out, extraction into it gives the descriptor
    back when it returns. *)
Lemma open_write_fds (cfg : Flags) (zah : ZipArchive) (entry : ZipEntry)
  (q dst : string) (flags : Z) (s : Env) (fd : Z) (s' : Env) :
  open q flags (unix_mode entry) s = (Ret fd, s') ->
  (fd =? -1) = false ->
  fst (ExtractOne_write cfg zah entry dst fd s') = Ret tt ->
  fds (snd (ExtractOne_write cfg zah entry dst fd s')) = fds s.
Proof.
  rewrite open_run.
  destruct (Posix.open_model (fs s) q flags (unix_mode entry)) as [e | [f' file]];
    cbv zeta; intros Hopen Hfd Hret.
  - injection Hopen as <- <-. discriminate.
  - injection Hopen as <- <-. rewrite (ExtractOne_write_fds _ _ _ _ _ _ Hret).
    simpl fds. apply close_after_open.
Qed.

Lemma ExtractOne_open_fds (cfg : Flags) (zah : ZipArchive) (entry : ZipEntry)
  (name dst : string) (fd : Z) (s : Env) :
  fst (ExtractOne_open cfg zah entry name dst true fd s) = Ret tt ->
  fds (snd (ExtractOne_open cfg zah entry name dst true fd s)) = fds s.
Proof.
  unfold ExtractOne_open. rewrite bind_run.
  destruct (open (c_str name) create_truncate (unix_mode entry) s)
    as [[fd' | n |] s'] eqn:Hopen.
  - rewrite bind_run. destruct (fd' =? -1) eqn:Hfd.
    + rewrite bind_run, get_run. cbv beta iota. rewrite error_run. discriminate.
    + rewrite ret_run. cbv beta iota. apply (open_write_fds _ _ _ _ _ _ _ _ _ Hopen Hfd).
  - discriminate.
  - discriminate.
Qed.

Lemma ExtractOne_file_fds (cfg : Flags) (zah : ZipArchive) (entry : ZipEntry)
  (name dst : string) (s : Env) :
  fst (ExtractOne_file cfg zah entry name dst s) = Ret tt ->
  fds (snd (ExtractOne_file cfg zah entry name dst s)) = fds s.
Proof.
  unfold ExtractOne_file. rewrite bind_run.
  pose proof (open_run (c_str name) create_exclusive (unix_mode entry) s) as Hrun.
  destruct (open (c_str name) create_exclusive (unix_mode entry) s)
    as [[fd | n |] s1] eqn:Hopen; [| discriminate | discriminate].
  assert (Hfailed : (fd =? -1) = true -> fds s1 = fds s).
  { destruct (Posix.open_model (fs s) (c_str name) create_exclusive (unix_mode entry))
      as [e | [f' file]]; cbv zeta in Hrun.
    - injection Hrun as _ ->. reflexivity.
    - injection Hrun as -> _. intros Hfd. exfalso.
      pose proof (lowest_free_ge (List.map fst (fds s)) (List.length (fds s)) 3).
      apply Z.eqb_eq in Hfd. lia. }
  clear Hrun. rewrite bind_run, get_run. cbv beta iota.
  destruct (fd =? -1) eqn:Hfd.
  - specialize (Hfailed eq_refl). cbn [andb].
    destruct (errno s1 =? Posix.EEXIST); cbv iota.
    + destruct (overwrite_mode s1).
      * intros Hret. rewrite (ExtractOne_open_fds _ _ _ _ _ _ _ Hret). exact Hfailed.
      * intros _. exact Hfailed.
      * rewrite bind_run.
        pose proof (PromptOverwrite_same_fds dst s1) as Hprompt. unfold same_fds in Hprompt.
        destruct (PromptOverwrite dst s1) as [[yes | n |] s2]; simpl in Hprompt;
          [| discriminate | discriminate].
        destruct yes; cbn [negb]; cbv iota.
        -- intros Hret. rewrite (ExtractOne_open_fds _ _ _ _ _ _ _ Hret). congruence.
        -- intros _. simpl. congruence.
    + unfold ExtractOne_open. rewrite bind_run, ret_run. cbv beta iota.
      rewrite Hfd. rewrite !bind_run, get_run. cbv beta iota. rewrite error_run.
      discriminate.
  - cbn [andb]. cbv iota. unfold ExtractOne_open.
    rewrite bind_run, ret_run. cbv beta iota. rewrite Hfd.
    rewrite bind_run, ret_run. cbv beta iota.
    apply (open_write_fds _ _ _ _ _ _ _ _ _ Hopen Hfd).
Qed.

(** When ExtractOne returns, the descriptors open for writing are the ones
    that were open before: what it opened it has closed. *)
Theorem ExtractOne_closes_what_it_opens (cfg : Flags) (zah : ZipArchive)
  (entry : ZipEntry) (name : string) (st : Env) :
  fst (ExtractOne cfg zah entry name st) = Ret tt ->
  fds (snd (ExtractOne cfg zah entry name st)) = fds st.
Proof.
  unfold ExtractOne. rewrite bind_run.
  destruct (bad_filename name).
  - rewrite error_run. discriminate.
  - rewrite ret_run. cbv beta iota. unfold ExtractOne_checked. cbv zeta.
    rewrite bind_run.
    pose proof (MakeDirectoryHierarchy_same_fds (Dirname name) st) as Hmdh.
    unfold same_fds in Hmdh.
    destruct (MakeDirectoryHierarchy (Dirname name) st) as [[ok | n |] s1];
      simpl in Hmdh; [| discriminate | discriminate].
    rewrite bind_run. destruct ok; cbn [negb]; cbv iota.
    + rewrite ret_run. cbv beta iota.
      destruct (Base.EndsWith name "/").
      * intros _. rewrite <- Hmdh. apply ExtractOne_directory_same_fds.
      * intros Hret. rewrite (ExtractOne_file_fds _ _ _ _ _ _ Hret). exact Hmdh.
    + rewrite bind_run, get_run. cbv beta iota. rewrite error_run. discriminate.
Qed.

Lemma ExtractOne_closes_what_it_opens_witness :
  fds (snd (ExtractOne unzip_flags (archive_of []) (file_entry 3 3) "docs/f"
                       (start_env kPrompt work_fs []))) = [].
Proof.
  apply (ExtractOne_closes_what_it_opens unzip_flags (archive_of []) (file_entry 3 3)
           "docs/f" (start_env kPrompt work_fs [])).
  vm_compute. reflexivity.
Defined.

(** ** Extraction of a file that is not there yet *)

Lemma open_model_exclusive (f f' : Posix.FileSystem) (q : string) (m : Z)
  (file : list string) :
  Posix.open_model f q create_exclusive m = inr (f', file) ->
  Posix.resolve f q = inr file
  /\ Posix.nodes f !! file = None
  /\ f' = Posix.with_nodes f
            (<[file := Posix.Regular (Posix.masked f m 4095) ""]> (Posix.nodes f)).
Proof.
  unfold Posix.open_model.
  destruct (Posix.resolve f q) as [e | p]; [discriminate |].
  change (Posix.has_flag create_exclusive Posix.O_CREAT) with true.
  change (Posix.has_flag create_exclusive Posix.O_EXCL) with true.
  cbn [andb negb]. cbv iota.
  destruct (Posix.nodes f !! p) as [[dperm | rperm data] |] eqn:Hp;
    [discriminate | destruct (Base.EndsWith q "/"); discriminate |].
  destruct (Base.EndsWith q "/"); [discriminate |].
  intros H. injection H as <- <-. auto.
Qed.

Lemma ExtractOne_write_quiet (cfg : Flags) (zah : ZipArchive) (entry : ZipEntry)
  (dst : string) (fd : Z) (s : Env) :
  overwrite_mode (snd (ExtractOne_write cfg zah entry dst fd s)) = overwrite_mode s
  /\ stdin (snd (ExtractOne_write cfg zah entry dst fd s)) = stdin s.
Proof.
  unfold ExtractOne_write, ExtractEntryToFile, printf, close, error.
  destruct (negb (flag_q cfg)); run_prog;
    (destruct (lookup_fd fd (fds s)) as [file |]; simpl;
     [ destruct (extract zah entry) as [status data]; simpl;
       destruct (status <? 0); simpl; split; reflexivity
     | change (kIoError <? 0) with true; simpl; split; reflexivity ]).
Qed.

(** A file entry whose parent directory could be made and whose target
    is not there yet: ExtractOne creates the file without asking and
    leaves the bytes of the entry in it; the nine permission bits of the
    file are those of the mode of the entry less the umask, and for an
    entry with neither the set-user-ID nor the set-group-ID bit that is
    the whole of its mode.  ExtractOne returns when the parser reports
    success and ends the run with status 1 otherwise, leaving the file
    behind.  No other node changes. *)
Theorem ExtractOne_creates_file (cfg : Flags) (zah : ZipArchive) (entry : ZipEntry)
  (name : string) (st st1 : Env) (f' : Posix.FileSystem) (file : list string) :
  bad_filename name = false ->
  Base.EndsWith name "/" = false ->
  MakeDirectoryHierarchy (Dirname name) st = (Ret true, st1) ->
  Posix.open_model (fs st1) (c_str name) create_exclusive (unix_mode entry)
    = inr (f', file) ->
  let result := ExtractOne cfg zah entry name st in
  fst result = (if fst (extract zah entry) <? 0 then Exit 1 else Ret tt)
  /\ Posix.nodes (fs st1) !! file = None
  /\ (exists perm,
        Posix.nodes (fs (snd result)) !! file
        = Some (Posix.Regular perm (snd (extract zah entry)))
        /\ Z.land perm 511 = Posix.masked (fs st1) (unix_mode entry) 511
        /\ (Z.land (unix_mode entry) 3072 (* 06000: S_ISUID | S_ISGID *) = 0 ->
            perm = Posix.masked (fs st1) (unix_mode entry) 4095))
  /\ (forall p, p <> file ->
                Posix.nodes (fs (snd result)) !! p = Posix.nodes (fs st1) !! p)
  /\ overwrite_mode (snd result) = overwrite_mode st
  /\ stdin (snd result) = stdin st.
Proof.
  intros Hgood Hfile Hmdh Hopen. cbv zeta.
  destruct (open_model_exclusive _ _ _ _ _ Hopen) as (_ & Hfresh & ->).
  pose proof (MakeDirectoryHierarchy_rec_only_directories
                (S (S (String.length (Dirname name)))) (Dirname name) st) as Honly.
  fold (MakeDirectoryHierarchy (Dirname name)) in Honly. rewrite Hmdh in Honly.
  destruct Honly as [Hmode _ Hstdin _ _ _ _]. simpl in Hmode, Hstdin.
  set (fd := lowest_free (List.map fst (fds st1)) 3 (List.length (fds st1))).
  set (s2 := set_fds ((fd, file) :: fds st1)
               (set_fs (Posix.with_nodes (fs st1)
                          (<[file := Posix.Regular
                                       (Posix.masked (fs st1) (unix_mode entry) 4095) ""]>
                             (Posix.nodes (fs st1))))
                  (log_syscall (CallOpen (c_str name) create_exclusive (unix_mode entry))
                     st1))).
  assert (Hfd : (fd =? -1) = false).
  { apply Z.eqb_neq.
    pose proof (lowest_free_ge (List.map fst (fds st1)) (List.length (fds st1)) 3).
    fold fd in H. lia. }
  assert (Hrun : ExtractOne cfg zah entry name st =
                 ExtractOne_write cfg zah entry (display_path cfg name) fd s2).
  { unfold ExtractOne, ExtractOne_checked. rewrite Hgood, Hfile. cbv zeta iota.
    unfold bind at 1. unfold ret at 1.
    rewrite (bind_Ret _ _ _ _ _ Hmdh). cbn [negb]. cbv iota.
    rewrite bind_run, ret_run. cbv beta iota.
    unfold ExtractOne_file. rewrite bind_run, open_run, Hopen. cbv zeta beta iota.
    fold fd. fold s2. rewrite bind_run, get_run. cbv beta iota.
    rewrite Hfd. cbn [andb]. cbv iota.
    unfold ExtractOne_open. rewrite bind_run, ret_run. cbv beta iota.
    rewrite Hfd. rewrite bind_run, ret_run. cbv beta iota. reflexivity. }
  rewrite Hrun.
  destruct (ExtractOne_write_effect cfg zah entry (display_path cfg name) fd file s2)
    as [Hout Hfs]; [apply lookup_fd_head |].
  destruct (ExtractOne_write_quiet cfg zah entry (display_path cfg name) fd s2)
    as [Hm2 Hs2].
  split; [exact Hout |]. split; [exact Hfresh |].
  rewrite Hfs, Hm2, Hs2. unfold write_file. simpl fs. simpl Posix.nodes.
  rewrite lookup_insert_eq. simpl Posix.nodes.
  split.
  { eexists. split; [apply lookup_insert_eq |].
    split; [| intros _; reflexivity].
    unfold Posix.masked. rewrite <- (Z.land_assoc _ 4095 511). reflexivity. }
  split; [| split; assumption].
  intros p Hp. rewrite !lookup_insert_ne by congruence. reflexivity.
Qed.

Lemma ExtractOne_creates_file_witness :
  let result := ExtractOne unzip_flags (archive_of []) (file_entry 3 3) "docs/f"
                           (start_env kPrompt work_fs []) in
  fst result = Ret tt
  /\ Posix.nodes (fs result.2) !! ["work"; "docs"; "f"] = Some (Posix.Regular 420 "new").
Proof.
  cbv zeta.
  destruct (ExtractOne_creates_file unzip_flags (archive_of []) (file_entry 3 3) "docs/f"
              (start_env kPrompt work_fs [])
              (snd (MakeDirectoryHierarchy "docs" (start_env kPrompt work_fs [])))
              (Posix.with_nodes
                 (fs (snd (MakeDirectoryHierarchy "docs" (start_env kPrompt work_fs []))))
                 (<[ ["work"; "docs"; "f"] := Posix.Regular 420 "" ]>
                    (Posix.nodes
                       (fs (snd (MakeDirectoryHierarchy "docs"
                                   (start_env kPrompt work_fs [])))))))
              ["work"; "docs"; "f"])
    as (Hout & _ & (perm & Hnode & _ & Hexact) & _).
  - reflexivity.
  - reflexivity.
  - vm_compute. reflexivity.
  - vm_compute. reflexivity.
  - split; [exact Hout |]. rewrite Hnode, (Hexact eq_refl). reflexivity.
Defined.

(** ** Listing and printing *)

Lemma only_output_refl (st : Env) : only_output st st.
Proof. repeat split. Qed.

Lemma only_output_trans (a b c : Env) :
  only_output a b -> only_output b c -> only_output a c.
Proof.
  intros (H1 & H2 & H3 & H4 & H5 & H6) (G1 & G2 & G3 & G4 & G5 & G6).
  repeat split; congruence.
Qed.

Ltac output_prim := solve [ repeat split ].

Ltac output_tac := preserves_tac only_output_refl only_output_trans output_prim.

Lemma printf_only_output (format : string) (args : list Arg) :
  preserves only_output (printf format args).
Proof. unfold printf. output_tac. Qed.

#[local] Hint Resolve printf_only_output : preserves.

Lemma ListOne_only_output (cfg : Flags) (entry : ZipEntry) (name : string) :
  preserves only_output (ListOne cfg entry name).
Proof. unfold ListOne. cbv zeta. output_tac. Qed.

Lemma InfoOne_only_output (cfg : Flags) (entry : ZipEntry) (name : string) :
  preserves only_output (InfoOne cfg entry name).
Proof. unfold InfoOne. cbv zeta. output_tac. Qed.

Lemma MaybeShowHeader_only_output (cfg : Flags) (zah : ZipArchive) :
  preserves only_output (MaybeShowHeader cfg zah).
Proof. unfold MaybeShowHeader. output_tac. Qed.

Lemma error_only_output (status errnum : Z) (format : string) (args : list Arg) :
  preserves only_output (error status errnum format args).
Proof. unfold error. output_tac. Qed.

#[local] Hint Resolve ListOne_only_output InfoOne_only_output MaybeShowHeader_only_output
  error_only_output : preserves.

Lemma on_env_only_output {A : Type} (m : M Env A) :
  preserves only_output m ->
  preserves (fun r r' => only_output (env r) (env r')) (on_env m).
Proof. intros Hm r. rewrite on_env_run. simpl. apply Hm. Qed.

Ltac run_output_tac :=
  repeat first
    [ apply on_env_only_output
    | solve [ auto 1 with preserves nocore ]
    | preserves_step (fun r : Run => only_output_refl (env r))
                     (fun a b c : Run => only_output_trans (env a) (env b) (env c))
                     output_prim ].

Lemma MaybeShowFooter_only_output (cfg : Flags) :
  preserves (fun r r' => only_output (env r) (env r')) (MaybeShowFooter cfg).
Proof. unfold MaybeShowFooter. run_output_tac. Qed.

#[local] Hint Resolve MaybeShowFooter_only_output : preserves.

(** When unzip lists (-l, -v) and when the tool runs as zipinfo, a run of
    ProcessAll does nothing but print: however it ends, the file system,
    the descriptors, the overwrite mode and standard input are as they
    were, and no system call has been made. *)
Theorem listing_only_prints (fnmatch : string -> string -> Z -> Z) (cfg : Flags)
  (zah : ZipArchive) (r : Run) :
  is_unzip cfg = false \/ flag_l cfg = true \/ flag_v cfg = true ->
  only_output (env r) (env (snd (ProcessAll fnmatch cfg zah r))).
Proof.
  intros Hlist.
  assert (Hone : forall entry name,
            preserves (fun r r' => only_output (env r) (env r'))
                      (ProcessOne cfg zah entry name)).
  { intros entry name. unfold ProcessOne.
    destruct (is_unzip cfg).
    - destruct Hlist as [H | [H | H]]; [discriminate | |]; rewrite H;
        rewrite ?orb_true_r; cbn [orb]; run_output_tac.
    - run_output_tac. }
  assert (Hloop : forall pending,
            preserves (fun r r' => only_output (env r) (env r'))
                      (ProcessAll_loop fnmatch cfg zah pending)).
  { induction pending as [| [entry name] rest IH]; simpl; run_output_tac. }
  revert r.
  change (preserves (fun r r' => only_output (env r) (env r')) (ProcessAll fnmatch cfg zah)).
  unfold ProcessAll. run_output_tac.
Qed.

Lemma listing_only_prints_witness :
  only_output (start_env kPrompt work_fs_with_f [])
    (env (snd (ProcessAll simple_fnmatch scenario_a_flags scenario_a_archive
                          (start_run (start_env kPrompt work_fs_with_f []))))).
Proof.
  apply (listing_only_prints simple_fnmatch scenario_a_flags scenario_a_archive
           (start_run (start_env kPrompt work_fs_with_f []))).
  right. left. reflexivity.
Defined.

Lemma ProcessOne_names (cfg : Flags) (zah : ZipArchive) (entry : ZipEntry)
  (name : string) (r : Run) :
  is_unzip cfg = false -> flag_1 cfg = true ->
  ProcessOne cfg zah entry name r =
    (Ret tt, count_entry entry (set_env (put_stdout (name_line (entry, name)) (env r)) r)).
Proof.
  intros Hzip H1. unfold ProcessOne. rewrite Hzip. unfold InfoOne. rewrite H1.
  rewrite bind_run, on_env_run. unfold printf. rewrite modify_run. reflexivity.
Qed.

(** zipinfo -1: the loop prints one line for every accepted entry, its
    name, and nothing else. *)
Lemma ProcessAll_loop_names (fnmatch : string -> string -> Z -> Z) (cfg : Flags)
  (zah : ZipArchive) (pending : list (ZipEntry * string)) :
  is_unzip cfg = false -> flag_1 cfg = true ->
  forall r : Run,
    fst (ProcessAll_loop fnmatch cfg zah pending r) = Ret (iteration_end zah)
    /\ stdout (env (snd (ProcessAll_loop fnmatch cfg zah pending r)))
       = (stdout (env r) ++ List.map name_line (accepted fnmatch cfg pending))%list
    /\ stderr (env (snd (ProcessAll_loop fnmatch cfg zah pending r))) = stderr (env r).
Proof.
  intros Hzip H1. induction pending as [| [entry name] rest IH]; intros r.
  - simpl ProcessAll_loop. rewrite bind_run, modify_run. cbv beta iota.
    rewrite ret_run. simpl. rewrite app_nil_r. repeat split.
  - simpl ProcessAll_loop. rewrite bind_run, modify_run. cbv beta iota.
    rewrite bind_run. unfold accepted. simpl List.filter.
    destruct (ShouldInclude fnmatch cfg name).
    + rewrite (ProcessOne_names cfg zah entry name _ Hzip H1). cbv beta iota.
      destruct (IH (count_entry entry
                      (set_env (put_stdout (name_line (entry, name))
                                  (env (log_parser CallNext r)))
                               (log_parser CallNext r)))) as (Hret & Hout & Herr).
      split; [exact Hret |]. split.
      * rewrite Hout. simpl. rewrite <- app_assoc. reflexivity.
      * rewrite Herr. reflexivity.
    + rewrite ret_run. cbv beta iota.
      destruct (IH (log_parser CallNext r)) as (Hret & Hout & Herr).
      split; [exact Hret |]. split; [rewrite Hout | rewrite Herr]; reflexivity.
Qed.

(** zipinfo -1 prints the name of every entry that passes the filter, one
    to a line and in the order of the iteration, and nothing else: no
    header and no footer, whether or not patterns were given. *)
Theorem zipinfo_names_only (fnmatch : string -> string -> Z -> Z) (cfg : Flags)
  (zah : ZipArchive) (r : Run) :
  is_unzip cfg = false -> flag_1 cfg = true -> iteration_start zah = 0 ->
  let result := ProcessAll fnmatch cfg zah r in
  stdout (env (snd result))
  = (stdout (env r) ++ List.map name_line (accepted fnmatch cfg (entries zah)))%list
  /\ fst result = (if iteration_end zah <? -1 then Exit 1 else Ret tt).
Proof.
  intros Hzip H1 Hstart. cbv zeta. unfold ProcessAll.
  assert (Hheader : forall e, MaybeShowHeader cfg zah e = (Ret tt, e)).
  { intros e. unfold MaybeShowHeader. rewrite Hzip, H1. reflexivity. }
  assert (Hfooter : forall x, MaybeShowFooter cfg x = (Ret tt, x)).
  { intros x. unfold MaybeShowFooter. rewrite bind_run, get_run. cbv beta iota.
    rewrite Hzip, H1. reflexivity. }
  rewrite bind_run, on_env_run, Hheader. simpl fst. simpl snd. cbv beta iota.
  rewrite set_env_env. rewrite bind_run, modify_run. cbv beta iota.
  rewrite Hstart. change (negb (0 =? 0)) with false. cbv iota.
  rewrite bind_run, ret_run. cbv beta iota. rewrite bind_run.
  destruct (ProcessAll_loop_names fnmatch cfg zah (entries zah) Hzip H1
              (log_parser CallStartIteration r)) as (Hret & Hout & Herr).
  destruct (ProcessAll_loop fnmatch cfg zah (entries zah)
              (log_parser CallStartIteration r)) as [o r1].
  simpl in Hret, Hout, Herr. subst o. rewrite bind_run.
  destruct (iteration_end zah <? -1).
  - rewrite on_env_run, error_run. simpl. split; [exact Hout | reflexivity].
  - rewrite ret_run. cbv beta iota. rewrite bind_run, modify_run. cbv beta iota.
    rewrite Hfooter. simpl. split; [exact Hout | reflexivity].
Qed.

Lemma zipinfo_names_only_witness :
  let result := ProcessAll simple_fnmatch names_flags scenario_a_archive
                           (start_run (start_env kPrompt work_fs [])) in
  stdout (env (snd result))
  = [Printf ("%s" +:+ LF) [AStr "a.txt"]; Printf ("%s" +:+ LF) [AStr "c.log"]]
  /\ fst result = Ret tt.
Proof.
  exact (zipinfo_names_only simple_fnmatch names_flags scenario_a_archive
           (start_run (start_env kPrompt work_fs [])) eq_refl eq_refl eq_refl).
Defined.

(** ** Header, rows and footer of the inspector *)

Lemma ProcessOne_rows (cfg : Flags) (zah : ZipArchive) (entry : ZipEntry)
  (name : string) (r : Run) :
  is_unzip cfg = false -> flag_1 cfg = false ->
  ProcessOne cfg zah entry name r =
    (Ret tt, count_entry entry (set_env (put_stdout (info_row (entry, name)) (env r)) r)).
Proof.
  intros Hzip H1. unfold ProcessOne. rewrite Hzip. unfold InfoOne. rewrite H1.
  rewrite bind_run, on_env_run. cbv zeta. unfold printf. rewrite modify_run.
  reflexivity.
Qed.

(** zipinfo without -1: the loop prints one row for every accepted entry
    and nothing else. *)
Lemma ProcessAll_loop_rows (fnmatch : string -> string -> Z -> Z) (cfg : Flags)
  (zah : ZipArchive) (pending : list (ZipEntry * string)) :
  is_unzip cfg = false -> flag_1 cfg = false ->
  forall r : Run,
    fst (ProcessAll_loop fnmatch cfg zah pending r) = Ret (iteration_end zah)
    /\ stdout (env (snd (ProcessAll_loop fnmatch cfg zah pending r)))
       = (stdout (env r) ++ List.map info_row (accepted fnmatch cfg pending))%list.
Proof.
  intros Hzip H1. induction pending as [| [entry name] rest IH]; intros r.
  - simpl ProcessAll_loop. rewrite bind_run, modify_run. cbv beta iota.
    rewrite ret_run. simpl. rewrite app_nil_r. split; reflexivity.
  - simpl ProcessAll_loop. rewrite bind_run, modify_run. cbv beta iota.
    rewrite bind_run. unfold accepted. simpl List.filter.
    destruct (ShouldInclude fnmatch cfg name).
    + rewrite (ProcessOne_rows cfg zah entry name _ Hzip H1). cbv beta iota.
      destruct (IH (count_entry entry
                      (set_env (put_stdout (info_row (entry, name))
                                  (env (log_parser CallNext r)))
                               (log_parser CallNext r)))) as (Hret & Hout).
      split; [exact Hret |].
      rewrite Hout. simpl. rewrite <- app_assoc. reflexivity.
    + rewrite ret_run. cbv beta iota.
      destruct (IH (log_parser CallNext r)) as (Hret & Hout).
      split; [exact Hret | rewrite Hout; reflexivity].
Qed.

(** C10: zipinfo without -1 prints the archive header and the summary
    footer when both pattern sets are empty, and prints neither as soon as
    an include or an exclude pattern is given, while the rows are still
    printed: InfoOne prints the row of the entry it is called on, and the
    output of a whole run is, with patterns, the rows of the entries that
    pass the filter and nothing else, and without them the header, the
    rows and, when the iteration ends without a fault, the footer. *)
Theorem zipinfo_header_footer (fnmatch : string -> string -> Z -> Z) (cfg : Flags)
  (zah : ZipArchive) (st : Env) (r : Run) :
  is_unzip cfg = false -> flag_1 cfg = false ->
  (includes cfg = ∅ /\ excludes cfg = ∅ ->
     (exists st', MaybeShowHeader cfg zah st = (Ret tt, st')
                  /\ stdout st' = (stdout st ++ zipinfo_header cfg zah)%list)
     /\ (exists r', MaybeShowFooter cfg r = (Ret tt, r')
                    /\ stdout (env r') = (stdout (env r) ++ [zipinfo_footer r])%list))
  /\ (includes cfg <> ∅ \/ excludes cfg <> ∅ ->
        MaybeShowHeader cfg zah st = (Ret tt, st)
        /\ MaybeShowFooter cfg r = (Ret tt, r))
  /\ (forall (entry : ZipEntry) (name : string),
        InfoOne cfg entry name st = (Ret tt, put_stdout (info_row (entry, name)) st))
  /\ (iteration_start zah = 0 ->
      let result := ProcessAll fnmatch cfg zah r in
      let rows := List.map info_row (accepted fnmatch cfg (entries zah)) in
      fst result = (if iteration_end zah <? -1 then Exit 1 else Ret tt)
      /\ (includes cfg <> ∅ \/ excludes cfg <> ∅ ->
          stdout (env (snd result)) = (stdout (env r) ++ rows)%list)
      /\ (includes cfg = ∅ /\ excludes cfg = ∅ ->
          stdout (env (snd result))
          = (stdout (env r) ++ zipinfo_header cfg zah ++ rows
             ++ (if is_ret (fst result) then [zipinfo_footer (snd result)] else []))%list)).
Proof.
  intros Hzip H1.
  assert (Hshown : includes cfg = ∅ /\ excludes cfg = ∅ ->
            (forall e, MaybeShowHeader cfg zah e
                       = (Ret tt, put_stdout
                                    (Printf ("Zip file size: %ld bytes, number of entries: %zu"
                                             +:+ LF)
                                            [AInt (archive_size zah); AInt (entry_count zah)])
                                    (put_stdout
                                       (Printf ("Archive:  %s" +:+ LF)
                                               [AStr (archive_name_str cfg)]) e)))
            /\ (forall x, MaybeShowFooter cfg x
                          = (Ret tt, set_env (put_stdout (zipinfo_footer x) (env x)) x))).
  { intros [Hi He]. split.
    - intros e. unfold MaybeShowHeader. rewrite Hzip, H1.
      rewrite !bool_decide_eq_true_2 by assumption. simpl.
      unfold printf. rewrite bind_run, modify_run. cbv beta iota.
      rewrite modify_run. reflexivity.
    - intros x. unfold MaybeShowFooter. rewrite bind_run, get_run. cbv beta iota.
      rewrite Hzip, H1. rewrite !bool_decide_eq_true_2 by assumption. simpl.
      rewrite on_env_run. unfold printf. rewrite modify_run. reflexivity. }
  assert (Hhidden : includes cfg <> ∅ \/ excludes cfg <> ∅ ->
            (forall e, MaybeShowHeader cfg zah e = (Ret tt, e))
            /\ (forall x, MaybeShowFooter cfg x = (Ret tt, x))).
  { intros Hne.
    assert (Hb : bool_decide (includes cfg = ∅) && bool_decide (excludes cfg = ∅)
                 = false).
    { destruct Hne as [Hne | Hne].
      - rewrite (bool_decide_eq_false_2 _ Hne). reflexivity.
      - rewrite (bool_decide_eq_false_2 _ Hne). apply andb_false_r. }
    split.
    - intros e. unfold MaybeShowHeader. rewrite Hzip, H1. simpl. rewrite Hb.
      reflexivity.
    - intros x. unfold MaybeShowFooter. rewrite bind_run, get_run. cbv beta iota.
      rewrite Hzip, H1. simpl. rewrite Hb. reflexivity. }
  split; [| split; [| split]].
  - intros Hempty. destruct (Hshown Hempty) as [Hheader Hfooter]. split.
    + eexists. split; [apply Hheader |]. simpl. rewrite <- app_assoc. reflexivity.
    + eexists. split; [apply Hfooter |]. reflexivity.
  - intros Hne. destruct (Hhidden Hne) as [Hheader Hfooter].
    split; [apply Hheader | apply Hfooter].
  - intros entry name. unfold InfoOne. rewrite H1. reflexivity.
  - intros Hstart. cbv zeta.
    assert (Hrun : forall (e0 : Env) (footer : Run -> list Output),
              MaybeShowHeader cfg zah (env r) = (Ret tt, e0) ->
              (forall x, exists x',
                 MaybeShowFooter cfg x = (Ret tt, x')
                 /\ stdout (env x') = (stdout (env x) ++ footer x')%list) ->
              fst (ProcessAll fnmatch cfg zah r)
              = (if iteration_end zah <? -1 then Exit 1 else Ret tt)
              /\ stdout (env (snd (ProcessAll fnmatch cfg zah r)))
                 = (stdout e0
                    ++ List.map info_row (accepted fnmatch cfg (entries zah))
                    ++ (if is_ret (fst (ProcessAll fnmatch cfg zah r))
                        then footer (snd (ProcessAll fnmatch cfg zah r)) else []))%list).
    { intros e0 footer Hheader Hfooter. unfold ProcessAll.
      rewrite bind_run, on_env_run, Hheader. simpl fst. simpl snd. cbv beta iota.
      rewrite bind_run, modify_run. cbv beta iota.
      rewrite Hstart. change (negb (0 =? 0)) with false. cbv iota.
      rewrite bind_run, ret_run. cbv beta iota. rewrite bind_run.
      destruct (ProcessAll_loop_rows fnmatch cfg zah (entries zah) Hzip H1
                  (log_parser CallStartIteration (set_env e0 r))) as (Hret & Hout).
      destruct (ProcessAll_loop fnmatch cfg zah (entries zah)
                  (log_parser CallStartIteration (set_env e0 r))) as [o r1].
      simpl in Hret, Hout. subst o. rewrite bind_run.
      destruct (iteration_end zah <? -1).
      - rewrite on_env_run, error_run. simpl. split; [reflexivity |].
        rewrite Hout, app_nil_r. reflexivity.
      - rewrite ret_run. cbv beta iota. rewrite bind_run, modify_run. cbv beta iota.
        destruct (Hfooter (log_parser CallEndIteration r1)) as (x' & Hx & Hxout).
        rewrite Hx. simpl. split; [reflexivity |].
        rewrite Hxout. simpl. rewrite Hout. rewrite <- app_assoc. reflexivity. }
    split; [| split].
    + destruct (decide (includes cfg = ∅)) as [Hi | Hi];
        [destruct (decide (excludes cfg = ∅)) as [He | He] |].
      * destruct (Hshown (conj Hi He)) as [Hheader Hfooter].
        destruct (Hrun _ (fun x => [zipinfo_footer x]) (Hheader (env r))) as [Hfst _];
          [| exact Hfst].
        intros x. eexists. split; [apply Hfooter | reflexivity].
      * destruct (Hhidden (or_intror He)) as [Hheader Hfooter].
        destruct (Hrun (env r) (fun _ => []) (Hheader (env r))) as [Hfst _];
          [| exact Hfst].
        intros x. exists x. split; [apply Hfooter | rewrite app_nil_r; reflexivity].
      * destruct (Hhidden (or_introl Hi)) as [Hheader Hfooter].
        destruct (Hrun (env r) (fun _ => []) (Hheader (env r))) as [Hfst _];
          [| exact Hfst].
        intros x. exists x. split; [apply Hfooter | rewrite app_nil_r; reflexivity].
    + intros Hne. destruct (Hhidden Hne) as [Hheader Hfooter].
      destruct (Hrun (env r) (fun _ => []) (Hheader (env r))) as [_ Hout].
      * intros x. exists x. split; [apply Hfooter | rewrite app_nil_r; reflexivity].
      * rewrite Hout. destruct (is_ret _); rewrite ?app_nil_r; reflexivity.
    + intros Hempty. destruct (Hshown Hempty) as [Hheader Hfooter].
      destruct (Hrun _ (fun x => [zipinfo_footer x]) (Hheader (env r))) as [_ Hout].
      * intros x. eexists. split; [apply Hfooter | reflexivity].
      * rewrite Hout. simpl. rewrite <- !app_assoc. reflexivity.
Qed.

Lemma zipinfo_header_footer_witness :
  let result := ProcessAll simple_fnmatch (zipinfo_flags {[ "*.txt" ]} ∅)
                           scenario_a_archive
                           (start_run (start_env kPrompt work_fs [])) in
  MaybeShowHeader (zipinfo_flags {[ "*.txt" ]} ∅) scenario_a_archive
                  (start_env kPrompt work_fs [])
    = (Ret tt, start_env kPrompt work_fs [])
  /\ MaybeShowFooter (zipinfo_flags {[ "*.txt" ]} ∅)
                     (mkRun (start_env kPrompt work_fs []) 7 5 2 [])
    = (Ret tt, mkRun (start_env kPrompt work_fs []) 7 5 2 [])
  /\ fst result = Ret tt
  /\ stdout (env (snd result))
     = [info_row (file_entry 10 4, "a.txt"); info_row (file_entry 20 5, "b.txt")].
Proof.
  cbv zeta.
  destruct (zipinfo_header_footer simple_fnmatch (zipinfo_flags {[ "*.txt" ]} ∅)
              scenario_a_archive (start_env kPrompt work_fs [])
              (mkRun (start_env kPrompt work_fs []) 7 5 2 [])
              eq_refl eq_refl) as (_ & Hsuppressed & _ & _).
  destruct (zipinfo_header_footer simple_fnmatch (zipinfo_flags {[ "*.txt" ]} ∅)
              scenario_a_archive (start_env kPrompt work_fs [])
              (start_run (start_env kPrompt work_fs []))
              eq_refl eq_refl) as (_ & _ & _ & Hrun).
  assert (Hne : includes (zipinfo_flags {[ "*.txt" ]} ∅) <> ∅
                \/ excludes (zipinfo_flags {[ "*.txt" ]} ∅) <> ∅)
    by (left; simpl; apply non_empty_singleton_L).
  destruct (Hsuppressed Hne) as [Hheader Hfooter].
  destruct (Hrun eq_refl) as (Hfst & Hrows & _).
  split; [exact Hheader |]. split; [exact Hfooter |].
  split; [exact Hfst | exact (Hrows Hne)].
Defined.

(** ** Piping *)

Lemma ExtractToPipe_run (zah : ZipArchive) (entry : ZipEntry) (name : string) (st : Env) :
  stdout_open st = true ->
  ExtractToPipe zah entry name st =
    if fst (extract zah entry) <? 0
    then (Exit 1,
          put_stderr (mkDiagnostic 0 "failed to extract %s: %s"
                        [AStr (c_str name); AErrorCodeString (fst (extract zah entry))])
            (log_syscall CallExtractToMemory st))
    else (Ret tt,
          put_stdout (Bytes (snd (extract zah entry)))
            (log_syscall (CallWrite 1) (log_syscall CallExtractToMemory st))).
Proof.
  intros Hopen. unfold ExtractToPipe, ExtractToMemory, WriteFully_stdout, error.
  destruct (extract zah entry) as [err buffer]. run_prog.
  destruct (err <? 0); simpl; [reflexivity |]. rewrite Hopen. reflexivity.
Qed.

Lemma ProcessOne_pipes (cfg : Flags) (zah : ZipArchive) (entry : ZipEntry)
  (name : string) (r : Run) :
  is_unzip cfg = true -> flag_l cfg = false -> flag_v cfg = false -> flag_p cfg = true ->
  stdout_open (env r) = true ->
  ProcessOne cfg zah entry name r =
    if fst (extract zah entry) <? 0
    then (Exit 1,
          set_env
            (put_stderr (mkDiagnostic 0 "failed to extract %s: %s"
                           [AStr (c_str name);
                            AErrorCodeString (fst (extract zah entry))])
               (log_syscall CallExtractToMemory (env r))) r)
    else (Ret tt,
          count_entry entry
            (set_env
               (put_stdout (Bytes (snd (extract zah entry)))
                  (log_syscall (CallWrite 1)
                     (log_syscall CallExtractToMemory (env r)))) r)).
Proof.
  intros Hzip Hl Hv Hp Hopen. unfold ProcessOne. rewrite Hzip, Hl, Hv, Hp.
  cbn [orb]. cbv iota. rewrite bind_run, on_env_run.
  rewrite ExtractToPipe_run by exact Hopen.
  destruct (fst (extract zah entry) <? 0); reflexivity.
Qed.

Lemma ProcessAll_loop_pipes (fnmatch : string -> string -> Z -> Z) (cfg : Flags)
  (zah : ZipArchive) (pending : list (ZipEntry * string)) :
  is_unzip cfg = true -> flag_l cfg = false -> flag_v cfg = false -> flag_p cfg = true ->
  forall r : Run,
    stdout_open (env r) = true ->
    stdout (env (snd (ProcessAll_loop fnmatch cfg zah pending r)))
    = (stdout (env r) ++ piped zah (accepted fnmatch cfg pending))%list
    /\ fs (env (snd (ProcessAll_loop fnmatch cfg zah pending r))) = fs (env r)
    /\ (all_extract zah (accepted fnmatch cfg pending) ->
        fst (ProcessAll_loop fnmatch cfg zah pending r) = Ret (iteration_end zah)
        /\ stderr (env (snd (ProcessAll_loop fnmatch cfg zah pending r)))
           = stderr (env r))
    /\ (~ all_extract zah (accepted fnmatch cfg pending) ->
        fst (ProcessAll_loop fnmatch cfg zah pending r) = Exit 1).
Proof.
  intros Hzip Hl Hv Hp. induction pending as [| [entry name] rest IH]; intros r Hopen.
  - simpl ProcessAll_loop. rewrite bind_run, modify_run. cbv beta iota.
    rewrite ret_run. simpl. rewrite app_nil_r.
    split; [reflexivity |]. split; [reflexivity |]. split.
    + intros _. split; reflexivity.
    + intros Hno. exfalso. apply Hno. constructor.
  - simpl ProcessAll_loop. rewrite bind_run, modify_run. cbv beta iota.
    rewrite bind_run. unfold accepted. simpl List.filter.
    destruct (ShouldInclude fnmatch cfg name).
    + rewrite (ProcessOne_pipes cfg zah entry name (log_parser CallNext r) Hzip Hl Hv Hp Hopen).
      simpl piped. unfold all_extract.
      destruct (fst (extract zah entry) <? 0) eqn:Herr.
      * simpl. rewrite app_nil_r. split; [reflexivity |]. split; [reflexivity |]. split.
        -- intros Hall. apply Forall_cons in Hall. destruct Hall as [Hfail _].
           simpl in Hfail. congruence.
        -- intros _. reflexivity.
      * cbv beta iota.
        match goal with
        | |- context [ProcessAll_loop fnmatch cfg zah rest ?x] =>
            destruct (IH x Hopen) as (Hout & Hfs & Hok & Hbad)
        end.
        split; [rewrite Hout; simpl; rewrite <- app_assoc; reflexivity |].
        split; [rewrite Hfs; reflexivity |].
        split.
        -- intros Hall. apply Forall_cons in Hall. destruct Hall as [_ Hall].
           destruct (Hok Hall) as [Hret Hstderr]. split; [exact Hret |].
           rewrite Hstderr. reflexivity.
        -- intros Hno. apply Hbad. intros Hall. apply Hno.
           constructor; [exact Herr | exact Hall].
    + rewrite ret_run. cbv beta iota.
      destruct (IH (log_parser CallNext r) Hopen) as (Hout & Hfs & Hok & Hbad).
      split; [rewrite Hout; reflexivity |].
      split; [rewrite Hfs; reflexivity |].
      split; [intros Hall; destruct (Hok Hall); split; assumption | exact Hbad].
Qed.

(** unzip -p (which implies -q) writes to standard output the bytes of
    the accepted entries, in the order of the iteration and up to the
    first entry that fails to extract, and nothing else: no header, no
    entry names and no footer.  It never touches the file system.  When
    an entry fails to extract the run ends with status 1. *)
Theorem pipe_writes_only_the_entries (fnmatch : string -> string -> Z -> Z) (cfg : Flags)
  (zah : ZipArchive) (r : Run) :
  is_unzip cfg = true -> flag_l cfg = false -> flag_v cfg = false ->
  flag_p cfg = true -> flag_q cfg = true ->
  iteration_start zah = 0 ->
  stdout_open (env r) = true ->
  let result := ProcessAll fnmatch cfg zah r in
  stdout (env (snd result))
  = (stdout (env r) ++ piped zah (accepted fnmatch cfg (entries zah)))%list
  /\ fs (env (snd result)) = fs (env r)
  /\ (all_extract zah (accepted fnmatch cfg (entries zah)) ->
      fst result = (if iteration_end zah <? -1 then Exit 1 else Ret tt))
  /\ (~ all_extract zah (accepted fnmatch cfg (entries zah)) -> fst result = Exit 1).
Proof.
  intros Hzip Hl Hv Hp Hq Hstart Hopen. cbv zeta. unfold ProcessAll.
  assert (Hheader : forall e, MaybeShowHeader cfg zah e = (Ret tt, e)).
  { intros e. unfold MaybeShowHeader. rewrite Hzip, Hq, Hv, Hl. reflexivity. }
  assert (Hfooter : forall x, MaybeShowFooter cfg x = (Ret tt, x)).
  { intros x. unfold MaybeShowFooter. rewrite bind_run, get_run. cbv beta iota.
    rewrite Hzip, Hv, Hl. reflexivity. }
  rewrite bind_run, on_env_run, Hheader. simpl fst. simpl snd. cbv beta iota.
  rewrite set_env_env. rewrite bind_run, modify_run. cbv beta iota.
  rewrite Hstart. change (negb (0 =? 0)) with false. cbv iota.
  rewrite bind_run, ret_run. cbv beta iota. rewrite bind_run.
  destruct (ProcessAll_loop_pipes fnmatch cfg zah (entries zah) Hzip Hl Hv Hp
              (log_parser CallStartIteration r) Hopen) as (Hout & Hfs & Hok & Hbad).
  destruct (ProcessAll_loop fnmatch cfg zah (entries zah)
              (log_parser CallStartIteration r)) as [[err | n |] r1];
    simpl in Hout, Hfs, Hok, Hbad.
  - rewrite bind_run. destruct (err <? -1) eqn:Herr.
    + rewrite on_env_run, error_run. simpl.
      split; [exact Hout |]. split; [exact Hfs |]. split.
      * intros Hall. destruct (Hok Hall) as [Hret _]. injection Hret as ->.
        rewrite Herr. reflexivity.
      * intros _. reflexivity.
    + rewrite ret_run. cbv beta iota. rewrite bind_run, modify_run. cbv beta iota.
      rewrite Hfooter. simpl.
      split; [exact Hout |]. split; [exact Hfs |]. split.
      * intros Hall. destruct (Hok Hall) as [Hret _]. injection Hret as ->.
        rewrite Herr. reflexivity.
      * intros Hno. specialize (Hbad Hno). discriminate.
  - simpl. split; [exact Hout |]. split; [exact Hfs |]. split.
    + intros Hall. destruct (Hok Hall) as [Hret _]. discriminate.
    + intros Hno. specialize (Hbad Hno). injection Hbad as ->. reflexivity.
  - simpl. split; [exact Hout |]. split; [exact Hfs |]. split.
    + intros Hall. destruct (Hok Hall) as [Hret _]. discriminate.
    + intros Hno. specialize (Hbad Hno). discriminate.
Qed.

Lemma pipe_writes_only_the_entries_witness :
  let result := ProcessAll simple_fnmatch pipe_flags damaged_archive
                           (start_run (start_env kPrompt work_fs [])) in
  stdout (env (snd result)) = [Bytes "data"]
  /\ fs (env (snd result)) = work_fs
  /\ fst result = Exit 1.
Proof.
  cbv zeta.
  destruct (pipe_writes_only_the_entries simple_fnmatch pipe_flags damaged_archive
              (start_run (start_env kPrompt work_fs []))
              eq_refl eq_refl eq_refl eq_refl eq_refl eq_refl eq_refl)
    as (Hout & Hfs & _ & Hbad).
  split; [exact Hout |]. split; [exact Hfs |].
  apply Hbad. intros Hall. inversion Hall as [| x l _ Hrest]. subst.
  inversion Hrest as [| y l' Hb _]. subst. vm_compute in Hb. discriminate.
Defined.

(** ** The calls made to the archive parser *)

Lemma ProcessAll_loop_calls (fnmatch : string -> string -> Z -> Z) (cfg : Flags)
  (zah : ZipArchive) (pending : list (ZipEntry * string)) :
  forall r : Run,
    exists k : nat,
      (1 <= k <= S (List.length pending))%nat
      /\ parser_calls (snd (ProcessAll_loop fnmatch cfg zah pending r))
         = (parser_calls r ++ repeat CallNext k)%list
      /\ (forall err, fst (ProcessAll_loop fnmatch cfg zah pending r) = Ret err ->
          k = S (List.length pending)).
Proof.
  induction pending as [| [entry name] rest IH]; intros r.
  - exists 1%nat. simpl ProcessAll_loop. rewrite bind_run, modify_run. cbv beta iota.
    rewrite ret_run. simpl. repeat split; lia.
  - simpl ProcessAll_loop. rewrite bind_run, modify_run. cbv beta iota.
    rewrite bind_run.
    assert (Hnext : forall r1 : Run,
              parser_calls r1 = (parser_calls r ++ [CallNext])%list ->
              exists k : nat,
                (1 <= k <= S (S (List.length rest)))%nat
                /\ parser_calls (snd (ProcessAll_loop fnmatch cfg zah rest r1))
                   = (parser_calls r ++ repeat CallNext k)%list
                /\ (forall err,
                      fst (ProcessAll_loop fnmatch cfg zah rest r1) = Ret err ->
                      k = S (S (List.length rest)))).
    { intros r1 Hr1. destruct (IH r1) as (k & Hk & Hcalls & Hret).
      exists (S k). split; [lia |]. split.
      - rewrite Hcalls, Hr1, <- app_assoc. reflexivity.
      - intros err Herr. rewrite (Hret err Herr). reflexivity. }
    destruct (ShouldInclude fnmatch cfg name).
    + destruct (ProcessOne_effect cfg zah entry name (log_parser CallNext r))
        as (Hcalls & _ & _).
      destruct (ProcessOne cfg zah entry name (log_parser CallNext r))
        as [[[] | n |] r1]; simpl in Hcalls.
      * apply Hnext. exact Hcalls.
      * exists 1%nat. simpl. split; [lia |]. split; [exact Hcalls | discriminate].
      * exists 1%nat. simpl. split; [lia |]. split; [exact Hcalls | discriminate].
    + rewrite ret_run. cbv beta iota. apply Hnext. reflexivity.
Qed.

(** The protocol ProcessAll follows with the parser: StartIteration comes
    first and once; when it fails the run ends with status 1 before any
    entry is fetched; otherwise Next is called at least once and at most
    once more than there are entries; and EndIteration is the last call
    exactly when ProcessAll returns, by which time Next has been called
    once for every entry and once more. *)
Theorem parser_protocol (fnmatch : string -> string -> Z -> Z) (cfg : Flags)
  (zah : ZipArchive) (r : Run) :
  let result := ProcessAll fnmatch cfg zah r in
  exists k : nat,
    parser_calls (snd result)
    = (parser_calls r ++ CallStartIteration :: repeat CallNext k
       ++ (if is_ret (fst result) then [CallEndIteration] else []))%list
    /\ (k <= S (List.length (entries zah)))%nat
    /\ (iteration_start zah <> 0 -> k = 0%nat /\ fst result = Exit 1)
    /\ (iteration_start zah = 0 -> (1 <= k)%nat)
    /\ (fst result = Ret tt -> k = S (List.length (entries zah))).
Proof.
  cbv zeta. unfold ProcessAll. rewrite bind_run, on_env_run.
  pose proof (MaybeShowHeader_returns cfg zah (env r)) as Hh.
  destruct (MaybeShowHeader cfg zah (env r)) as [oh e0]. simpl in Hh. subst oh.
  simpl fst. simpl snd. cbv beta iota.
  rewrite bind_run, modify_run. cbv beta iota. rewrite bind_run.
  set (r1 := log_parser CallStartIteration (set_env e0 r)).
  assert (Hr1 : parser_calls r1 = (parser_calls r ++ [CallStartIteration])%list)
    by reflexivity.
  destruct (iteration_start zah =? 0) eqn:Hstart.
  - apply Z.eqb_eq in Hstart. change (negb true) with false. cbv iota.
    rewrite ret_run. cbv beta iota. rewrite bind_run.
    destruct (ProcessAll_loop_calls fnmatch cfg zah (entries zah) r1)
      as (k & Hk & Hcalls & Hret).
    exists k.
    destruct (ProcessAll_loop fnmatch cfg zah (entries zah) r1) as [[err | n |] r2];
      simpl in Hcalls, Hret.
    + rewrite bind_run. destruct (err <? -1).
      * rewrite on_env_run, error_run. simpl.
        rewrite Hcalls; unfold r1; simpl; rewrite <- ?app_assoc, ?app_nil_r; simpl.
        repeat split; try lia; try congruence; try discriminate.
      * rewrite ret_run. cbv beta iota. rewrite bind_run, modify_run. cbv beta iota.
        destruct (MaybeShowFooter_returns cfg (log_parser CallEndIteration r2))
          as (Hf1 & Hf2 & _).
        rewrite Hf1, Hf2. simpl.
        rewrite Hcalls; unfold r1; simpl; rewrite <- ?app_assoc; simpl.
        repeat split; try lia; try congruence.
        intros _. exact (Hret err eq_refl).
    + simpl. rewrite Hcalls; unfold r1; simpl; rewrite <- ?app_assoc, ?app_nil_r; simpl.
      repeat split; try lia; try congruence; try discriminate.
    + simpl. rewrite Hcalls; unfold r1; simpl; rewrite <- ?app_assoc, ?app_nil_r; simpl.
      repeat split; try lia; try congruence; try discriminate.
  - apply Z.eqb_neq in Hstart. change (negb false) with true. cbv iota.
    rewrite on_env_run, error_run. simpl. exists 0%nat.
    repeat split; try lia; try congruence.
Qed.

(** ** The mode column of zipinfo *)

Lemma land_pow2_testbit (m n : Z) :
  0 <= n -> (Z.land m (2 ^ n) =? 0) = negb (Z.testbit m n).
Proof.
  intros Hn. destruct (Z.testbit m n) eqn:Hbit; simpl.
  - apply Z.eqb_neq. intros Hzero.
    assert (Hb : Z.testbit (Z.land m (2 ^ n)) n = true).
    { rewrite Z.land_spec, Hbit, Z.pow2_bits_true by exact Hn. reflexivity. }
    rewrite Hzero, Z.bits_0 in Hb. discriminate.
  - apply Z.eqb_eq. apply Z.bits_inj'. intros k Hk.
    rewrite Z.land_spec, Z.bits_0, Z.pow2_bits_eqb by exact Hn.
    destruct (Z.eqb_spec n k) as [<- | Hne].
    + rewrite Hbit. reflexivity.
    + apply andb_false_r.
Qed.

Lemma low_nine_bits (m1 m2 : Z) :
  (forall n, 0 <= n < 9 -> Z.testbit m1 n = Z.testbit m2 n) ->
  Z.land m1 511 = Z.land m2 511.
Proof.
  intros Hbits. apply Z.bits_inj'. intros n Hn. rewrite !Z.land_spec.
  destruct (Z_lt_le_dec n 9) as [Hlt | Hge].
  - rewrite (Hbits n) by lia. reflexivity.
  - change 511 with (Z.ones 9). rewrite Z.ones_spec_high by lia.
    rewrite !andb_false_r. reflexivity.
Qed.

Lemma land_through_511 (m mask : Z) :
  Z.land 511 mask = mask -> Z.land m mask = Z.land (Z.land m 511) mask.
Proof. intros H. rewrite <- Z.land_assoc, H. reflexivity. Qed.

(** The ten characters InfoOne shows for the mode of an entry made on
    Unix tell the type of the entry (directory, regular file, other) and
    its nine permission bits, and nothing else: two modes are shown alike
    exactly when they agree on these. *)
Theorem mode_string_shows_type_and_permissions (m1 m2 : Z) :
  mode_string 3 m1 = mode_string 3 m2 <->
  (Posix.S_ISDIR m1 = Posix.S_ISDIR m2
   /\ (Posix.S_ISDIR m1 = false -> Posix.S_ISREG m1 = Posix.S_ISREG m2)
   /\ Z.land m1 511 = Z.land m2 511).
Proof.
  unfold mode_string. change (3 =? 3) with true. cbv iota zeta. split.
  - intros H. injection H as Htype H8 H7 H6 H5 H4 H3 H2 H1 H0.
    assert (Hbit : forall (c : ascii) (n mask : Z),
              c <> "-"%char -> 0 <= n -> mask = 2 ^ n ->
              (if negb (Z.land m1 mask =? 0) then c else "-"%char)
              = (if negb (Z.land m2 mask =? 0) then c else "-"%char) ->
              Z.testbit m1 n = Z.testbit m2 n).
    { intros c n mask Hc Hn -> Heq.
      rewrite !land_pow2_testbit in Heq by exact Hn.
      destruct (Z.testbit m1 n), (Z.testbit m2 n); simpl in Heq; congruence. }
    split; [| split].
    + destruct (Posix.S_ISDIR m1), (Posix.S_ISDIR m2); try reflexivity;
        destruct (Posix.S_ISREG m1), (Posix.S_ISREG m2); discriminate.
    + intros Hnot. rewrite Hnot in Htype.
      destruct (Posix.S_ISDIR m2); destruct (Posix.S_ISREG m1), (Posix.S_ISREG m2);
        try reflexivity; discriminate.
    + apply low_nine_bits. intros n Hn.
      assert (Hcases : n = 0 \/ n = 1 \/ n = 2 \/ n = 3 \/ n = 4 \/ n = 5 \/ n = 6
                       \/ n = 7 \/ n = 8) by lia.
      destruct Hcases as [-> | [-> | [-> | [-> | [-> | [-> | [-> | [-> | ->]]]]]]]].
      * apply (Hbit "x"%char 0 Posix.S_IXOTH); [discriminate | lia | reflexivity | exact H0].
      * apply (Hbit "w"%char 1 Posix.S_IWOTH); [discriminate | lia | reflexivity | exact H1].
      * apply (Hbit "r"%char 2 Posix.S_IROTH); [discriminate | lia | reflexivity | exact H2].
      * apply (Hbit "x"%char 3 Posix.S_IXGRP); [discriminate | lia | reflexivity | exact H3].
      * apply (Hbit "w"%char 4 Posix.S_IWGRP); [discriminate | lia | reflexivity | exact H4].
      * apply (Hbit "r"%char 5 Posix.S_IRGRP); [discriminate | lia | reflexivity | exact H5].
      * apply (Hbit "x"%char 6 Posix.S_IXUSR); [discriminate | lia | reflexivity | exact H6].
      * apply (Hbit "w"%char 7 Posix.S_IWUSR); [discriminate | lia | reflexivity | exact H7].
      * apply (Hbit "r"%char 8 Posix.S_IRUSR); [discriminate | lia | reflexivity | exact H8].
  - intros (Hdir & Hreg & Hperm).
    rewrite (land_through_511 m1 Posix.S_IRUSR), (land_through_511 m2 Posix.S_IRUSR),
      (land_through_511 m1 Posix.S_IWUSR), (land_through_511 m2 Posix.S_IWUSR),
      (land_through_511 m1 Posix.S_IXUSR), (land_through_511 m2 Posix.S_IXUSR),
      (land_through_511 m1 Posix.S_IRGRP), (land_through_511 m2 Posix.S_IRGRP),
      (land_through_511 m1 Posix.S_IWGRP), (land_through_511 m2 Posix.S_IWGRP),
      (land_through_511 m1 Posix.S_IXGRP), (land_through_511 m2 Posix.S_IXGRP),
      (land_through_511 m1 Posix.S_IROTH), (land_through_511 m2 Posix.S_IROTH),
      (land_through_511 m1 Posix.S_IWOTH), (land_through_511 m2 Posix.S_IWOTH),
      (land_through_511 m1 Posix.S_IXOTH), (land_through_511 m2 Posix.S_IXOTH)
      by reflexivity.
    rewrite Hperm, <- Hdir.
    destruct (Posix.S_ISDIR m1); [reflexivity |]. rewrite (Hreg eq_refl). reflexivity.
Qed.

(** ** The command line *)

Lemma on_globals_run {A : Type} (m : M Flags A) (p : Process) :
  on_globals m p = (fst (m (globals p)), set_globals (snd (m (globals p))) p).
Proof. unfold on_globals. destruct (m (globals p)); reflexivity. Qed.

Lemma on_run_run {A : Type} (m : M Run A) (p : Process) :
  on_run m p = (fst (m (run p)), set_run (snd (m (run p))) p).
Proof. unfold on_run. destruct (m (run p)); reflexivity. Qed.

Lemma set_overwrite_mode_same (e : Env) : set_overwrite_mode (overwrite_mode e) e = e.
Proof. destruct e. reflexivity. Qed.

Lemma parsing_refl (p : Process) : parsing p p.
Proof.
  split; [reflexivity |]. exists (overwrite_mode (env (run p))).
  rewrite set_overwrite_mode_same, set_env_env. reflexivity.
Qed.

Lemma parsing_trans (a b c : Process) : parsing a b -> parsing b c -> parsing a c.
Proof.
  intros [Hc1 [m1 Hr1]] [Hc2 [m2 Hr2]]. split; [congruence |].
  exists m2. rewrite Hr2, Hr1. reflexivity.
Qed.

Lemma parsing_globals (c : Flags) (p : Process) : parsing p (set_globals c p).
Proof.
  split; [reflexivity |]. exists (overwrite_mode (env (run p))).
  rewrite set_overwrite_mode_same, set_env_env. reflexivity.
Qed.

Lemma parsing_mode (m : OverwriteMode) (p : Process) :
  parsing p (set_run (set_env (set_overwrite_mode m (env (run p))) (run p)) p).
Proof. split; [reflexivity |]. exists m. reflexivity. Qed.

Lemma known_cases (opt : Z) (l : list Z) :
  existsb (Z.eqb opt) l = true -> In opt l.
Proof.
  intros H. apply existsb_exists in H. destruct H as (x & Hx & Heq).
  apply Z.eqb_eq in Heq. subst x. exact Hx.
Qed.

(** An option the loop knows is handled and the loop goes on; what it
    does to the archive name and the patterns is [route]. *)
Lemma handler_known (unzip : bool) (opt : Z) (arg : string) (p : Process) :
  known unzip (opt, arg) = true ->
  exists p',
    handler unzip opt arg p = (Ret tt, p')
    /\ parsing p p'
    /\ patterns (globals p') = route (patterns (globals p)) (opt, arg).
Proof.
  destruct unzip; simpl known; intros Hknown; apply known_cases in Hknown; simpl in Hknown;
    simpl handler.
  - destruct Hknown as [<- | [<- | [<- | [<- | [<- | [<- | [<- | [<- | [<- | []]]]]]]]]];
      unfold unzip_option, HandleCommonOption; simpl;
      rewrite ?on_globals_run, ?on_run_run; simpl;
      try (eexists; split; [reflexivity |]; split;
           [first [apply parsing_globals | apply parsing_mode] | reflexivity]).
    unfold bind, get. simpl.
    destruct (archive_name (globals p)) eqn:Ha; [destruct (flag_x (globals p)) eqn:Hx |];
      simpl; eexists; (split; [reflexivity |]); (split; [apply parsing_globals |]);
      unfold patterns; simpl; rewrite ?Ha, ?Hx; reflexivity.
  - destruct Hknown as [<- | [<- | [<- | []]]];
      unfold zipinfo_option, HandleCommonOption; simpl;
      rewrite ?on_globals_run; simpl;
      try (eexists; split; [reflexivity |]; split; [apply parsing_globals | reflexivity]).
    unfold bind, get. simpl.
    destruct (archive_name (globals p)) eqn:Ha; [destruct (flag_x (globals p)) eqn:Hx |];
      simpl; eexists; (split; [reflexivity |]); (split; [apply parsing_globals |]);
      unfold patterns; simpl; rewrite ?Ha, ?Hx; reflexivity.
Qed.

Lemma set_globals_same (p : Process) : set_globals (globals p) p = p.
Proof. destruct p. reflexivity. Qed.

(** Any other option ends the process: with status 0 for [h], which
    [--help] comes back as, and with a failure status otherwise. *)
Lemma handler_unknown (unzip : bool) (opt : Z) (arg : string) (p : Process) :
  known unzip (opt, arg) = false ->
  handler unzip opt arg p
  = (Exit (if opt =? 104 then EXIT_SUCCESS else EXIT_FAILURE), p).
Proof.
  destruct unzip; simpl known; simpl handler; unfold unzip_known, zipinfo_known;
    simpl existsb; rewrite !orb_false_iff; intros H;
    repeat match type of H with _ /\ _ => destruct H as [?Heq H] end.
  - unfold unzip_option.
    repeat match goal with E : (opt =? _) = false |- _ => rewrite E; clear E end.
    rewrite on_globals_run. unfold HandleCommonOption, ShowHelp.
    destruct (opt =? 104) eqn:Hh.
    + simpl. rewrite set_globals_same. reflexivity.
    + rewrite Heq6, Heq7. simpl. rewrite set_globals_same. reflexivity.
  - unfold zipinfo_option.
    repeat match goal with E : (opt =? 49) = false |- _ => rewrite E; clear E end.
    rewrite on_globals_run. unfold HandleCommonOption, ShowHelp.
    destruct (opt =? 104) eqn:Hh.
    + simpl. rewrite set_globals_same. reflexivity.
    + rewrite Heq0, Heq1. simpl. rewrite set_globals_same. reflexivity.
Qed.

Lemma option_loop_app (handle : Z -> string -> M Process unit)
  (l1 l2 : list (Z * string)) (p : Process) :
  option_loop handle (l1 ++ l2) p =
    match option_loop handle l1 p with
    | (Ret _, p1) => option_loop handle l2 p1
    | (Exit n, p1) => (Exit n, p1)
    | (Diverge, p1) => (Diverge, p1)
    end.
Proof.
  revert p. induction l1 as [| [opt arg] l1 IH]; intros p; [reflexivity |].
  simpl. rewrite !bind_run. destruct (handle opt arg p) as [[[] | n |] p1]; auto.
Qed.

(** A command line of known options is handled to its end. *)
Lemma option_loop_known (unzip : bool) (returned : list (Z * string)) :
  Forall (fun o => known unzip o = true) returned ->
  forall p,
    exists p',
      option_loop (handler unzip) returned p = (Ret tt, p')
      /\ parsing p p'
      /\ patterns (globals p') = fold_left route returned (patterns (globals p)).
Proof.
  induction returned as [| [opt arg] rest IH]; intros Hknown p.
  - exists p. split; [reflexivity |]. split; [apply parsing_refl | reflexivity].
  - apply Forall_cons in Hknown. destruct Hknown as [Ho Hrest].
    destruct (handler_known unzip opt arg p Ho) as (p1 & Hrun & Hpar & Hpat).
    destruct (IH Hrest p1) as (p' & Hloop & Hpar' & Hpat').
    exists p'. split; [| split].
    + simpl. rewrite (bind_Ret _ _ _ _ _ Hrun). exact Hloop.
    + exact (parsing_trans _ _ _ Hpar Hpar').
    + rewrite Hpat'. simpl. rewrite Hpat. reflexivity.
Qed.

Lemma ParseOptions_run (program : string) (returned : list (Z * string)) (p : Process) :
  ParseOptions program returned p =
    option_loop (handler (String.eqb (c_str program) "unzip")) returned
      (set_globals (set_is_unzip (String.eqb (c_str program) "unzip") (globals p)) p).
Proof.
  unfold ParseOptions. rewrite bind_run, on_globals_run, modify_run. simpl fst. simpl snd.
  cbv beta iota. rewrite bind_run, get_run. cbv beta iota. simpl is_unzip.
  destruct (String.eqb (c_str program) "unzip"); reflexivity.
Qed.

(** [main] stops at the first option its loop does not know: a request
    for help ends the process with status 0 and any other option with a
    failure status, before the archive is opened and with nothing done to
    the file system; the options before it can only have set the
    overwrite mode. *)
Theorem main_stops_at_unknown_option (fnmatch : string -> string -> Z -> Z)
  (OpenArchive : string -> Z * ZipArchive) (program : string)
  (before after : list (Z * string)) (opt : Z) (arg : string) (p : Process) :
  let unzip := String.eqb (c_str program) "unzip" in
  Forall (fun o => known unzip o = true) before ->
  known unzip (opt, arg) = false ->
  let result := main fnmatch OpenArchive program (before ++ (opt, arg) :: after) p in
  fst result = Exit (if opt =? 104 then EXIT_SUCCESS else EXIT_FAILURE)
  /\ parsing p (snd result).
Proof.
  cbv zeta. intros Hbefore Hopt. unfold main. rewrite bind_run, ParseOptions_run.
  rewrite option_loop_app.
  destruct (option_loop_known _ before Hbefore
              (set_globals (set_is_unzip (String.eqb (c_str program) "unzip") (globals p)) p))
    as (p1 & Hloop & Hpar & _).
  rewrite Hloop. simpl option_loop. rewrite bind_run.
  rewrite (handler_unknown _ opt arg p1 Hopt). simpl. split; [reflexivity |].
  exact (parsing_trans _ _ _ (parsing_globals _ p) Hpar).
Qed.

Lemma main_stops_at_unknown_option_witness :
  let result := main simple_fnmatch (fun _ => (0, archive_of [])) "zipinfo"
                     [(1, "a.zip"); (108, ""); (1, "f")] (start_process work_fs []) in
  fst result = Exit EXIT_FAILURE /\ parsing (start_process work_fs []) (snd result).
Proof.
  apply (main_stops_at_unknown_option simple_fnmatch (fun _ => (0, archive_of []))
           "zipinfo" [(1, "a.zip")] [(1, "f")] 108 "" (start_process work_fs [])).
  - repeat constructor.
  - reflexivity.
Defined.

Lemma tuple4_eq {A B C D : Type} (a1 a2 : A) (b1 b2 : B) (c1 c2 : C) (d1 d2 : D) :
  a1 = a2 -> b1 = b2 -> c1 = c2 -> d1 = d2 -> (a1, b1, c1, d1) = (a2, b2, c2, d2).
Proof. congruence. Qed.

(** Where a whole command line routes the archive name and the patterns. *)
Lemma fold_route (returned : list (Z * string)) :
  forall (a : option string) (x : bool) (i e : gset string),
    let P1 := if x then [] else positionals (until_x returned) in
    let P2 := if x then positionals returned else positionals (from_x returned) in
    fold_left route returned (a, x, i, e) =
      (match a with Some _ => a | None => head (P1 ++ P2) end,
       x || has_option 120 returned,
       i ∪ list_to_set (match a with Some _ => P1 | None => tail P1 end),
       e ∪ list_to_set (match a, P1 with None, [] => tail P2 | _, _ => P2 end)).
Proof.
  induction returned as [| [opt arg] rest IH]; intros a x i e; cbv zeta.
  - simpl. apply tuple4_eq.
    + destruct a, x; reflexivity.
    + symmetry. apply orb_false_r.
    + destruct a, x; simpl; apply leibniz_equiv; set_solver.
    + destruct a, x; simpl; apply leibniz_equiv; set_solver.
  - cbn [fold_left].
    destruct (opt =? 1) eqn:H1; [| destruct (opt =? 120) eqn:H120].
    + apply Z.eqb_eq in H1. subst opt.
      change (positionals ((1, arg) :: rest)) with (arg :: positionals rest).
      change (positionals (until_x ((1, arg) :: rest)))
        with (arg :: positionals (until_x rest)).
      change (from_x ((1, arg) :: rest)) with (from_x rest).
      change (has_option 120 ((1, arg) :: rest)) with (has_option 120 rest).
      destruct a as [a0 |]; [destruct x |].
      * change (route (Some a0, true, i, e) (1, arg)) with (Some a0, true, i, {[ arg ]} ∪ e).
        rewrite IH. cbv zeta. apply tuple4_eq; try reflexivity.
        simpl. apply leibniz_equiv. set_solver.
      * change (route (Some a0, false, i, e) (1, arg))
          with (Some a0, false, {[ arg ]} ∪ i, e).
        rewrite IH. cbv zeta. apply tuple4_eq; try reflexivity.
        simpl. apply leibniz_equiv. set_solver.
      * change (route (None, x, i, e) (1, arg)) with (Some arg, x, i, e).
        rewrite IH. cbv zeta. apply tuple4_eq; destruct x; reflexivity.
    + apply Z.eqb_eq in H120. subst opt.
      change (positionals ((120, arg) :: rest)) with (positionals rest).
      change (until_x ((120, arg) :: rest)) with (@nil (Z * string)).
      change (from_x ((120, arg) :: rest)) with ((120, arg) :: rest).
      change (positionals ((120, arg) :: rest)) with (positionals rest).
      change (positionals []) with (@nil string).
      change (route (a, x, i, e) (120, arg)) with (a, true, i, e).
      rewrite IH. cbv zeta. apply tuple4_eq.
      * destruct a, x; reflexivity.
      * unfold has_option. simpl. rewrite orb_true_r. reflexivity.
      * destruct a, x; reflexivity.
      * destruct a, x; reflexivity.
    + assert (Hroute : route (a, x, i, e) (opt, arg) = (a, x, i, e)).
      { unfold route. simpl. rewrite H1, H120. reflexivity. }
      assert (Hpos : forall l, positionals ((opt, arg) :: l) = positionals l).
      { intros l. unfold positionals. simpl. rewrite H1. reflexivity. }
      assert (Huntil : until_x ((opt, arg) :: rest) = (opt, arg) :: until_x rest).
      { simpl. rewrite H120. reflexivity. }
      assert (Hfrom : from_x ((opt, arg) :: rest) = from_x rest).
      { simpl. rewrite H120. reflexivity. }
      assert (Hhas : has_option 120 ((opt, arg) :: rest) = has_option 120 rest).
      { unfold has_option. simpl. rewrite H120. reflexivity. }
      rewrite Hroute, Huntil, Hfrom, Hhas, !Hpos. apply IH.
Qed.

(** The first argument that is no option names the archive, wherever -x
    stands; of the arguments after it, those before the first -x are the
    include patterns and those after it the exclude patterns.  This holds
    for unzip and for zipinfo alike, on every command line made of options
    the tool knows. *)
Theorem positional_arguments (program : string) (returned : list (Z * string))
  (p : Process) :
  let unzip := String.eqb (c_str program) "unzip" in
  Forall (fun o => known unzip o = true) returned ->
  archive_name (globals p) = None -> flag_x (globals p) = false ->
  includes (globals p) = ∅ -> excludes (globals p) = ∅ ->
  exists p',
    ParseOptions program returned p = (Ret tt, p')
    /\ archive_name (globals p') = head (positionals returned)
    /\ includes (globals p') = list_to_set (tail (positionals (until_x returned)))
    /\ excludes (globals p')
       = list_to_set (match positionals (until_x returned) with
                      | [] => tail (positionals (from_x returned))
                      | _ => positionals (from_x returned)
                      end).
Proof.
  cbv zeta. intros Hknown Ha Hx Hi He. rewrite ParseOptions_run.
  destruct (option_loop_known _ returned Hknown
              (set_globals (set_is_unzip (String.eqb (c_str program) "unzip") (globals p)) p))
    as (p' & Hloop & _ & Hpat).
  exists p'. split; [exact Hloop |].
  unfold patterns in Hpat. simpl in Hpat. rewrite Ha, Hx, Hi, He, fold_route in Hpat.
  cbv zeta in Hpat. injection Hpat as Harch _ Hinc Hexc.
  rewrite Harch, Hinc, Hexc.
  assert (Hsplit : (positionals (until_x returned) ++ positionals (from_x returned))%list
                   = positionals returned).
  { clear. unfold positionals. induction returned as [| [opt arg] rest IH]; [reflexivity |].
    simpl. destruct (opt =? 120) eqn:H120; [reflexivity |].
    simpl. destruct (opt =? 1); simpl; rewrite IH; reflexivity. }
  rewrite Hsplit. split; [reflexivity |].
  split; apply leibniz_equiv; set_solver.
Qed.

Lemma positional_arguments_witness :
  exists p',
    ParseOptions "unzip" [(120, ""); (1, "a.zip"); (108, ""); (1, "*.o")]
                 (start_process work_fs []) = (Ret tt, p')
    /\ archive_name (globals p') = Some "a.zip"
    /\ includes (globals p') = list_to_set []
    /\ excludes (globals p') = list_to_set ["*.o"].
Proof.
  apply (positional_arguments "unzip" [(120, ""); (1, "a.zip"); (108, ""); (1, "*.o")]
           (start_process work_fs [])); try reflexivity.
  repeat constructor.
Defined.

Lemma unzip_option_switch (opt : Z) (arg : string) (p : Process) :
  unzip_known opt = true ->
  exists p',
    unzip_option opt arg p = (Ret tt, p')
    /\ flag_l (globals p') = flag_l (globals p) || (opt =? 108)
    /\ flag_v (globals p') = flag_v (globals p) || (opt =? 118)
    /\ flag_p (globals p') = flag_p (globals p) || (opt =? 112)
    /\ flag_q (globals p') = flag_q (globals p) || (opt =? 113) || (opt =? 112)
    /\ flag_d (globals p') = (if opt =? 100 then Some arg else flag_d (globals p))
    /\ overwrite_mode (env (run p'))
       = default (overwrite_mode (env (run p))) (mode_of (opt, arg)).
Proof.
  intros Hknown. apply known_cases in Hknown. simpl in Hknown.
  destruct Hknown as [<- | [<- | [<- | [<- | [<- | [<- | [<- | [<- | [<- | []]]]]]]]]];
    unfold unzip_option, HandleCommonOption, mode_of; simpl;
    rewrite ?on_globals_run, ?on_run_run; simpl;
    try (eexists; split; [reflexivity |]; simpl;
         rewrite ?orb_false_r, ?orb_true_r; repeat split; reflexivity).
  unfold bind, get. simpl.
  destruct (archive_name (globals p)); [destruct (flag_x (globals p)) |];
    simpl; eexists; (split; [reflexivity |]); simpl;
    rewrite ?orb_false_r; repeat split; reflexivity.
Qed.

(** What the switches of an unzip command line amount to: -l, -v and -p
    are on when they occur; quiet is on when -q or -p occurs; the last -d
    names the directory; and the last of -n and -o decides the overwrite
    mode, which stays as it was when neither occurs. *)
Theorem unzip_switches (returned : list (Z * string)) (p : Process) :
  Forall (fun o => known true o = true) returned ->
  exists p',
    option_loop unzip_option returned p = (Ret tt, p')
    /\ flag_l (globals p') = flag_l (globals p) || has_option 108 returned
    /\ flag_v (globals p') = flag_v (globals p) || has_option 118 returned
    /\ flag_p (globals p') = flag_p (globals p) || has_option 112 returned
    /\ flag_q (globals p')
       = flag_q (globals p) || has_option 113 returned || has_option 112 returned
    /\ flag_d (globals p')
       = match last (List.map snd (List.filter (fun o => fst o =? 100) returned)) with
         | Some d => Some d
         | None => flag_d (globals p)
         end
    /\ overwrite_mode (env (run p'))
       = default (overwrite_mode (env (run p))) (last (omap mode_of returned)).
Proof.
  induction returned as [| [opt arg] l IH] using rev_ind; intros Hknown.
  - exists p. unfold has_option. simpl. rewrite !orb_false_r. repeat split.
  - apply Forall_app in Hknown. destruct Hknown as [Hl Ho].
    apply Forall_cons in Ho. destruct Ho as [Ho _]. simpl in Ho.
    destruct (IH Hl) as (p1 & Hloop & Hfl & Hfv & Hfp & Hfq & Hfd & Hmode).
    destruct (unzip_option_switch opt arg p1 Ho)
      as (p2 & Hone & Gfl & Gfv & Gfp & Gfq & Gfd & Gmode).
    exists p2. rewrite option_loop_app, Hloop. simpl option_loop.
    rewrite (bind_Ret _ _ _ _ _ Hone). rewrite ret_run.
    unfold has_option. rewrite !existsb_app, List.filter_app, List.map_app, omap_app.
    simpl existsb. simpl fst. rewrite !orb_false_r.
    fold (has_option 108 l). fold (has_option 118 l). fold (has_option 112 l).
    fold (has_option 113 l).
    split; [reflexivity |].
    split; [rewrite Gfl, Hfl, orb_assoc; reflexivity |].
    split; [rewrite Gfv, Hfv, orb_assoc; reflexivity |].
    split; [rewrite Gfp, Hfp, orb_assoc; reflexivity |].
    split.
    { rewrite Gfq, Hfq.
      destruct (flag_q (globals p)), (has_option 113 l), (has_option 112 l),
        (opt =? 113), (opt =? 112); reflexivity. }
    split.
    { rewrite Gfd, Hfd. simpl List.filter. simpl fst.
      destruct (opt =? 100); simpl.
      - rewrite last_snoc. reflexivity.
      - rewrite app_nil_r. reflexivity. }
    rewrite Gmode, Hmode. simpl omap.
    destruct (mode_of (opt, arg)) as [m |]; simpl.
    + rewrite last_snoc. reflexivity.
    + rewrite app_nil_r. reflexivity.
Qed.

Lemma unzip_switches_witness :
  exists p',
    option_loop unzip_option [(110, ""); (112, ""); (1, "a.zip"); (111, "")]
                (start_process work_fs []) = (Ret tt, p')
    /\ flag_l (globals p') = false
    /\ flag_v (globals p') = false
    /\ flag_p (globals p') = true
    /\ flag_q (globals p') = true
    /\ flag_d (globals p') = None
    /\ overwrite_mode (env (run p')) = kAlways.
Proof.
  apply (unzip_switches [(110, ""); (112, ""); (1, "a.zip"); (111, "")]
           (start_process work_fs [])).
  repeat constructor.
Defined.

(** ** After the command line *)

Lemma chdir_run (d : string) (st : Env) :
  chdir d st =
    match chdir_model (fs st) d with
    | inr f' => (Ret 0, set_fs f' st)
    | inl e => (Ret (-1), set_errno e st)
    end.
Proof. unfold chdir. run_prog. destruct (chdir_model (fs st) d); reflexivity. Qed.

Lemma set_fs_same (e : Env) : set_fs (fs e) e = e.
Proof. destruct e. reflexivity. Qed.

Section RunArchive.

Variable fnmatch : string -> string -> Z -> Z.
Variable OpenArchive : string -> Z * ZipArchive.
Variable p1 : Process.

Lemma RunArchive_no_archive :
  archive_name (globals p1) = None ->
  RunArchive fnmatch OpenArchive p1 =
    (Exit 1,
     set_run (set_env (put_stderr (mkDiagnostic 0 "missing archive filename" [])
                         (env (run p1))) (run p1)) p1).
Proof.
  intros Hnone. unfold RunArchive. rewrite bind_run, get_run. cbv beta iota zeta.
  rewrite Hnone. rewrite bind_run, on_run_run, on_env_run, error_run. reflexivity.
Qed.

Lemma RunArchive_open_fails (a : string) :
  archive_name (globals p1) = Some a ->
  fst (OpenArchive a) <> 0 ->
  RunArchive fnmatch OpenArchive p1 =
    (Exit 1,
     set_run
       (set_env
          (put_stderr (mkDiagnostic 0 "couldn't open %s: %s"
                         [AStr a; AErrorCodeString (fst (OpenArchive a))])
             (env (run p1))) (run p1))
       (log_main (CallOpenArchive a) p1)).
Proof.
  intros Ha Hfail. unfold RunArchive. rewrite bind_run, get_run. cbv beta iota zeta.
  rewrite Ha. rewrite bind_run, ret_run. cbv beta iota.
  rewrite bind_run, modify_run. cbv beta iota.
  unfold archive_name_str. rewrite Ha. change (default "" (Some a)) with a.
  destruct (OpenArchive a) as [err zah]. simpl in Hfail. cbv beta iota.
  apply Z.eqb_neq in Hfail. rewrite Hfail. cbn [negb]. cbv iota.
  rewrite bind_run, on_run_run, on_env_run, error_run. reflexivity.
Qed.

Lemma RunArchive_opened (a : string) (zah : ZipArchive) :
  archive_name (globals p1) = Some a ->
  OpenArchive a = (0, zah) ->
  RunArchive fnmatch OpenArchive p1 =
    ((match flag_d (globals p1) with
      | Some d =>
          modify (log_main (CallChdir d)) ;;
          r <- on_run (on_env (chdir d)) ;;
          if r =? -1 then
            p' <- get ;;
            on_run (on_env (error 1 (errno (env (run p'))) "couldn't chdir to %s"
                              [AStr d]))
          else ret tt
      | None => ret tt
      end) ;;
     on_run (ProcessAll fnmatch (globals p1) zah) ;;
     modify (log_main CallCloseArchive) ;;
     ret 0) (log_main (CallOpenArchive a) p1).
Proof.
  intros Ha Hopen. unfold RunArchive. rewrite bind_run, get_run. cbv beta iota zeta.
  rewrite Ha. rewrite bind_run, ret_run. cbv beta iota.
  rewrite bind_run, modify_run. cbv beta iota.
  unfold archive_name_str. rewrite Ha. change (default "" (Some a)) with a.
  rewrite Hopen. cbv beta iota.
  change (negb (0 =? 0)) with false. cbv iota. rewrite bind_run, ret_run. reflexivity.
Qed.

Lemma RunArchive_chdir_fails (a d : string) (zah : ZipArchive) (e : Z) :
  archive_name (globals p1) = Some a ->
  OpenArchive a = (0, zah) ->
  flag_d (globals p1) = Some d ->
  chdir_model (fs (env (run p1))) d = inl e ->
  RunArchive fnmatch OpenArchive p1 =
    (Exit 1,
     set_run
       (set_env
          (put_stderr (mkDiagnostic e "couldn't chdir to %s" [AStr d])
             (set_errno e (env (run p1)))) (run p1))
       (log_main (CallChdir d) (log_main (CallOpenArchive a) p1))).
Proof.
  intros Ha Hopen Hd Hchdir. rewrite (RunArchive_opened a zah Ha Hopen), Hd.
  rewrite bind_run. rewrite bind_run, modify_run. cbv beta iota.
  rewrite bind_run, on_run_run, on_env_run, chdir_run. simpl run. rewrite Hchdir.
  simpl fst. simpl snd. cbv beta iota. change (-1 =? -1) with true. cbv iota.
  rewrite bind_run, get_run. cbv beta iota.
  rewrite on_run_run, on_env_run, error_run. reflexivity.
Qed.

Lemma RunArchive_runs (a : string) (zah : ZipArchive) (f1 : Posix.FileSystem) :
  archive_name (globals p1) = Some a ->
  OpenArchive a = (0, zah) ->
  match flag_d (globals p1) with
  | Some d => chdir_model (fs (env (run p1))) d
  | None => inr (fs (env (run p1)))
  end = inr f1 ->
  let done := ProcessAll fnmatch (globals p1) zah
                (set_env (set_fs f1 (env (run p1))) (run p1)) in
  RunArchive fnmatch OpenArchive p1 =
    (main_outcome (fst done),
     mkProcess (globals p1) (snd done)
       (main_calls p1
        ++ CallOpenArchive a
           :: match flag_d (globals p1) with Some d => [CallChdir d] | None => [] end
        ++ (if is_ret (fst done) then [CallCloseArchive] else []))%list).
Proof.
  intros Ha Hopen Hdir. cbv zeta. rewrite (RunArchive_opened a zah Ha Hopen).
  rewrite bind_run.
  destruct (flag_d (globals p1)) as [d |].
  - rewrite bind_run, modify_run. cbv beta iota.
    rewrite bind_run, on_run_run, on_env_run, chdir_run. simpl run. rewrite Hdir.
    simpl fst. simpl snd. cbv beta iota.
    change (0 =? -1) with false. cbv iota. rewrite ret_run. cbv beta iota.
    rewrite bind_run, on_run_run. simpl run.
    destruct (ProcessAll fnmatch (globals p1) zah
                (set_env (set_fs f1 (env (run p1))) (run p1))) as [[[] | n |] r'];
      run_prog; unfold log_main, set_run; simpl; rewrite <- ?app_assoc; reflexivity.
  - injection Hdir as Hf1. rewrite ret_run. cbv beta iota.
    rewrite bind_run, on_run_run. simpl run.
    assert (Hsame : run p1 = set_env (set_fs f1 (env (run p1))) (run p1))
      by (rewrite <- Hf1, set_fs_same, set_env_env; reflexivity).
    rewrite <- Hsame.
    destruct (ProcessAll fnmatch (globals p1) zah (run p1)) as [[[] | n |] r'];
      run_prog; unfold log_main, set_run; simpl; rewrite <- ?app_assoc; reflexivity.
Qed.

End RunArchive.

(** Without the name of an archive, and with an archive that does not
    open, [main] ends the process with status 1 and a diagnostic, before
    it changes directory or starts on the entries. *)
Theorem main_needs_an_archive (fnmatch : string -> string -> Z -> Z)
  (OpenArchive : string -> Z * ZipArchive) (program : string)
  (returned : list (Z * string)) (p p1 : Process) :
  ParseOptions program returned p = (Ret tt, p1) ->
  let result := main fnmatch OpenArchive program returned p in
  (archive_name (globals p1) = None ->
   result =
     (Exit 1,
      set_run (set_env (put_stderr (mkDiagnostic 0 "missing archive filename" [])
                          (env (run p1))) (run p1)) p1))
  /\ (forall a,
        archive_name (globals p1) = Some a ->
        fst (OpenArchive a) <> 0 ->
        result =
          (Exit 1,
           set_run
             (set_env
                (put_stderr (mkDiagnostic 0 "couldn't open %s: %s"
                               [AStr a; AErrorCodeString (fst (OpenArchive a))])
                   (env (run p1))) (run p1))
             (log_main (CallOpenArchive a) p1))).
Proof.
  intros Hparse. cbv zeta. unfold main. rewrite (bind_Ret _ _ _ _ _ Hparse). split.
  - apply RunArchive_no_archive.
  - apply RunArchive_open_fails.
Qed.

Lemma main_needs_an_archive_witness :
  main simple_fnmatch (open_a_zip (archive_of [])) "unzip" [(108, "")]
       (start_process work_fs [])
  = (Exit 1,
     mkProcess
       (set_flag_l true (set_is_unzip true initial_flags))
       (start_run
          (put_stderr (mkDiagnostic 0 "missing archive filename" [])
             (start_env kPrompt work_fs [])))
       []).
Proof.
  destruct (main_needs_an_archive simple_fnmatch (open_a_zip (archive_of [])) "unzip"
              [(108, "")] (start_process work_fs [])
              (mkProcess (set_flag_l true (set_is_unzip true initial_flags))
                 (start_run (start_env kPrompt work_fs [])) [])
              eq_refl) as [Hnone _].
  exact (Hnone eq_refl).
Defined.

(** The directory given with -d has to be there: when [chdir] fails,
    [main] ends the process with status 1 and the error of [chdir], after
    it has opened the archive and before it starts on the entries; it does
    not make the directory. *)
Theorem main_needs_the_directory (fnmatch : string -> string -> Z -> Z)
  (OpenArchive : string -> Z * ZipArchive) (program : string)
  (returned : list (Z * string)) (p p1 : Process) (a d : string) (zah : ZipArchive)
  (e : Z) :
  ParseOptions program returned p = (Ret tt, p1) ->
  archive_name (globals p1) = Some a ->
  OpenArchive a = (0, zah) ->
  flag_d (globals p1) = Some d ->
  chdir_model (fs (env (run p1))) d = inl e ->
  main fnmatch OpenArchive program returned p =
    (Exit 1,
     set_run
       (set_env
          (put_stderr (mkDiagnostic e "couldn't chdir to %s" [AStr d])
             (set_errno e (env (run p1)))) (run p1))
       (log_main (CallChdir d) (log_main (CallOpenArchive a) p1))).
Proof.
  intros Hparse Ha Hopen Hd Hchdir. unfold main. rewrite (bind_Ret _ _ _ _ _ Hparse).
  exact (RunArchive_chdir_fails fnmatch OpenArchive p1 a d zah e Ha Hopen Hd Hchdir).
Qed.

Lemma main_needs_the_directory_witness :
  fst (main simple_fnmatch (open_a_zip (archive_of [(file_entry 3 3, "f")])) "unzip"
            [(100, "out"); (1, "a.zip")] (start_process work_fs [])) = Exit 1
  /\ fs (env (run (snd (main simple_fnmatch
                          (open_a_zip (archive_of [(file_entry 3 3, "f")])) "unzip"
                          [(100, "out"); (1, "a.zip")] (start_process work_fs [])))))
     = work_fs.
Proof.
  rewrite (main_needs_the_directory simple_fnmatch
             (open_a_zip (archive_of [(file_entry 3 3, "f")])) "unzip"
             [(100, "out"); (1, "a.zip")] (start_process work_fs [])
             (mkProcess (set_archive_name "a.zip"
                           (set_flag_d "out" (set_is_unzip true initial_flags)))
                (start_run (start_env kPrompt work_fs [])) [])
             "a.zip" "out" (archive_of [(file_entry 3 3, "f")]) Posix.ENOENT
             eq_refl eq_refl eq_refl eq_refl eq_refl).
  split; reflexivity.
Defined.

(** With an archive that opens and a -d directory that is there (or no
    -d), [main] is ProcessAll run on the archive from that directory, with
    the flags the command line has set: it returns 0 exactly when
    ProcessAll returns, having closed the archive, and ends the process as
    ProcessAll does otherwise, without closing it. *)
Theorem main_runs_the_archive (fnmatch : string -> string -> Z -> Z)
  (OpenArchive : string -> Z * ZipArchive) (program : string)
  (returned : list (Z * string)) (p p1 : Process) (a : string) (zah : ZipArchive)
  (f1 : Posix.FileSystem) :
  ParseOptions program returned p = (Ret tt, p1) ->
  archive_name (globals p1) = Some a ->
  OpenArchive a = (0, zah) ->
  match flag_d (globals p1) with
  | Some d => chdir_model (fs (env (run p1))) d
  | None => inr (fs (env (run p1)))
  end = inr f1 ->
  let result := main fnmatch OpenArchive program returned p in
  let done := ProcessAll fnmatch (globals p1) zah
                (set_env (set_fs f1 (env (run p1))) (run p1)) in
  fst result = main_outcome (fst done)
  /\ run (snd result) = snd done
  /\ globals (snd result) = globals p1
  /\ main_calls (snd result)
     = (main_calls p1
        ++ CallOpenArchive a
           :: match flag_d (globals p1) with Some d => [CallChdir d] | None => [] end
        ++ (if is_ret (fst done) then [CallCloseArchive] else []))%list.
Proof.
  intros Hparse Ha Hopen Hdir. cbv zeta. unfold main.
  rewrite (bind_Ret _ _ _ _ _ Hparse).
  rewrite (RunArchive_runs fnmatch OpenArchive p1 a zah f1 Ha Hopen Hdir).
  repeat split.
Qed.

Lemma main_runs_the_archive_witness :
  let result := main simple_fnmatch (open_a_zip (archive_of [(file_entry 3 3, "f")]))
                     "unzip" [(100, "/"); (1, "a.zip")] (start_process work_fs []) in
  fst result = Ret 0
  /\ Posix.nodes (fs (env (run (snd result)))) !! ["f"] = Some (Posix.Regular 420 "new")
  /\ main_calls (snd result)
     = [CallOpenArchive "a.zip"; CallChdir "/"; CallCloseArchive].
Proof.
  cbv zeta.
  destruct (main_runs_the_archive simple_fnmatch
              (open_a_zip (archive_of [(file_entry 3 3, "f")])) "unzip"
              [(100, "/"); (1, "a.zip")] (start_process work_fs [])
              (mkProcess (set_archive_name "a.zip"
                            (set_flag_d "/" (set_is_unzip true initial_flags)))
                 (start_run (start_env kPrompt work_fs [])) [])
              "a.zip" (archive_of [(file_entry 3 3, "f")])
              (Posix.mkFS (Posix.nodes work_fs) [] 18)
              eq_refl eq_refl eq_refl eq_refl) as (Hout & Hrun & _ & Hcalls).
  rewrite Hout, Hrun, Hcalls. repeat split; vm_compute; reflexivity.
Defined.

(** ** The whole program stays inside its directory *)









